(** * bcons-ws-client: the connection manager of [src/bconsWS.js]

    A shallow embedding of the [BconsWS] class and of the host it runs on
    (WebSocket transport, timers, clock), followed by the properties of the
    connection life cycle.

    Conventions of the embedding:
    - a JavaScript string is the list of its UTF-16 code units ([jsstring]);
    - integral JavaScript numbers are [Z]; the only arithmetic of the class,
      [++this.reconnectCount], is modelled with the loss of precision of a
      double at 2^53;
    - the object [this] is the record [BconsWS]; everything the class reaches
      through the host (sockets, timers, clock, observable calls) is the
      record [Host]; a method is a computation in the monad [M], which
      threads both and may complete abruptly with a thrown exception;
    - which addresses the [WebSocket] constructor accepts is up to the
      platform: the host carries that decision ([accepts]), and the
      properties hold for every platform unless they name one;
    - the option values are taken at the types the class documents for them
      (strings for [userToken], [wsServer], [device]; functions for the
      three callbacks);
    - the injected callbacks do not call back into the manager; the two
      logging callbacks return normally, the message sink may throw. *)

From Stdlib Require Import ZArith List String Ascii Bool Lia.
From stdpp Require Import base tactics option list numbers.
Import ListNotations.

Local Set Warnings "-register-all".
Local Open Scope Z_scope.

(** ** Strings *)

Module JsString.

(** A JavaScript string: its UTF-16 code units. *)
Definition jsstring := list N.

(** The code units of an ASCII literal of the source. *)
Definition js (s : string) : jsstring :=
  List.map N_of_ascii (list_ascii_of_string s).

Definition eqb (a b : jsstring) : bool := bool_decide (a = b).

(** Truthiness of a string: only the empty string is falsy. *)
Definition truthy (s : jsstring) : bool :=
  match s with [] => false | _ :: _ => true end.

Definition quote : N := 34%N.
Definition backslash : N := 92%N.

End JsString.
Export JsString.

(** ** JSON values and the two JSON builtins the class calls *)

Module Json.

(** A parsed JSON value. A number is kept as the text of its literal: the
    embedding does not interpret it as an IEEE double. An object keeps its
    members in insertion order, a later duplicate key overwriting the
    earlier value in place, as [JSON.parse] does. *)
Inductive json : Type :=
| JNull
| JBool (b : bool)
| JNumber (lexeme : jsstring)
| JString (s : jsstring)
| JArray (items : list json)
| JObject (members : list (jsstring * json)).

(** *** [JSON.parse] *)

Definition is_ws (c : N) : bool :=
  (c =? 32)%N || (c =? 9)%N || (c =? 10)%N || (c =? 13)%N.

Fixpoint skip_ws (s : jsstring) : jsstring :=
  match s with
  | c :: r => if is_ws c then skip_ws r else s
  | [] => []
  end.

Definition is_digit (c : N) : bool := (48 <=? c)%N && (c <=? 57)%N.

(** The value of a hexadecimal digit, as the u escapes use them. *)
Definition hex_val (c : N) : option N :=
  if is_digit c then Some (c - 48)%N
  else if (97 <=? c)%N && (c <=? 102)%N then Some (c - 87)%N
  else if (65 <=? c)%N && (c <=? 70)%N then Some (c - 55)%N
  else None.

Definition hex4 (a b c d : N) : option N :=
  match hex_val a, hex_val b, hex_val c, hex_val d with
  | Some x, Some y, Some z, Some t => Some (((x * 16 + y) * 16 + z) * 16 + t)%N
  | _, _, _, _ => None
  end.

(** The single-character escapes of a JSON string. *)
Definition unescape (e : N) : option N :=
  if (e =? 34)%N then Some 34%N          (* quotation mark *)
  else if (e =? 92)%N then Some 92%N     (* reverse solidus *)
  else if (e =? 47)%N then Some 47%N     (* solidus *)
  else if (e =? 98)%N then Some 8%N      (* b: backspace *)
  else if (e =? 102)%N then Some 12%N    (* f: form feed *)
  else if (e =? 110)%N then Some 10%N    (* n: line feed *)
  else if (e =? 114)%N then Some 13%N    (* r: carriage return *)
  else if (e =? 116)%N then Some 9%N     (* t: tab *)
  else None.

(** The characters of a string literal, read after its opening quote up
    to and including the closing one: the decoded string and the rest of
    the input. An unescaped control character, an unknown escape and a
    missing closing quote are syntax errors. *)
Fixpoint parse_chars (s : jsstring) : option (jsstring * jsstring) :=
  match s with
  | [] => None
  | c :: r =>
      if (c =? quote)%N then Some ([], r)
      else if (c =? backslash)%N then
        match r with
        | [] => None
        | e :: r1 =>
            if (e =? 117)%N then
              match r1 with
              | h1 :: h2 :: h3 :: h4 :: r2 =>
                  match hex4 h1 h2 h3 h4 with
                  | Some u =>
                      match parse_chars r2 with
                      | Some (str, rest) => Some (u :: str, rest)
                      | None => None
                      end
                  | None => None
                  end
              | _ => None
              end
            else
              match unescape e with
              | Some u =>
                  match parse_chars r1 with
                  | Some (str, rest) => Some (u :: str, rest)
                  | None => None
                  end
              | None => None
              end
        end
      else if (c <? 32)%N then None
      else
        match parse_chars r with
        | Some (str, rest) => Some (c :: str, rest)
        | None => None
        end
  end.

(** A maximal run of decimal digits. *)
Fixpoint take_digits (s : jsstring) : jsstring * jsstring :=
  match s with
  | c :: r =>
      if is_digit c then let '(d, rest) := take_digits r in (c :: d, rest)
      else ([], s)
  | [] => ([], [])
  end.

(** A number literal: an optional minus sign; an integer part, either 0
    or a digit from 1 to 9 followed by digits; an optional fraction, a
    point followed by one digit or more; an optional exponent, e or E, an
    optional sign, one digit or more. The literal and the rest. *)
Definition parse_number (s : jsstring) : option (jsstring * jsstring) :=
  let '(sign, s1) :=
    match s with
    | c :: r => if (c =? 45)%N then ([c], r) else ([], s)
    | [] => ([], s)
    end in
  let int_part :=
    match s1 with
    | c :: r =>
        if (c =? 48)%N then Some ([c], r)
        else if is_digit c then let '(d, rest) := take_digits r in Some (c :: d, rest)
        else None
    | [] => None
    end in
  match int_part with
  | None => None
  | Some (ip, s2) =>
      let frac :=
        match s2 with
        | c :: r =>
            if (c =? 46)%N then
              match take_digits r with
              | ([], _) => None
              | (d, rest) => Some (c :: d, rest)
              end
            else Some ([], s2)
        | [] => Some ([], s2)
        end in
      match frac with
      | None => None
      | Some (fp, s3) =>
          let expo :=
            match s3 with
            | c :: r =>
                if (c =? 101)%N || (c =? 69)%N then
                  let '(sg, r1) :=
                    match r with
                    | x :: r' => if (x =? 43)%N || (x =? 45)%N then ([x], r') else ([], r)
                    | [] => ([], r)
                    end in
                  match take_digits r1 with
                  | ([], _) => None
                  | (d, rest) => Some (c :: sg ++ d, rest)
                  end
                else Some ([], s3)
            | [] => Some ([], s3)
            end in
          match expo with
          | None => None
          | Some (ep, s4) => Some (sign ++ ip ++ fp ++ ep, s4)
          end
      end
  end.

(** [s] starts with the keyword [k]: the rest of [s] after it. *)
Fixpoint strip_prefix (k s : jsstring) : option jsstring :=
  match k, s with
  | [], _ => Some s
  | a :: k', b :: s' => if (a =? b)%N then strip_prefix k' s' else None
  | _ :: _, [] => None
  end.

(** Definition of a member of an object under construction: a key already
    present keeps its place and takes the new value. *)
Fixpoint obj_set (k : jsstring) (v : json) (o : list (jsstring * json))
  : list (jsstring * json) :=
  match o with
  | [] => [(k, v)]
  | (k', v') :: o' =>
      if JsString.eqb k k' then (k, v) :: o' else (k', v') :: obj_set k v o'
  end.

(** The outcome of the recursive descent: a value and the rest of the
    input, a syntax error, or the exhaustion of the recursion budget. *)
Inductive parsed (A : Type) : Type :=
| Parsed (a : A) (rest : jsstring)
| SyntaxError
| OutOfFuel.
Arguments Parsed {A} a rest.
Arguments SyntaxError {A}.
Arguments OutOfFuel {A}.

(** One JSON value, with the white space before it. [parse_members] reads
    the members of an object from the first key to the closing brace,
    [parse_items] the items of an array up to the closing bracket. *)
Fixpoint parse_value (fuel : nat) (s : jsstring) : parsed json :=
  match fuel with
  | O => OutOfFuel
  | S fuel' =>
      match skip_ws s with
      | [] => SyntaxError
      | c :: r =>
          if (c =? quote)%N then
            match parse_chars r with
            | Some (str, rest) => Parsed (JString str) rest
            | None => SyntaxError
            end
          else if (c =? 123)%N then
            match skip_ws r with
            | c' :: r' =>
                if (c' =? 125)%N then Parsed (JObject []) r'
                else parse_members fuel' (c' :: r') []
            | [] => SyntaxError
            end
          else if (c =? 91)%N then
            match skip_ws r with
            | c' :: r' =>
                if (c' =? 93)%N then Parsed (JArray []) r'
                else parse_items fuel' (c' :: r') []
            | [] => SyntaxError
            end
          else
            match strip_prefix (js "true") (c :: r) with
            | Some rest => Parsed (JBool true) rest
            | None =>
            match strip_prefix (js "false") (c :: r) with
            | Some rest => Parsed (JBool false) rest
            | None =>
            match strip_prefix (js "null") (c :: r) with
            | Some rest => Parsed JNull rest
            | None =>
            match parse_number (c :: r) with
            | Some (lexeme, rest) => Parsed (JNumber lexeme) rest
            | None => SyntaxError
            end end end end
      end
  end
with parse_members (fuel : nat) (s : jsstring) (acc : list (jsstring * json))
  : parsed json :=
  match fuel with
  | O => OutOfFuel
  | S fuel' =>
      match s with
      | c :: r =>
          if (c =? quote)%N then
            match parse_chars r with
            | Some (k, r1) =>
                match skip_ws r1 with
                | c1 :: r2 =>
                    if (c1 =? 58)%N then
                      match parse_value fuel' r2 with
                      | Parsed v r3 =>
                          match skip_ws r3 with
                          | c3 :: r4 =>
                              if (c3 =? 44)%N then
                                parse_members fuel' (skip_ws r4) (obj_set k v acc)
                              else if (c3 =? 125)%N then
                                Parsed (JObject (obj_set k v acc)) r4
                              else SyntaxError
                          | [] => SyntaxError
                          end
                      | SyntaxError => SyntaxError
                      | OutOfFuel => OutOfFuel
                      end
                    else SyntaxError
                | [] => SyntaxError
                end
            | None => SyntaxError
            end
          else SyntaxError
      | [] => SyntaxError
      end
  end
with parse_items (fuel : nat) (s : jsstring) (acc : list json) : parsed json :=
  match fuel with
  | O => OutOfFuel
  | S fuel' =>
      match parse_value fuel' s with
      | Parsed v r1 =>
          match skip_ws r1 with
          | c :: r2 =>
              if (c =? 44)%N then parse_items fuel' r2 (acc ++ [v])
              else if (c =? 93)%N then Parsed (JArray (acc ++ [v])) r2
              else SyntaxError
          | [] => SyntaxError
          end
      | SyntaxError => SyntaxError
      | OutOfFuel => OutOfFuel
      end
  end.

(** [JSON.parse(text)]: the whole text is one value between optional
    white space; [None] stands for the [SyntaxError] it throws. The
    budget of twice the length of the text (and two more) is never
    exhausted, see [parse_value_fuel]. *)
Definition JSON_parse (text : jsstring) : option json :=
  match parse_value (2 * length text + 2) text with
  | Parsed v rest => match skip_ws rest with [] => Some v | _ :: _ => None end
  | SyntaxError => None
  | OutOfFuel => None
  end.

(** *** [JSON.stringify] *)

Definition hex_digit (n : N) : N := if (n <? 10)%N then (48 + n)%N else (87 + n)%N.

(** The six-character escape of a code unit, in lower-case hexadecimal. *)
Definition unicode_escape (c : N) : jsstring :=
  [backslash; 117%N;
   hex_digit ((c / 4096) mod 16); hex_digit ((c / 256) mod 16);
   hex_digit ((c / 16) mod 16); hex_digit (c mod 16)].

Definition is_high_surrogate (c : N) : bool := (55296 <=? c)%N && (c <=? 56319)%N.
Definition is_low_surrogate (c : N) : bool := (56320 <=? c)%N && (c <=? 57343)%N.

(** The short escapes [JSON.stringify] writes. *)
Definition short_escape (c : N) : option N :=
  if (c =? 8)%N then Some 98%N
  else if (c =? 9)%N then Some 116%N
  else if (c =? 10)%N then Some 110%N
  else if (c =? 12)%N then Some 102%N
  else if (c =? 13)%N then Some 114%N
  else if (c =? quote)%N then Some quote
  else if (c =? backslash)%N then Some backslash
  else None.

(** The body of a quoted string: short escapes, the other control
    characters and the lone surrogates as unicode escapes, a surrogate
    pair and everything else as it is. *)
Fixpoint quote_chars (s : jsstring) : jsstring :=
  match s with
  | [] => []
  | c :: r =>
      match short_escape c with
      | Some e => backslash :: e :: quote_chars r
      | None =>
          if (c <? 32)%N then unicode_escape c ++ quote_chars r
          else if is_high_surrogate c then
            match r with
            | d :: r' =>
                if is_low_surrogate d then c :: d :: quote_chars r'
                else unicode_escape c ++ quote_chars r
            | [] => unicode_escape c
            end
          else if is_low_surrogate c then unicode_escape c ++ quote_chars r
          else c :: quote_chars r
      end
  end.

Definition quote_string (s : jsstring) : jsstring :=
  quote :: quote_chars s ++ [quote].

(** The texts [l] separated by commas. *)
Fixpoint join_comma (l : list jsstring) : jsstring :=
  match l with
  | [] => []
  | [x] => x
  | x :: l' => x ++ 44%N :: join_comma l'
  end.

(** [JSON.stringify(value)] of a JSON value, without indentation. A
    number is written as the literal it was read from. *)
Fixpoint JSON_stringify (j : json) : jsstring :=
  match j with
  | JNull => js "null"
  | JBool true => js "true"
  | JBool false => js "false"
  | JNumber lexeme => lexeme
  | JString str => quote_string str
  | JArray items => 91%N :: join_comma (List.map JSON_stringify items) ++ [93%N]
  | JObject members =>
      123%N ::
      join_comma
        (List.map (fun kv => quote_string (fst kv) ++ 58%N :: JSON_stringify (snd kv))
           members) ++ [125%N]
  end.

End Json.
Export Json.

(** ** The host: exceptions, sockets, timers, observable calls *)

Module Host.

(** The exceptions of the embedding. [Dangling] is not a JavaScript
    exception: it marks a socket handle that names no socket, which no
    reachable world contains (see [Inv]). [JsonSyntaxError] is the
    [SyntaxError] of [JSON.parse], [DOMSyntaxError] the one of the
    [WebSocket] constructor. *)
Inductive Exn : Type :=
| TypeError
| JsonSyntaxError
| DOMSyntaxError
| InvalidStateError
| Thrown (what : jsstring)
| Dangling.

(** What the message sink receives: a parsed inbound frame, or the
    object [{ errorCode, reason }] the close handler builds. *)
Inductive Payload : Type :=
| PData (data : json)
| PError (errorCode : Z) (reason : jsstring).

(** How a call of an injected function ends. *)
Inductive Outcome : Type :=
| Returns
| Throws (e : Exn).

(** The [onMessage] option: what the function does with a payload. *)
Definition Callback := Payload -> Outcome.

(** An injected logging function, named by a number. *)
Definition LogFn := nat.

(** The close event: [wasClean], [code], [reason]. *)
Record CloseEvent := mkCloseEvent {
  wasClean : bool;
  code : Z;
  reason : jsstring
}.

(** An argument of a logging call. *)
Inductive LogArg : Type :=
| LText (s : string)
| LStr (s : jsstring)
| LNum (n : Z)
| LClose (e : CloseEvent)
| LExn (e : Exn)
| LError (what : jsstring).

(** Sockets and timers are named by numbers. *)
Abbreviation handle := nat (only parsing).
Abbreviation timer_id := nat (only parsing).

(** [readyState] of a WebSocket. *)
Definition CONNECTING : Z := 0.
Definition OPEN : Z := 1.
Definition CLOSING : Z := 2.
Definition CLOSED : Z := 3.

Record Socket := mkSocket {
  url : jsstring;
  readyState : Z
}.

(** The two closures the class hands to [setTimeout]:
    [() => this.connect()] and [() => this.onMessage(content)]. *)
Inductive TimerAction : Type :=
| TConnect
| TDeliver (errorCode : Z) (reason : jsstring).

Record Timer := mkTimer {
  t_id : timer_id;
  t_due : Z;
  t_act : TimerAction
}.

(** The calls the manager makes on its environment, in order. *)
Inductive Effect : Type :=
| ConsoleLog (args : list LogArg)
| ConsoleError (args : list LogArg)
| MsgLog (f : LogFn) (args : list LogArg)
| ErrLog (f : LogFn) (args : list LogArg)
| Created (h : handle) (target : jsstring)
| Transmit (h : handle) (frame : jsstring)
| CloseRequested (h : handle)
| TimerSet (id : timer_id) (delay : Z) (act : TimerAction)
| TimerCleared (id : timer_id)
| SinkCalled (p : Payload).

(** The environment: its sockets, its timers, its clock, the calls made
    on it, and the addresses its [WebSocket] constructor accepts (which
    depends on the platform and, in a browser, on the address of the
    page). *)
Record Host := mkHost {
  sockets : list Socket;
  timers : list Timer;
  next_timer : timer_id;
  now : Z;
  trace : list Effect;
  accepts : jsstring -> bool
}.

End Host.
Export Host.

(** ** The class [BconsWS] *)

Module Manager.

(** The fields of the object, with the names of the class. *)
Record BconsWS := mkBconsWS {
  userToken : jsstring;
  wsServer : jsstring;
  device : jsstring;
  errLog : option LogFn;
  msgLog : option LogFn;
  onMessage : option Callback;
  ws : option handle;
  reconnectCount : Z;
  reconnectTimerId : option timer_id;
  currentWsServer : jsstring
}.

Record World := mkWorld {
  this : BconsWS;
  host : Host
}.

(** *** Computations *)

Inductive Completion (A : Type) : Type :=
| Normal (a : A)
| Abrupt (e : Exn).
Arguments Normal {A} a.
Arguments Abrupt {A} e.

Definition M (A : Type) : Type := World -> Completion A * World.

Definition ret {A} (a : A) : M A := fun w => (Normal a, w).

Definition bind {A B} (m : M A) (k : A -> M B) : M B :=
  fun w =>
    match m w with
    | (Normal a, w') => k a w'
    | (Abrupt e, w') => (Abrupt e, w')
    end.

Definition throw {A} (e : Exn) : M A := fun w => (Abrupt e, w).

(** [try { m } catch (e) { handler e }]: what [m] did before it threw
    stays done. *)
Definition try_catch {A} (m : M A) (handler : Exn -> M A) : M A :=
  fun w =>
    match m w with
    | (Normal a, w') => (Normal a, w')
    | (Abrupt e, w') => handler e w'
    end.

Notation "'let*' x ':=' m 'in' k" := (bind m (fun x => k))
  (at level 10, x name, m at level 100, k at level 200).
Notation "m '>>' k" := (bind m (fun _ => k))
  (at level 100, k at level 200, right associativity).

Definition get_this : M BconsWS := fun w => (Normal (this w), w).
Definition get_host : M Host := fun w => (Normal (host w), w).
Definition put_this (o : BconsWS) : M unit := fun w => (Normal tt, mkWorld o (host w)).
Definition put_host (h : Host) : M unit := fun w => (Normal tt, mkWorld (this w) h).

(** *** Assignments to the fields the methods write *)

Definition with_ws (v : option handle) (o : BconsWS) : BconsWS :=
  mkBconsWS (userToken o) (wsServer o) (device o) (errLog o) (msgLog o) (onMessage o)
    v (reconnectCount o) (reconnectTimerId o) (currentWsServer o).

Definition with_reconnectCount (v : Z) (o : BconsWS) : BconsWS :=
  mkBconsWS (userToken o) (wsServer o) (device o) (errLog o) (msgLog o) (onMessage o)
    (ws o) v (reconnectTimerId o) (currentWsServer o).

Definition with_reconnectTimerId (v : option timer_id) (o : BconsWS) : BconsWS :=
  mkBconsWS (userToken o) (wsServer o) (device o) (errLog o) (msgLog o) (onMessage o)
    (ws o) (reconnectCount o) v (currentWsServer o).

Definition with_currentWsServer (v : jsstring) (o : BconsWS) : BconsWS :=
  mkBconsWS (userToken o) (wsServer o) (device o) (errLog o) (msgLog o) (onMessage o)
    (ws o) (reconnectCount o) (reconnectTimerId o) v.

Definition assign (f : BconsWS -> BconsWS) : M unit :=
  fun w => (Normal tt, mkWorld (f (this w)) (host w)).

(** *** The host primitives *)

Definition with_sockets (v : list Socket) (h : Host) : Host :=
  mkHost v (timers h) (next_timer h) (now h) (trace h) (accepts h).

Definition with_timers (v : list Timer) (n : timer_id) (h : Host) : Host :=
  mkHost (sockets h) v n (now h) (trace h) (accepts h).

Definition with_now (v : Z) (h : Host) : Host :=
  mkHost (sockets h) (timers h) (next_timer h) v (trace h) (accepts h).

Definition with_trace (v : list Effect) (h : Host) : Host :=
  mkHost (sockets h) (timers h) (next_timer h) (now h) v (accepts h).

Definition on_host (f : Host -> Host) : M unit :=
  fun w => (Normal tt, mkWorld (this w) (f (host w))).

(** Records one call on the environment. *)
Definition emit (e : Effect) : M unit :=
  on_host (fun h => with_trace (trace h ++ [e]) h).

(** [new WebSocket(target)]: on an address the platform accepts, a fresh
    socket in the connecting phase; on any other address the constructor
    throws a [SyntaxError] and there is no socket. The four handlers
    [connect] assigns to the socket are the same closures over [this] for
    every socket, so the embedding does not store them: the event loop
    below runs them. *)
Definition new_WebSocket (target : jsstring) : M handle :=
  let* h := get_host in
  if accepts h target then
    let id := length (sockets h) in
    on_host (with_sockets (sockets h ++ [mkSocket target CONNECTING])) >>
    emit (Created id target) >>
    ret id
  else throw DOMSyntaxError.

(** [sock.readyState]. *)
Definition socket_readyState (s : handle) : M Z :=
  let* h := get_host in
  match sockets h !! s with
  | Some sock => ret (readyState sock)
  | None => throw Dangling
  end.

Definition set_readyState (s : handle) (rs : Z) (h : Host) : Host :=
  match sockets h !! s with
  | Some sock => with_sockets (<[s := mkSocket (url sock) rs]> (sockets h)) h
  | None => h
  end.

(** [sock.send(data)] of the platform: an exception while connecting, a
    transmission when open, nothing once closing or closed. *)
Definition socket_send (s : handle) (data : jsstring) : M unit :=
  let* rs := socket_readyState s in
  if rs =? CONNECTING then throw InvalidStateError
  else if rs =? OPEN then emit (Transmit s data)
  else ret tt.

(** [sock.close()] of the platform: starts the closing handshake unless
    the socket is closing or closed. *)
Definition socket_close (s : handle) : M unit :=
  let* rs := socket_readyState s in
  if (rs =? CLOSING) || (rs =? CLOSED) then ret tt
  else on_host (set_readyState s CLOSING) >> emit (CloseRequested s).

(** [setTimeout(act, delay)]: a fresh positive identifier. *)
Definition setTimeout (act : TimerAction) (delay : Z) : M timer_id :=
  let* h := get_host in
  let id := next_timer h in
  on_host (with_timers (timers h ++ [mkTimer id (now h + delay) act]) (S id)) >>
  emit (TimerSet id delay act) >>
  ret id.

Definition pending (id : timer_id) (t : Timer) : bool := Nat.eqb (t_id t) id.

(** [clearTimeout(id)]. *)
Definition clearTimeout (id : timer_id) : M unit :=
  on_host (fun h => with_timers (List.filter (fun t => negb (pending id t)) (timers h))
                      (next_timer h) h) >>
  emit (TimerCleared id).

(** A call of the message sink. *)
Definition call_sink (cb : Callback) (p : Payload) : M unit :=
  emit (SinkCalled p) >>
  match cb p with
  | Returns => ret tt
  | Throws e => throw e
  end.

(** *** The methods *)

(** [log(...params)]. *)
Definition log (params : list LogArg) : M unit :=
  let* me := get_this in
  match msgLog me with
  | Some f => emit (MsgLog f params)
  | None => emit (ConsoleLog params)
  end.

(** [logErr(...params)]. *)
Definition logErr (params : list LogArg) : M unit :=
  let* me := get_this in
  match errLog me with
  | Some f => emit (ErrLog f params)
  | None => emit (ConsoleError params)
  end.

(** [connect()]. *)
Definition connect : M unit :=
  let* me := get_this in
  if negb (truthy (userToken me)) then
    logErr [LText "User token required for BconsWS init"]
  else if negb (truthy (currentWsServer me)) then
    logErr [LText "No Fry server provided, aborting."]
  else
    log [LText "Connecting to Fry"] >>
    let* busy :=
      match ws me with
      | Some s =>
          let* rs := socket_readyState s in
          ret (if rs =? 3 then None else Some rs)
      | None => ret None
      end in
    match busy with
    | Some rs => log [LText "Websocket readyState is"; LNum rs; LText ". Aborting"]
    | None =>
        log [LText "WS creation"; LStr (currentWsServer me)] >>
        let* s := new_WebSocket (currentWsServer me) in
        assign (with_ws (Some s))
    end.

(** The frame of the [onopen] handler, the template literal
    [{"e": "auth", "userToken":"${userToken}", "device":"${device}"}]
    with its two substitutions. *)
Definition auth_frame (token dev : jsstring) : jsstring :=
  js "{" ++ quote :: js "e" ++ quote :: js ": " ++ quote :: js "auth" ++ quote ::
  js ", " ++ quote :: js "userToken" ++ quote :: js ":" ++ quote :: token ++ quote ::
  js ", " ++ quote :: js "device" ++ quote :: js ":" ++ quote :: dev ++ quote :: js "}".

(** [this.ws], for a member access on it. *)
Definition this_ws : M handle :=
  let* me := get_this in
  match ws me with
  | Some s => ret s
  | None => throw TypeError
  end.

(** The [onopen] handler. *)
Definition onopen : M unit :=
  log [LText "[ws] Connection established"] >>
  assign (with_reconnectCount 0) >>
  let* s := this_ws in
  let* me := get_this in
  socket_send s (auth_frame (userToken me) (device me)).

(** [++n] on a double holding the integer [n]: exact up to 2^53, where
    the sum rounds back to 2^53. (Exact for every [n] from 0, as the
    counter is.) *)
Definition js_incr (n : Z) : Z := if n <? 2 ^ 53 then n + 1 else n.

(** The [onclose] handler. *)
Definition onclose (e : CloseEvent) : M unit :=
  if wasClean e then
    log [LText "WS connection closed clean"] >>
    log [LClose e] >>
    (if code e =? 302 then
       assign (with_currentWsServer (reason e)) >>
       log [LText "Forwarding to"; LStr (reason e)] >>
       connect
     else ret tt) >>
    (if (400 <? code e) && (code e <? 500) then
       let* me := get_this in
       match onMessage me with
       | Some _ => setTimeout (TDeliver (code e) (reason e)) 3000 >> ret tt
       | None => ret tt
       end
     else ret tt)
  else
    let* me := get_this in
    log [LText "Disconnected, will try to reconnect. Retry count:";
         LNum (reconnectCount me)] >>
    let count := js_incr (reconnectCount me) in
    assign (with_reconnectCount count) >>
    let retry :=
      if 20 <? count then 10000
      else if 10 <? count then 7000
      else if 5 <? count then 5000
      else 1000 in
    let* retry :=
      if (5 <? count) && negb (JsString.eqb (currentWsServer me) (wsServer me)) then
        log [LText "Switching to"; LStr (wsServer me)] >>
        assign (with_currentWsServer (wsServer me)) >>
        ret 1000
      else ret retry in
    (match reconnectTimerId me with
     | Some id => if Nat.eqb id 0 then ret tt else clearTimeout id
     | None => ret tt
     end) >>
    let* id := setTimeout TConnect retry in
    assign (with_reconnectTimerId (Some id)).

(** The [onerror] handler; the error event is opaque. *)
Definition onerror (what : jsstring) : M unit :=
  logErr [LText "[ws]"; LError what].

(** The [onmessage] handler, on [msg.data]. *)
Definition onmessage (data : jsstring) : M unit :=
  try_catch
    (let* parsed :=
       match JSON_parse data with
       | Some v => ret v
       | None => throw JsonSyntaxError
       end in
     let* me := get_this in
     match onMessage me with
     | Some cb => call_sink cb (PData parsed)
     | None => ret tt
     end)
    (fun e => logErr [LExn e]).

(** The argument of [send]: a string, or a value to serialise. *)
Inductive Message : Type :=
| MString (s : jsstring)
| MValue (v : json).

(** [send(message)]. *)
Definition send (message : Message) : M unit :=
  let* s := this_ws in
  let* rs := socket_readyState s in
  if negb (rs =? 1) then ret tt
  else
    let message :=
      match message with
      | MString str => str
      | MValue v => JSON_stringify v
      end in
    socket_send s message.

(** [disconnect()]. *)
Definition disconnect : M unit :=
  log [LText "Closing WS"] >>
  let* me := get_this in
  match ws me with
  | Some s => socket_close s
  | None => ret tt
  end.

End Manager.
Export Manager.

(** ** Construction *)

Module Construction.

(** The options object, at the types the class documents. [None] is a
    key that is missing or holds [undefined]. *)
Record Options := mkOptions {
  opt_userToken : option jsstring;
  opt_wsServer : option jsstring;
  opt_device : option jsstring;
  opt_onMessage : option Callback;
  opt_msgLog : option LogFn;
  opt_errLog : option LogFn
}.

Definition no_options : Options := mkOptions None None None None None None.

(** The argument of [new BconsWS(...)]: nothing, [null], a number, a
    string or a boolean, or an object. *)
Inductive Argument : Type :=
| Undefined
| Null
| Primitive
| Object (options : Options).

(** The values of the class field initialisers. *)
Definition defaults : BconsWS :=
  {| userToken := [];
     wsServer := js "wss://bcons.dev/fry";
     device := js "custom";
     errLog := None;
     msgLog := None;
     onMessage := None;
     ws := None;
     reconnectCount := 0;
     reconnectTimerId := None;
     currentWsServer := js "wss://bcons.dev/fry" |}.

Inductive Key : Type :=
| K_userToken | K_wsServer | K_device | K_onMessage | K_msgLog | K_errLog.

(** The array the constructor iterates over. *)
Definition keys : list Key :=
  [K_userToken; K_wsServer; K_device; K_onMessage; K_msgLog; K_errLog].

(** The body of the [forEach] callback:
    [if (typeof options[key] !== "undefined") this[key] = options[key]]. *)
Definition overwrite (options : Options) (o : BconsWS) (key : Key) : BconsWS :=
  match key with
  | K_userToken =>
      match opt_userToken options with
      | Some v => mkBconsWS v (wsServer o) (device o) (errLog o) (msgLog o) (onMessage o)
                    (ws o) (reconnectCount o) (reconnectTimerId o) (currentWsServer o)
      | None => o
      end
  | K_wsServer =>
      match opt_wsServer options with
      | Some v => mkBconsWS (userToken o) v (device o) (errLog o) (msgLog o) (onMessage o)
                    (ws o) (reconnectCount o) (reconnectTimerId o) (currentWsServer o)
      | None => o
      end
  | K_device =>
      match opt_device options with
      | Some v => mkBconsWS (userToken o) (wsServer o) v (errLog o) (msgLog o) (onMessage o)
                    (ws o) (reconnectCount o) (reconnectTimerId o) (currentWsServer o)
      | None => o
      end
  | K_onMessage =>
      match opt_onMessage options with
      | Some v => mkBconsWS (userToken o) (wsServer o) (device o) (errLog o) (msgLog o) (Some v)
                    (ws o) (reconnectCount o) (reconnectTimerId o) (currentWsServer o)
      | None => o
      end
  | K_msgLog =>
      match opt_msgLog options with
      | Some v => mkBconsWS (userToken o) (wsServer o) (device o) (errLog o) (Some v) (onMessage o)
                    (ws o) (reconnectCount o) (reconnectTimerId o) (currentWsServer o)
      | None => o
      end
  | K_errLog =>
      match opt_errLog options with
      | Some v => mkBconsWS (userToken o) (wsServer o) (device o) (Some v) (msgLog o) (onMessage o)
                    (ws o) (reconnectCount o) (reconnectTimerId o) (currentWsServer o)
      | None => o
      end
  end.

(** The body of the constructor, on an options object. *)
Definition construct (options : Options) : BconsWS :=
  let o := fold_left (overwrite options) keys defaults in
  with_currentWsServer (wsServer o) o.

(** The object a property read on [arg] looks into. There is none for
    [undefined] and [null]: the read throws a [TypeError]. A number, a
    string or a boolean is read through its wrapper, which has none of
    the six keys. *)
Definition to_object (arg : Argument) : Completion Options :=
  match arg with
  | Undefined | Null => Abrupt TypeError
  | Primitive => Normal no_options
  | Object options => Normal options
  end.

(** The [forEach] callback on the argument as it was passed: the reads of
    [options[key]], then the assignment. *)
Definition visit (arg : Argument) (key : Key) (o : BconsWS) : Completion BconsWS :=
  match to_object arg with
  | Normal options => Normal (overwrite options o key)
  | Abrupt e => Abrupt e
  end.

(** [ks.forEach(f)], on the object under construction: an exception
    thrown by the callback ends the iteration. *)
Fixpoint forEach (f : Key -> BconsWS -> Completion BconsWS) (ks : list Key) (o : BconsWS)
  : Completion BconsWS :=
  match ks with
  | [] => Normal o
  | key :: rest =>
      match f key o with
      | Normal o' => forEach f rest o'
      | Abrupt e => Abrupt e
      end
  end.

(** [new BconsWS(arg)]: the field initialisers, the iteration over the
    keys, the assignment to [currentWsServer]. *)
Definition constructor (arg : Argument) : Completion BconsWS :=
  match forEach (visit arg) keys defaults with
  | Normal o => Normal (with_currentWsServer (wsServer o) o)
  | Abrupt e => Abrupt e
  end.

End Construction.
Export Construction.

(** ** The event loop *)

Module Loop.

(** What can happen to a manager: a call of one of its public methods, an
    event of one of its sockets, a timer that fires, time that passes. *)
Inductive Event : Type :=
| CallConnect
| CallSend (message : Message)
| CallDisconnect
| SocketOpen (s : handle)
| SocketClose (s : handle) (e : CloseEvent)
| SocketError (s : handle) (what : jsstring)
| SocketMessage (s : handle) (data : jsstring)
| TimerFires (id : timer_id)
| Elapse (ms : Z).

(** The environment before anything happened, on a platform that accepts
    the addresses [platform] says. *)
Definition empty_host (platform : jsstring -> bool) : Host :=
  {| sockets := []; timers := []; next_timer := 1%nat; now := 0; trace := [];
     accepts := platform |}.

(** The world right after a successful construction. *)
Definition boot (platform : jsstring -> bool) (o : BconsWS) : World :=
  mkWorld o (empty_host platform).

(** The closure a timer holds, run. *)
Definition run_timer (act : TimerAction) : M unit :=
  match act with
  | TConnect => connect
  | TDeliver c r =>
      let* me := get_this in
      match onMessage me with
      | Some cb => call_sink cb (PError c r)
      | None => throw TypeError
      end
  end.

Definition state_of (s : handle) (w : World) : option Z :=
  readyState <$> sockets (host w) !! s.

Definition move_socket (s : handle) (rs : Z) (w : World) : World :=
  mkWorld (this w) (set_readyState s rs (host w)).

(** One turn of the event loop. [None]: the event cannot happen in this
    world (an open event on a socket that is not connecting, a close
    event on a closed one, a message on one that is not open, a timer
    that is not pending or not yet due, time running backwards). A
    socket changes phase before its handler runs. *)
Definition dispatch (ev : Event) (w : World) : option (Completion unit * World) :=
  match ev with
  | CallConnect => Some (connect w)
  | CallSend message => Some (send message w)
  | CallDisconnect => Some (disconnect w)
  | SocketOpen s =>
      match state_of s w with
      | Some rs => if rs =? CONNECTING then Some (onopen (move_socket s OPEN w)) else None
      | None => None
      end
  | SocketClose s e =>
      match state_of s w with
      | Some rs => if rs =? CLOSED then None else Some (onclose e (move_socket s CLOSED w))
      | None => None
      end
  | SocketError s what =>
      match state_of s w with
      | Some _ => Some (onerror what w)
      | None => None
      end
  | SocketMessage s data =>
      match state_of s w with
      | Some rs => if rs =? OPEN then Some (onmessage data w) else None
      | None => None
      end
  | TimerFires id =>
      match List.find (pending id) (timers (host w)) with
      | Some t =>
          if t_due t <=? now (host w) then
            Some (run_timer (t_act t)
                    (mkWorld (this w)
                       (with_timers
                          (List.filter (fun t' => negb (pending id t')) (timers (host w)))
                          (next_timer (host w)) (host w))))
          else None
      | None => None
      end
  | Elapse ms =>
      if 0 <=? ms then
        Some (Normal tt, mkWorld (this w) (with_now (now (host w) + ms) (host w)))
      else None
  end.

(** A sequence of turns. An exception that escapes a turn is reported by
    the host (or raised to the caller of the method) and the loop goes
    on. *)
Fixpoint run (evs : list Event) (w : World) : option World :=
  match evs with
  | [] => Some w
  | ev :: evs' =>
      match dispatch ev w with
      | Some (_, w') => run evs' w'
      | None => None
      end
  end.

End Loop.
Export Loop.

(** ** Reasoning about computations *)

Module Steps.

(** The world after one more call on the environment. *)
Definition say (e : Effect) (w : World) : World :=
  mkWorld (this w) (with_trace (trace (host w) ++ [e]) (host w)).

(** The world after some more calls on the environment, nothing else
    changed. *)
Definition add_trace (l : list Effect) (w : World) : World :=
  mkWorld (this w) (with_trace (trace (host w) ++ l) (host w)).

Definition log_call (f : option LogFn) (params : list LogArg) : Effect :=
  match f with Some f => MsgLog f params | None => ConsoleLog params end.

Definition logErr_call (f : option LogFn) (params : list LogArg) : Effect :=
  match f with Some f => ErrLog f params | None => ConsoleError params end.

(** The logging calls, as opposed to the calls that create a socket,
    transmit, set or clear a timer, or reach the message sink. *)
Definition is_log (e : Effect) : bool :=
  match e with
  | ConsoleLog _ | ConsoleError _ | MsgLog _ _ | ErrLog _ _ => true
  | _ => false
  end.

Lemma log_eq p w : log p w = (Normal tt, say (log_call (msgLog (this w)) p) w).
Proof. unfold log, bind, get_this. destruct (msgLog (this w)); reflexivity. Qed.

Lemma logErr_eq p w : logErr p w = (Normal tt, say (logErr_call (errLog (this w)) p) w).
Proof. unfold logErr, bind, get_this. destruct (errLog (this w)); reflexivity. Qed.

Lemma is_log_log_call f p : is_log (log_call f p) = true.
Proof. destruct f; reflexivity. Qed.

Lemma is_log_logErr_call f p : is_log (logErr_call f p) = true.
Proof. destruct f; reflexivity. Qed.

Lemma say_add_trace e w : say e w = add_trace [e] w.
Proof. reflexivity. Qed.

Lemma add_trace_add_trace l1 l2 w : add_trace l2 (add_trace l1 w) = add_trace (l1 ++ l2) w.
Proof. unfold add_trace, with_trace; cbn. by rewrite app_assoc. Qed.

(** Unfolds the methods and the primitives down to the logging calls,
    which are replaced by their one effect. *)
Ltac run_m :=
  cbv beta iota delta
    [onopen onclose onerror onmessage send disconnect run_timer
     call_sink this_ws socket_send socket_close socket_readyState
     new_WebSocket setTimeout clearTimeout emit on_host assign
     get_this get_host put_this put_host bind ret throw try_catch] in *;
  repeat first [rewrite log_eq | rewrite logErr_eq | progress cbv beta iota];
  cbn [this host fst snd say add_trace move_socket
       with_trace with_sockets with_timers with_now
       sockets timers next_timer now trace accepts
       with_ws with_reconnectCount with_reconnectTimerId with_currentWsServer
       userToken wsServer device errLog msgLog onMessage
       ws reconnectCount reconnectTimerId currentWsServer
       wasClean code reason] in *.

(** Gathers the calls made in a row. *)
Ltac norm_trace :=
  rewrite ?say_add_trace, ?add_trace_add_trace; cbn [app].

(** Case analysis on the innermost scrutinee of the goal. *)
Ltac inner_case :=
  match goal with
  | |- context [match ?x with _ => _ end] =>
      lazymatch x with
      | context [match _ with _ => _ end] => fail
      | connect _ => fail
      | _ => destruct x eqn:?
      end
  end.

(** *** [connect] *)

(** The world [connect] leaves when it opens a socket. *)
Definition dialled (w : World) : World :=
  let target := currentWsServer (this w) in
  let s := length (sockets (host w)) in
  mkWorld (with_ws (Some s) (this w))
    (mkHost (sockets (host w) ++ [mkSocket target CONNECTING])
       (timers (host w)) (next_timer (host w)) (now (host w))
       (trace (host w) ++
          [log_call (msgLog (this w)) [LText "Connecting to Fry"];
           log_call (msgLog (this w)) [LText "WS creation"; LStr target];
           Created s target])
       (accepts (host w))).

(** [connect] either changes nothing but the log, or opens a socket to
    [currentWsServer]; it opens one exactly when the token and the server
    are not empty, there is no socket or the socket is closed, and the
    platform accepts the address. When the platform does not, the
    [SyntaxError] of the constructor escapes [connect]. *)
Lemma connect_cases w :
  (exists c entries,
      connect w = (c, add_trace entries w) /\ forallb is_log entries = true /\
      (c = Normal tt \/
       (exists s, ws (this w) = Some s /\ sockets (host w) !! s = None) \/
       (c = Abrupt DOMSyntaxError /\
        accepts (host w) (currentWsServer (this w)) = false /\
        (ws (this w) = None \/
         exists s sock, ws (this w) = Some s /\ sockets (host w) !! s = Some sock /\
                        readyState sock = CLOSED))) /\
      (truthy (userToken (this w)) = false \/
       truthy (currentWsServer (this w)) = false \/
       (exists s, ws (this w) = Some s /\
                  forall sock, sockets (host w) !! s = Some sock ->
                               readyState sock <> CLOSED) \/
       accepts (host w) (currentWsServer (this w)) = false)) \/
  (truthy (userToken (this w)) = true /\
   truthy (currentWsServer (this w)) = true /\
   ((ws (this w) = None \/
     exists s sock, ws (this w) = Some s /\ sockets (host w) !! s = Some sock /\
                    readyState sock = CLOSED) /\
    accepts (host w) (currentWsServer (this w)) = true) /\
   connect w = (Normal tt, dialled w)).
Proof.
  unfold connect. run_m.
  destruct (truthy (userToken (this w))) eqn:Htok; cbn [negb].
  2:{ left. run_m. norm_trace. eexists _, _. split; [reflexivity|].
      split; [cbn; by rewrite is_log_logErr_call |]. split; [by left | by left]. }
  destruct (truthy (currentWsServer (this w))) eqn:Hsrv; cbn [negb].
  2:{ left. run_m. norm_trace. eexists _, _. split; [reflexivity|].
      split; [cbn; by rewrite is_log_logErr_call |].
      split; [by left | right; by left]. }
  run_m.
  destruct (ws (this w)) as [s|] eqn:Hws; run_m.
  - destruct (sockets (host w) !! s) as [sock|] eqn:Hs; run_m.
    + destruct (readyState sock =? 3) eqn:Hrs; run_m.
      * destruct (accepts (host w) (currentWsServer (this w))) eqn:Hok; run_m.
        -- right. repeat split; try done.
           ++ right. exists s, sock. repeat split; try done.
              by apply Z.eqb_eq in Hrs.
           ++ unfold dialled; cbn. rewrite <- !app_assoc. reflexivity.
        -- left. norm_trace. eexists _, _. split; [reflexivity|].
           split; [cbn; by rewrite !is_log_log_call |]. split.
           ++ right; right. repeat split; try done.
              right. exists s, sock. repeat split; try done.
              by apply Z.eqb_eq in Hrs.
           ++ by right; right; right.
      * left. norm_trace. eexists _, _. split; [reflexivity|].
        split; [cbn; by rewrite !is_log_log_call |]. split; [by left|].
        right; right; left. exists s. split; [done|]. intros sock' Heq.
        simplify_eq. apply Z.eqb_neq in Hrs. exact Hrs.
    + left. norm_trace. eexists _, _. split; [reflexivity|].
      split; [cbn; by rewrite !is_log_log_call |]. split; [right; left; eauto|].
      right; right; left. exists s. split; [done|]. intros sock' Heq. congruence.
  - destruct (accepts (host w) (currentWsServer (this w))) eqn:Hok; run_m.
    + right. repeat split; try done; [by left|].
      unfold dialled; cbn. rewrite <- !app_assoc. reflexivity.
    + left. norm_trace. eexists _, _. split; [reflexivity|].
      split; [cbn; by rewrite !is_log_log_call |]. split.
      * right; right. repeat split; try done. by left.
      * by right; right; right.
Qed.

(** The two lines [connect] logs before it calls the constructor. *)
Definition dial_lines (w : World) : list Effect :=
  [log_call (msgLog (this w)) [LText "Connecting to Fry"];
   log_call (msgLog (this w)) [LText "WS creation"; LStr (currentWsServer (this w))]].

(** On an address the platform does not accept, [connect] logs its two
    lines and the [SyntaxError] of the constructor escapes it: no socket,
    and [ws] keeps its value. *)
Lemma connect_rejected w :
  truthy (userToken (this w)) = true ->
  truthy (currentWsServer (this w)) = true ->
  (ws (this w) = None \/
   exists s sock, ws (this w) = Some s /\ sockets (host w) !! s = Some sock /\
                  readyState sock = CLOSED) ->
  accepts (host w) (currentWsServer (this w)) = false ->
  connect w = (Abrupt DOMSyntaxError, add_trace (dial_lines w) w).
Proof.
  intros Htok Hsrv Hfree Hno. unfold connect. run_m.
  rewrite Htok, Hsrv. cbn [negb]. run_m.
  destruct Hfree as [Hws|(s & sock & Hws & Hs & Hrs)]; rewrite Hws; run_m.
  - rewrite Hno. norm_trace. reflexivity.
  - rewrite Hs. run_m. rewrite Hrs. change (CLOSED =? 3) with true. run_m.
    rewrite Hno. norm_trace. reflexivity.
Qed.

(** Splits on the call of [connect] in the goal: it only logged
    (returning, or throwing), or it opened a socket. *)
Ltac connect_case :=
  match goal with
  | |- context [connect ?W] =>
      let c := fresh "c" in
      let l := fresh "entries" in
      let Hl := fresh "Hlog" in
      let Hc := fresh "Hc" in
      let Ht := fresh "Htoken" in
      let Hs := fresh "Hserver" in
      let Hw := fresh "Hsocket" in
      let Ha := fresh "Haccepted" in
      destruct (connect_cases W)
        as [(c & l & -> & Hl & Hc & _) | (Ht & Hs & (Hw & Ha) & ->)]
  end.

End Steps.
Export Steps.

(** ** What every reachable world satisfies *)

Module Invariants.

(** The manager's handle names a socket, and every socket that is not
    closed is the manager's. *)
Definition SockInv (cur : option handle) (socks : list Socket) : Prop :=
  (forall s, cur = Some s -> is_Some (socks !! s)) /\
  (forall s sock, socks !! s = Some sock -> readyState sock <> CLOSED -> cur = Some s).

(** Timer identifiers are positive and handed out in increasing order. *)
Definition TimerInv (cur : option timer_id) (ts : list Timer) (next : timer_id) : Prop :=
  (0 < next)%nat /\
  Forall (fun t => (t_id t < next)%nat) ts /\
  (forall id, cur = Some id -> (0 < id < next)%nat).

(** The counter holds an integer a double represents exactly. *)
Definition CountInv (n : Z) : Prop := 0 <= n <= 2 ^ 53.

Definition Inv (w : World) : Prop :=
  SockInv (ws (this w)) (sockets (host w)) /\
  TimerInv (reconnectTimerId (this w)) (timers (host w)) (next_timer (host w)) /\
  CountInv (reconnectCount (this w)).

Lemma SockInv_dial cur socks target :
  (cur = None \/
   exists s sock, cur = Some s /\ socks !! s = Some sock /\ readyState sock = CLOSED) ->
  SockInv cur socks ->
  SockInv (Some (length socks)) (socks ++ [mkSocket target CONNECTING]).
Proof.
  intros Hcur [Hh Hl]. split.
  - intros s [= <-]. rewrite lookup_app_r, Nat.sub_diag by lia. by eexists.
  - intros s sock Hs Hlive.
    destruct (decide (s < length socks)%nat) as [Hlt|Hge].
    + rewrite lookup_app_l in Hs by done.
      specialize (Hl _ _ Hs Hlive).
      destruct Hcur as [->|(s' & sock' & -> & Hs' & Hc)]; [done|].
      by simplify_eq.
    + apply lookup_lt_Some in Hs. rewrite length_app in Hs. cbn in Hs.
      f_equal. lia.
Qed.

Lemma SockInv_move cur socks s rs h :
  sockets h = socks ->
  (rs = CLOSED \/ exists sock, socks !! s = Some sock /\ readyState sock <> CLOSED) ->
  SockInv cur socks ->
  SockInv cur (sockets (set_readyState s rs h)).
Proof.
  intros <- Hrs [Hh Hl]. unfold set_readyState.
  destruct (sockets h !! s) as [sock|] eqn:Hs; [|by split]. cbn. split.
  - intros s' Hs'. apply Hh in Hs'. apply lookup_lt_is_Some.
    rewrite length_insert. by apply lookup_lt_is_Some.
  - intros s' sock' Hs' Hlive.
    destruct (decide (s = s')) as [<-|Hne].
    + rewrite list_lookup_insert_eq in Hs' by (by eapply lookup_lt_Some).
      injection Hs' as <-. cbn in Hlive.
      destruct Hrs as [->|(sock' & Hs' & Hlive')]; [done|].
      simplify_eq. eapply Hl; eauto.
    + rewrite list_lookup_insert_ne in Hs' by done. eauto.
Qed.

Lemma TimerInv_set cur ts next due act :
  TimerInv cur ts next -> TimerInv cur (ts ++ [mkTimer next due act]) (S next).
Proof.
  intros (Hpos & Hts & Hcur). split; [lia|]. split.
  - apply Forall_app. split.
    + apply List.Forall_forall. intros t Ht.
      eapply List.Forall_forall in Hts; [|exact Ht]. lia.
    + constructor; [cbn; lia | constructor].
  - intros id Hid. apply Hcur in Hid. lia.
Qed.

Lemma TimerInv_set_id cur ts next due act :
  TimerInv cur ts next -> TimerInv (Some next) (ts ++ [mkTimer next due act]) (S next).
Proof.
  intros (Hpos & Hts & Hcur). split; [lia|]. split.
  - apply Forall_app. split.
    + apply List.Forall_forall. intros t Ht.
      eapply List.Forall_forall in Hts; [|exact Ht]. lia.
    + constructor; [cbn; lia | constructor].
  - intros id [= <-]. lia.
Qed.

Lemma TimerInv_filter cur ts next (keep : Timer -> bool) :
  TimerInv cur ts next -> TimerInv cur (List.filter keep ts) next.
Proof.
  intros (Hpos & Hts & Hcur). split; [exact Hpos|]. split; [|exact Hcur].
  apply List.Forall_forall. intros t Ht.
  apply List.filter_In in Ht as [Ht _].
  eapply List.Forall_forall in Hts; [|exact Ht]. done.
Qed.

Lemma CountInv_incr n : CountInv n -> CountInv (js_incr n).
Proof.
  unfold CountInv, js_incr. intros H.
  destruct (n <? 2 ^ 53) eqn:E; [apply Z.ltb_lt in E|]; lia.
Qed.

Lemma CountInv_zero : CountInv 0.
Proof. unfold CountInv. lia. Qed.


Lemma Inv_add_trace l w : Inv w -> Inv (add_trace l w).
Proof. intros H. exact H. Qed.

Lemma Inv_say e w : Inv w -> Inv (say e w).
Proof. intros H. exact H. Qed.

Lemma Inv_move s rs w :
  (rs = CLOSED \/
   exists sock, sockets (host w) !! s = Some sock /\ readyState sock <> CLOSED) ->
  Inv w -> Inv (move_socket s rs w).
Proof.
  intros Hrs (Hs & Ht & Hc). split; [|split]; cbn.
  - by eapply SockInv_move.
  - unfold set_readyState. by destruct (sockets (host w) !! s).
  - done.
Qed.

Lemma connect_Inv w : Inv w -> Inv (snd (connect w)).
Proof.
  intros (Hs & Ht & Hc). connect_case; cbn [snd].
  - by apply Inv_add_trace.
  - split; [|split]; cbn; try done. eapply SockInv_dial; eauto.
Qed.

Lemma onopen_Inv w : Inv w -> Inv (snd (onopen w)).
Proof.
  intros H. run_m. repeat (inner_case; run_m); cbn [snd].
  all: destruct H as (Hs & Ht & Hc); split; [|split]; cbn; auto using CountInv_zero.
Qed.

Lemma onerror_Inv what w : Inv w -> Inv (snd (onerror what w)).
Proof. intros H. run_m. by apply Inv_say. Qed.

Lemma onmessage_Inv data w : Inv w -> Inv (snd (onmessage data w)).
Proof.
  intros H. run_m. repeat (inner_case; run_m); cbn [snd].
  all: destruct H as (Hs & Ht & Hc); split; [|split]; cbn; auto.
Qed.

Lemma send_Inv message w : Inv w -> Inv (snd (send message w)).
Proof.
  intros H. run_m. repeat (inner_case; run_m); cbn [snd].
  all: destruct H as (Hs & Ht & Hc); split; [|split]; cbn; auto.
Qed.


(** Replaces the call of [connect] in the goal by its (invariant) result. *)
Ltac connect_abstract H :=
  match goal with
  | |- context [connect ?W] =>
      let HI := fresh "HI" in
      let c := fresh "c" in
      let w' := fresh "w'" in
      assert (HI : Inv (snd (connect W))) by (apply connect_Inv; exact H);
      clear H; destruct (connect W) as [c w']; cbn [snd] in HI; rename HI into H
  end.

Ltac split_Inv H :=
  let HS := fresh "HS" in
  let HT := fresh "HT" in
  let HC := fresh "HC" in
  destruct H as (HS & HT & HC); split; [|split]; cbn.

Ltac solve_Inv :=
  first
    [ assumption
    | apply CountInv_zero
    | apply CountInv_incr; assumption
    | apply TimerInv_set; assumption
    | eapply TimerInv_set_id; eassumption
    | eapply TimerInv_set_id, TimerInv_filter; eassumption
    | apply TimerInv_filter; assumption ].

Lemma onclose_Inv e w : Inv w -> Inv (snd (onclose e w)).
Proof.
  intros H. run_m.
  repeat (first [inner_case | connect_abstract H]; run_m); cbn [snd].
  all: split_Inv H.
  all: solve_Inv.
Qed.


Lemma disconnect_Inv w : Inv w -> Inv (snd (disconnect w)).
Proof.
  intros H. run_m. repeat (inner_case; run_m); cbn [snd]; try exact H.
  match goal with
  | Hs : sockets (host w) !! ?s = Some ?sock, Hb : _ || _ = false |- _ =>
      apply orb_false_iff in Hb as [_ Hb]; apply Z.eqb_neq in Hb;
      destruct H as (HS & HT & HC);
      pose proof (SockInv_move _ _ s CLOSING (host w) eq_refl
                    (or_intror (ex_intro _ sock (conj Hs Hb))) HS) as HS';
      unfold set_readyState in *; cbn [sockets with_trace] in *;
      rewrite Hs in *
  end.
  split; [|split]; cbn; done.
Qed.

Lemma run_timer_Inv act w : Inv w -> Inv (snd (run_timer act w)).
Proof.
  intros H. destruct act as [|c r].
  - by apply connect_Inv.
  - run_m. repeat (inner_case; run_m); cbn [snd]; exact H.
Qed.

(** One turn of the loop keeps the invariant. *)
Lemma dispatch_Inv ev w c w' : dispatch ev w = Some (c, w') -> Inv w -> Inv w'.
Proof.
  intros Hd H.
  assert (Hsnd : forall (r : Completion unit * World), Some r = Some (c, w') -> w' = snd r)
    by (by intros r [= ->]).
  destruct ev; cbn [dispatch] in Hd.
  - apply Hsnd in Hd as ->. by apply connect_Inv.
  - apply Hsnd in Hd as ->. by apply send_Inv.
  - apply Hsnd in Hd as ->. by apply disconnect_Inv.
  - unfold state_of in Hd.
    destruct (sockets (host w) !! s) as [sock|] eqn:Hs; cbn in Hd; [|done].
    destruct (readyState sock =? CONNECTING) eqn:Hrs; [|done].
    apply Hsnd in Hd as ->. apply onopen_Inv, Inv_move; [|done].
    right. exists sock. split; [done|]. apply Z.eqb_eq in Hrs. rewrite Hrs. done.
  - unfold state_of in Hd.
    destruct (sockets (host w) !! s) as [sock|] eqn:Hs; cbn in Hd; [|done].
    destruct (readyState sock =? CLOSED) eqn:Hrs; [done|].
    apply Hsnd in Hd as ->. apply onclose_Inv, Inv_move; [by left|done].
  - destruct (state_of s w); [|done].
    apply Hsnd in Hd as ->. by apply onerror_Inv.
  - destruct (state_of s w) as [rs|]; [|done].
    destruct (rs =? OPEN); [|done].
    apply Hsnd in Hd as ->. by apply onmessage_Inv.
  - destruct (List.find (pending id) (timers (host w))) as [t|]; [|done].
    destruct (t_due t <=? now (host w)); [|done].
    apply Hsnd in Hd as ->. apply run_timer_Inv.
    destruct H as (HS & HT & HC). split; [|split]; cbn; try done.
    by apply TimerInv_filter.
  - destruct (0 <=? ms); [|done].
    apply Hsnd in Hd as ->. exact H.
Qed.

Lemma run_Inv evs : forall w w', run evs w = Some w' -> Inv w -> Inv w'.
Proof.
  induction evs as [|ev evs IH]; intros w w' Hrun H; cbn in Hrun.
  - by injection Hrun as <-.
  - destruct (dispatch ev w) as [[c w1]|] eqn:Hd; [|done].
    eapply IH; [exact Hrun|]. eapply dispatch_Inv; eauto.
Qed.

Lemma construct_ws options : ws (construct options) = None.
Proof. destruct options as [[] [] [] [] [] []]; reflexivity. Qed.

Lemma construct_reconnectCount options : reconnectCount (construct options) = 0.
Proof. destruct options as [[] [] [] [] [] []]; reflexivity. Qed.

Lemma construct_reconnectTimerId options : reconnectTimerId (construct options) = None.
Proof. destruct options as [[] [] [] [] [] []]; reflexivity. Qed.

Lemma construct_currentWsServer options :
  currentWsServer (construct options) = wsServer (construct options).
Proof. reflexivity. Qed.

Lemma boot_Inv platform options : Inv (boot platform (construct options)).
Proof.
  split; [|split]; cbn [boot empty_host this host sockets timers next_timer].
  - rewrite construct_ws. split; [done|]. intros s sock Hs. by destruct s.
  - rewrite construct_reconnectTimerId. split; [lia|]. split; [constructor|done].
  - rewrite construct_reconnectCount. apply CountInv_zero.
Qed.

(** The worlds a constructed manager can be in. *)
Definition reachable (w : World) : Prop :=
  exists platform options evs, run evs (boot platform (construct options)) = Some w.

Lemma reachable_Inv w : reachable w -> Inv w.
Proof.
  intros (platform & options & evs & Hrun). eapply run_Inv; [exact Hrun | apply boot_Inv].
Qed.

End Invariants.
Export Invariants.

(** ** How the fields evolve, turn by turn *)

Module Evolution.

(** [o'] differs from [o] at most in the socket handle. *)
Definition same_but_ws (o o' : BconsWS) : Prop :=
  userToken o' = userToken o /\ wsServer o' = wsServer o /\ device o' = device o /\
  errLog o' = errLog o /\ msgLog o' = msgLog o /\ onMessage o' = onMessage o /\
  reconnectCount o' = reconnectCount o /\ reconnectTimerId o' = reconnectTimerId o /\
  currentWsServer o' = currentWsServer o.

(** [connect] writes no field but [ws], and leaves the timers and the
    clock alone. *)
Lemma connect_fields w :
  same_but_ws (this w) (this (snd (connect w))) /\
  timers (host (snd (connect w))) = timers (host w) /\
  next_timer (host (snd (connect w))) = next_timer (host w) /\
  now (host (snd (connect w))) = now (host w).
Proof.
  connect_case; cbn [snd]; unfold same_but_ws; cbn; repeat split; reflexivity.
Qed.

Ltac connect_fields_abstract :=
  match goal with
  | |- context [connect ?W] =>
      let HF := fresh "HF" in
      let c := fresh "c" in
      let w' := fresh "w'" in
      pose proof (connect_fields W) as HF;
      destruct (connect W) as [c w']; cbn [snd] in HF;
      unfold same_but_ws in HF;
      destruct HF as ((? & ? & ? & ? & ? & ? & ? & ? & ?) & ? & ? & ?)
  end.

(** The counter after a turn. *)
Definition next_count (ev : Event) (n : Z) : Z :=
  match ev with
  | SocketOpen _ => 0
  | SocketClose _ e => if wasClean e then n else js_incr n
  | _ => n
  end.

(** The server to dial after a turn. *)
Definition next_server (ev : Event) (o : BconsWS) : jsstring :=
  match ev with
  | SocketClose _ e =>
      if wasClean e then
        if code e =? 302 then reason e else currentWsServer o
      else if (5 <? js_incr (reconnectCount o))
              && negb (JsString.eqb (currentWsServer o) (wsServer o))
           then wsServer o
           else currentWsServer o
  | _ => currentWsServer o
  end.

(** What a turn does to the configuration, the counter and the server. *)
Definition turn_fields (ev : Event) (o o' : BconsWS) : Prop :=
  userToken o' = userToken o /\ wsServer o' = wsServer o /\ device o' = device o /\
  errLog o' = errLog o /\ msgLog o' = msgLog o /\ onMessage o' = onMessage o /\
  reconnectCount o' = next_count ev (reconnectCount o) /\
  currentWsServer o' = next_server ev o.

Ltac solve_fields :=
  repeat (first [inner_case | connect_fields_abstract]; run_m);
  cbn [snd]; run_m; repeat split; congruence.

Lemma dispatch_fields ev w c w' :
  dispatch ev w = Some (c, w') -> turn_fields ev (this w) (this w').
Proof.
  intros Hd.
  assert (Hsnd : forall (r : Completion unit * World), Some r = Some (c, w') -> w' = snd r)
    by (by intros r [= ->]).
  unfold turn_fields.
  destruct ev; cbn [dispatch next_count next_server] in *.
  - apply Hsnd in Hd as ->. solve_fields.
  - apply Hsnd in Hd as ->. run_m. solve_fields.
  - apply Hsnd in Hd as ->. run_m. solve_fields.
  - destruct (state_of s w) as [rs|]; [|done].
    destruct (rs =? CONNECTING); [|done].
    apply Hsnd in Hd as ->. run_m. solve_fields.
  - destruct (state_of s w) as [rs|]; [|done].
    destruct (rs =? CLOSED); [done|].
    apply Hsnd in Hd as ->. run_m. solve_fields.
  - destruct (state_of s w); [|done].
    apply Hsnd in Hd as ->. run_m. solve_fields.
  - destruct (state_of s w) as [rs|]; [|done].
    destruct (rs =? OPEN); [|done].
    apply Hsnd in Hd as ->. run_m. solve_fields.
  - destruct (List.find (pending id) (timers (host w))) as [t|]; [|done].
    destruct (t_due t <=? now (host w)); [|done].
    apply Hsnd in Hd as ->. destruct (t_act t); run_m; solve_fields.
  - destruct (0 <=? ms); [|done].
    apply Hsnd in Hd as ->. repeat split.
Qed.

End Evolution.
Export Evolution.

(** ** Sequences of turns *)

Module Sequences.

Definition is_open (ev : Event) : bool :=
  match ev with SocketOpen _ => true | _ => false end.

(** A close event of an abrupt termination. *)
Definition is_dirty_close (ev : Event) : bool :=
  match ev with SocketClose _ e => negb (wasClean e) | _ => false end.

(** A clean close event that carries the redirect code. *)
Definition is_redirect (ev : Event) : bool :=
  match ev with SocketClose _ e => wasClean e && (code e =? 302) | _ => false end.

Definition dirty_closes (evs : list Event) : nat :=
  length (List.filter is_dirty_close evs).

Definition no_open (evs : list Event) : bool := forallb (fun ev => negb (is_open ev)) evs.

Definition no_redirect (evs : list Event) : bool :=
  forallb (fun ev => negb (is_redirect ev)) evs.

Lemma js_incr_ge n : n <= js_incr n.
Proof. unfold js_incr. destruct (n <? 2 ^ 53); lia. Qed.

(** The counter after [k] increments. *)
Fixpoint count_after (k : nat) (n : Z) : Z :=
  match k with
  | O => n
  | S k' => js_incr (count_after k' n)
  end.

(** Counting from zero, the counter follows the number of increments up
    to 2^53 and stays there. *)
Lemma count_after_zero k : count_after k 0 = Z.min (Z.of_nat k) (2 ^ 53).
Proof.
  induction k as [|k IH]; [reflexivity|].
  cbn [count_after]. rewrite IH. unfold js_incr.
  destruct (Z.min (Z.of_nat k) (2 ^ 53) <? 2 ^ 53) eqn:E;
    [apply Z.ltb_lt in E | apply Z.ltb_ge in E]; lia.
Qed.

Lemma count_after_incr k n : count_after k (js_incr n) = js_incr (count_after k n).
Proof. induction k as [|k IH]; [reflexivity|]. cbn [count_after]. by rewrite IH. Qed.

(** Without an open event, the counter counts the dirty closes. *)
Lemma run_count evs : forall w w',
  run evs w = Some w' -> no_open evs = true ->
  reconnectCount (this w') = count_after (dirty_closes evs) (reconnectCount (this w)).
Proof.
  induction evs as [|ev evs IH]; intros w w' Hrun Hno; cbn in Hrun.
  - by injection Hrun as <-.
  - destruct (dispatch ev w) as [[c w1]|] eqn:Hd; [|done].
    cbn in Hno. apply andb_true_iff in Hno as [Hev Hno].
    rewrite (IH _ _ Hrun Hno).
    apply dispatch_fields in Hd as (_ & _ & _ & _ & _ & _ & -> & _).
    unfold dirty_closes. destruct ev; cbn in *; try done.
    destruct (wasClean e); cbn; [done|]. apply count_after_incr.
Qed.

(** The configured server never changes. *)
Lemma run_wsServer evs : forall w w',
  run evs w = Some w' -> wsServer (this w') = wsServer (this w).
Proof.
  induction evs as [|ev evs IH]; intros w w' Hrun; cbn in Hrun.
  - by injection Hrun as <-.
  - destruct (dispatch ev w) as [[c w1]|] eqn:Hd; [|done].
    rewrite (IH _ _ Hrun).
    by apply dispatch_fields in Hd as (_ & -> & _).
Qed.

Lemma eqb_refl s : JsString.eqb s s = true.
Proof. unfold JsString.eqb. by apply bool_decide_eq_true. Qed.

(** Without a redirect, a manager on its primary server stays on it. *)
Lemma run_primary evs : forall w w',
  run evs w = Some w' -> no_redirect evs = true ->
  currentWsServer (this w) = wsServer (this w) ->
  currentWsServer (this w') = wsServer (this w').
Proof.
  induction evs as [|ev evs IH]; intros w w' Hrun Hno Hcur; cbn in Hrun.
  - by injection Hrun as <-.
  - destruct (dispatch ev w) as [[c w1]|] eqn:Hd; [|done].
    cbn in Hno. apply andb_true_iff in Hno as [Hev Hno].
    apply (IH _ _ Hrun Hno).
    apply dispatch_fields in Hd as (_ & -> & _ & _ & _ & _ & _ & ->).
    destruct ev; cbn in *; try done.
    destruct (wasClean e); cbn in *.
    + by destruct (code e =? 302).
    + rewrite Hcur, eqb_refl, andb_false_r. done.
Qed.

End Sequences.
Export Sequences.

(** ** Construction and the guards of the public methods *)

Module Guards.

(** On an options object the iteration over the keys never throws and is
    the fold of [construct]. *)
Lemma forEach_object options ks o :
  forEach (visit (Object options)) ks o = Normal (fold_left (overwrite options) ks o).
Proof. revert o. induction ks as [|key ks IH]; intros o; [done|]. cbn. apply IH. Qed.

(** C9. Constructing a manager with no options argument throws a
    [TypeError] (so does [null]) instead of yielding the defaults. The
    exception comes from the read of an option key: it is thrown for
    every non-empty list of keys and whatever the fields hold, and for
    these two arguments only. On every options object the constructor
    returns the manager [construct] computes, on the empty object (and
    on a number, a string or a boolean, which have none of the keys) the
    manager of the field initialisers. *)
Theorem constructor_needs_an_object :
  constructor Undefined = Abrupt TypeError /\
  constructor Null = Abrupt TypeError /\
  (forall arg key ks o,
      forEach (visit arg) (key :: ks) o = Abrupt TypeError <->
      arg = Undefined \/ arg = Null) /\
  (forall arg o, forEach (visit arg) [] o = Normal o) /\
  (forall options, constructor (Object options) = Normal (construct options)) /\
  constructor (Object no_options) = Normal defaults /\
  constructor Primitive = Normal defaults.
Proof.
  split; [reflexivity|]. split; [reflexivity|]. split; [|split; [|split; [|split]]].
  - intros arg key ks o. split.
    + destruct arg as [| | |options]; [by left | by right | |].
      * change (visit Primitive) with (visit (Object no_options)).
        by rewrite forEach_object.
      * by rewrite forEach_object.
    + by intros [->| ->].
  - done.
  - intros options. unfold constructor, construct. by rewrite forEach_object.
  - unfold constructor. by rewrite forEach_object.
  - unfold constructor. change (visit Primitive) with (visit (Object no_options)).
    by rewrite forEach_object.
Qed.

(** With a socket that is not open, [send] drops the message silently. *)
Lemma send_not_open_drops message w s sock :
  ws (this w) = Some s -> sockets (host w) !! s = Some sock ->
  readyState sock <> OPEN ->
  send message w = (Normal tt, w).
Proof.
  intros Hws Hs Hrs. run_m. rewrite Hws. run_m. rewrite Hs. run_m.
  apply Z.eqb_neq in Hrs. unfold OPEN in Hrs. rewrite Hrs. cbn [negb].
  by destruct w.
Qed.

(** C6 (the code departs from the specification). Before any [connect], that is
    with [this.ws] still [null], [send] does not return silently: reading
    [this.ws.readyState] throws a [TypeError] to the caller, whatever the
    options and the message. *)
Theorem send_before_connect_throws platform options message :
  dispatch (CallSend message) (boot platform (construct options)) =
  Some (Abrupt TypeError, boot platform (construct options)).
Proof.
  cbn [dispatch]. run_m. cbn [boot this]. rewrite construct_ws. reflexivity.
Qed.

End Guards.

(** ** Worlds to run the development on *)

Module Samples.

(** A platform: it accepts the addresses that begin with ws:// or wss://
    and no other. *)
Definition starts_with (k s : jsstring) : bool :=
  match strip_prefix k s with
  | Some _ => true
  | None => false
  end.

Definition platform (address : jsstring) : bool :=
  starts_with (js "ws://") address || starts_with (js "wss://") address.

(** A sink that accepts everything. *)
Definition quiet_sink : Callback := fun _ => Returns.

(** A sink that throws on everything. *)
Definition failing_sink : Callback := fun _ => Throws (Thrown (js "sink")).

Definition some_options : Options :=
  mkOptions (Some (js "token")) None None (Some quiet_sink) None None.

Definition abrupt : CloseEvent := mkCloseEvent false 1006 [].

(** A manager whose first socket is connecting. *)
Definition dialling : World :=
  default (boot platform defaults) (run [CallConnect] (boot platform (construct some_options))).

(** The world after one more turn. *)
Definition after (ev : Event) (w : World) : World :=
  match dispatch ev w with
  | Some (_, w') => w'
  | None => w
  end.

(** A manager whose first socket is open. *)
Definition connected : World :=
  default (boot platform defaults)
    (run [CallConnect; SocketOpen 0%nat] (boot platform (construct some_options))).

(** A manager whose first connection broke five times in a row; its
    sixth socket is connecting. *)
Definition five_failures : list Event :=
  [CallConnect;
   SocketClose 0%nat abrupt; Elapse 1000; TimerFires 1%nat;
   SocketClose 1%nat abrupt; Elapse 1000; TimerFires 2%nat;
   SocketClose 2%nat abrupt; Elapse 1000; TimerFires 3%nat;
   SocketClose 3%nat abrupt; Elapse 1000; TimerFires 4%nat;
   SocketClose 4%nat abrupt; Elapse 1000; TimerFires 5%nat].

Definition struggling : World :=
  default (boot platform defaults) (run five_failures (boot platform (construct some_options))).

(** A manager the server sent to another address, where the connection
    then broke five times in a row. *)
Definition elsewhere : jsstring := js "wss://other.example/fry".

Definition redirected_then_failing : list Event :=
  [CallConnect; SocketOpen 0%nat;
   SocketClose 0%nat (mkCloseEvent true 302 elsewhere);
   SocketClose 1%nat abrupt; Elapse 1000; TimerFires 1%nat;
   SocketClose 2%nat abrupt; Elapse 1000; TimerFires 2%nat;
   SocketClose 3%nat abrupt; Elapse 1000; TimerFires 3%nat;
   SocketClose 4%nat abrupt; Elapse 1000; TimerFires 4%nat;
   SocketClose 5%nat abrupt; Elapse 1000; TimerFires 5%nat].

Definition astray : World :=
  default (boot platform defaults)
    (run redirected_then_failing (boot platform (construct some_options))).

End Samples.

(** ** Opening a connection *)

Module Connecting.

(** C5. When [connect] is called while the manager holds a socket that
    is connecting, open or closing, the call returns normally and only
    logs: no field of the manager changes, no socket is created, no
    timer is set. Consequently, in every world a constructed manager can
    reach, at most one socket is not closed. *)
Theorem connect_is_guarded :
  (forall w s sock,
      ws (this w) = Some s -> sockets (host w) !! s = Some sock ->
      readyState sock <> CLOSED ->
      exists entries,
        connect w = (Normal tt, add_trace entries w) /\
        forallb is_log entries = true) /\
  (forall w, reachable w ->
      forall s1 s2 sock1 sock2,
        sockets (host w) !! s1 = Some sock1 -> readyState sock1 <> CLOSED ->
        sockets (host w) !! s2 = Some sock2 -> readyState sock2 <> CLOSED ->
        s1 = s2).
Proof.
  split.
  - intros w s sock Hws Hs Hrs.
    destruct (connect_cases w)
      as [(c & entries & Heq & Hlog & Hc & _) | (_ & _ & Hsock & _)].
    + exists entries.
      destruct Hc as [->|[(s' & Hws' & Hs')|(_ & _ & Hfree)]]; [done| |].
      * rewrite Hws in Hws'. injection Hws' as <-. by rewrite Hs in Hs'.
      * destruct Hfree as [Hnone|(s' & sock' & Hws' & Hs' & Hrs')].
        -- by rewrite Hws in Hnone.
        -- rewrite Hws in Hws'. injection Hws' as <-.
           rewrite Hs in Hs'. by injection Hs' as <-.
    + destruct Hsock as [[Hnone|(s' & sock' & Hws' & Hs' & Hrs')] _].
      * by rewrite Hws in Hnone.
      * rewrite Hws in Hws'. injection Hws' as <-.
        rewrite Hs in Hs'. by injection Hs' as <-.
  - intros w Hw s1 s2 sock1 sock2 Hs1 Hl1 Hs2 Hl2.
    apply reachable_Inv in Hw as ((_ & Hlive) & _).
    pose proof (Hlive _ _ Hs1 Hl1) as H1. pose proof (Hlive _ _ Hs2 Hl2) as H2.
    rewrite H1 in H2. by injection H2.
Qed.

Lemma connect_is_guarded_witness :
  (exists entries,
      connect Samples.dialling = (Normal tt, add_trace entries Samples.dialling) /\
      forallb is_log entries = true) /\
  (5 = 5)%nat.
Proof.
  destruct connect_is_guarded as [Hguard Hone]. split.
  - apply (Hguard Samples.dialling 0%nat
             (mkSocket (js "wss://bcons.dev/fry") CONNECTING));
      [reflexivity | reflexivity | discriminate].
  - assert (Hreach : reachable Samples.struggling)
      by (exists Samples.platform, Samples.some_options, Samples.five_failures;
          vm_compute; reflexivity).
    apply (Hone Samples.struggling Hreach 5%nat 5%nat
             (mkSocket (js "wss://bcons.dev/fry") CONNECTING)
             (mkSocket (js "wss://bcons.dev/fry") CONNECTING));
      [vm_compute; reflexivity | discriminate | vm_compute; reflexivity | discriminate].
Defined.

End Connecting.

(** ** Clean closes *)

Module CleanClose.

(** The world in which the close handler calls [connect] after a
    redirect to [target]: the socket [s] closed, the new server stored,
    three lines logged. *)
Definition redirected (s : nat) (target : jsstring) (w : World) : World :=
  let e := mkCloseEvent true 302 target in
  let w1 := say (log_call (msgLog (this w)) [LText "WS connection closed clean"])
              (move_socket s CLOSED w) in
  let w2 := say (log_call (msgLog (this w)) [LClose e]) w1 in
  let w3 := mkWorld (with_currentWsServer target (this w2)) (host w2) in
  say (log_call (msgLog (this w)) [LText "Forwarding to"; LStr target]) w3.

Lemma redirected_fields s target w sock :
  sockets (host w) !! s = Some sock ->
  this (redirected s target w) = with_currentWsServer target (this w) /\
  sockets (host (redirected s target w))
    = <[s := mkSocket (url sock) CLOSED]> (sockets (host w)) /\
  timers (host (redirected s target w)) = timers (host w) /\
  next_timer (host (redirected s target w)) = next_timer (host w) /\
  now (host (redirected s target w)) = now (host w).
Proof.
  intros Hs. unfold redirected, say, move_socket, set_readyState.
  cbn [this host]. rewrite Hs. repeat split.
Qed.

(** C4. On a clean close with code 302 and reason [target], the handler
    stores [target] in [currentWsServer] and calls [connect] at once, in
    the same turn: no timer is set, the clock does not move, and the
    retry counter and the timer handle keep their values. When the
    closed socket was the manager's and neither the token nor [target]
    is empty, that call opens a socket to [target] if the platform
    accepts [target]; if it does not, the [SyntaxError] of the
    constructor escapes the handler and the manager keeps its closed
    socket. *)
Theorem redirect_reconnects_at_once w s sock target :
  sockets (host w) !! s = Some sock -> readyState sock <> CLOSED ->
  exists w',
    dispatch (SocketClose s (mkCloseEvent true 302 target)) w
      = Some (fst (connect (redirected s target w)), w') /\
    w' = snd (connect (redirected s target w)) /\
    currentWsServer (this w') = target /\
    reconnectCount (this w') = reconnectCount (this w) /\
    reconnectTimerId (this w') = reconnectTimerId (this w) /\
    timers (host w') = timers (host w) /\
    next_timer (host w') = next_timer (host w) /\
    now (host w') = now (host w) /\
    (ws (this w) = Some s -> truthy (userToken (this w)) = true ->
     truthy target = true ->
     if accepts (host w) target then
       fst (connect (redirected s target w)) = Normal tt /\
       ws (this w') = Some (length (sockets (host w))) /\
       sockets (host w') =
         <[s := mkSocket (url sock) CLOSED]> (sockets (host w))
         ++ [mkSocket target CONNECTING]
     else
       fst (connect (redirected s target w)) = Abrupt DOMSyntaxError /\
       ws (this w') = Some s /\
       sockets (host w') = <[s := mkSocket (url sock) CLOSED]> (sockets (host w))).
Proof.
  intros Hs Hrs. eexists. split; [|split; [reflexivity|]].
  - cbn [dispatch]. unfold state_of. rewrite Hs. cbn [fmap option_fmap option_map].
    apply Z.eqb_neq in Hrs. rewrite Hrs.
    run_m. change (302 =? 302) with true.
    change ((400 <? 302) && (302 <? 500)) with false. run_m.
    match goal with
    | |- context [connect ?W] => change W with (redirected s target w)
    end.
    destruct (connect (redirected s target w)) as [[[]|ex] w1]; reflexivity.
  - pose proof (connect_fields (redirected s target w))
      as ((_ & _ & _ & _ & _ & _ & Hcount & Htimer & Hserver) & Htimers & Hnext & Hnow).
    destruct (redirected_fields s target w sock Hs) as (Hthis & Hsocks & Ht & Hn & Hc).
    rewrite Hcount, Htimer, Hserver, Htimers, Hnext, Hnow, Ht, Hn, Hc, Hthis.
    repeat (split; [reflexivity|]).
    intros Hws Htoken Htarget.
    assert (Hplatform : accepts (host (redirected s target w)) = accepts (host w)).
    { unfold redirected, say, move_socket, set_readyState. cbn [this host].
      by rewrite Hs. }
    assert (Hfree : exists s' sock',
               ws (this (redirected s target w)) = Some s' /\
               sockets (host (redirected s target w)) !! s' = Some sock' /\
               readyState sock' = CLOSED).
    { exists s, (mkSocket (url sock) CLOSED). rewrite Hthis, Hsocks.
      split; [exact Hws|]. split; [|reflexivity].
      apply list_lookup_insert_eq. by eapply lookup_lt_Some. }
    destruct (accepts (host w) target) eqn:Hok.
    + destruct (connect_cases (redirected s target w))
        as [(c & entries & _ & _ & _ & Hwhy) | (_ & _ & _ & ->)].
      * exfalso. rewrite Hplatform, Hthis, Hsocks in Hwhy.
        cbn [userToken currentWsServer ws with_currentWsServer] in Hwhy.
        rewrite Htoken, Htarget, Hws, Hok in Hwhy.
        destruct Hwhy as [?|[?|[(s' & [= <-] & Hlive)|?]]]; [done|done| |done].
        apply (Hlive (mkSocket (url sock) CLOSED)); [|reflexivity].
        apply list_lookup_insert_eq. by eapply lookup_lt_Some.
      * cbn [fst snd dialled this host ws with_ws sockets]. rewrite Hsocks.
        by rewrite length_insert.
    + rewrite (connect_rejected (redirected s target w)).
      * cbn [fst snd add_trace this host sockets with_trace].
        by rewrite Hthis, Hsocks.
      * by rewrite Hthis.
      * by rewrite Hthis.
      * right. exact Hfree.
      * by rewrite Hplatform, Hthis.
Qed.

(** An address the sample platform does not accept. *)
Definition nowhere : jsstring := js "not a url".

Lemma redirect_reconnects_at_once_witness :
  (exists w',
      dispatch (SocketClose 0%nat (mkCloseEvent true 302 Samples.elsewhere))
        Samples.connected
        = Some (Normal tt, w') /\
      currentWsServer (this w') = Samples.elsewhere /\
      reconnectCount (this w') = reconnectCount (this Samples.connected) /\
      timers (host w') = timers (host Samples.connected) /\
      ws (this w') = Some 1%nat) /\
  (exists w',
      dispatch (SocketClose 0%nat (mkCloseEvent true 302 nowhere)) Samples.connected
        = Some (Abrupt DOMSyntaxError, w') /\
      currentWsServer (this w') = nowhere /\
      timers (host w') = timers (host Samples.connected) /\
      ws (this w') = Some 0%nat).
Proof.
  split.
  - destruct (redirect_reconnects_at_once Samples.connected 0%nat
                (mkSocket (js "wss://bcons.dev/fry") OPEN) Samples.elsewhere)
      as (w' & Hd & _ & Hcur & Hcount & _ & Htimers & _ & _ & Hnew);
      [vm_compute; reflexivity | discriminate |].
    destruct (Hnew eq_refl eq_refl eq_refl) as (Hc & Hws & _).
    rewrite Hc in Hd. exists w'. repeat (split; [assumption|]). exact Hws.
  - destruct (redirect_reconnects_at_once Samples.connected 0%nat
                (mkSocket (js "wss://bcons.dev/fry") OPEN) nowhere)
      as (w' & Hd & _ & Hcur & _ & _ & Htimers & _ & _ & Hnew);
      [vm_compute; reflexivity | discriminate |].
    destruct (Hnew eq_refl eq_refl eq_refl) as (Hc & Hws & _).
    rewrite Hc in Hd. exists w'. repeat (split; [assumption|]). exact Hws.
Defined.

End CleanClose.

(** ** The open and message handlers *)

Module Handlers.

(** C8. Every open event sets the retry counter to 0, whatever it was;
    no other turn of the loop resets it: after any other event the
    counter is at least what it was. *)
Theorem open_resets_counter :
  (forall w s,
      state_of s w = Some CONNECTING ->
      exists c w', dispatch (SocketOpen s) w = Some (c, w') /\
                   reconnectCount (this w') = 0) /\
  (forall ev w c w',
      is_open ev = false -> dispatch ev w = Some (c, w') ->
      reconnectCount (this w) <= reconnectCount (this w')).
Proof.
  split.
  - intros w s Hs. cbn [dispatch]. rewrite Hs. cbn [Z.eqb CONNECTING].
    destruct (onopen (move_socket s OPEN w)) as [c w'] eqn:Hopen.
    exists c, w'. split; [reflexivity|].
    assert (Hd : dispatch (SocketOpen s) w = Some (c, w'))
      by (cbn [dispatch]; rewrite Hs; cbn [Z.eqb CONNECTING]; by rewrite Hopen).
    by apply dispatch_fields in Hd as (_ & _ & _ & _ & _ & _ & -> & _).
  - intros ev w c w' Hev Hd.
    apply dispatch_fields in Hd as (_ & _ & _ & _ & _ & _ & -> & _).
    destruct ev; cbn in *; try discriminate; try lia.
    destruct (wasClean e); [lia | apply js_incr_ge].
Qed.

Lemma open_resets_counter_witness :
  (exists c w', dispatch (SocketOpen 5%nat) Samples.struggling = Some (c, w') /\
                reconnectCount (this w') = 0) /\
  reconnectCount (this Samples.struggling)
    <= reconnectCount
         (this (Samples.after (SocketClose 5%nat Samples.abrupt) Samples.struggling)).
Proof.
  destruct open_resets_counter as [Hopen Hother]. split.
  - apply Hopen. vm_compute. reflexivity.
  - apply (Hother (SocketClose 5%nat Samples.abrupt) Samples.struggling (Normal tt));
      [reflexivity | vm_compute; reflexivity].
Defined.

(** C10. The guard of the message handler covers the call of the sink as
    well as the parse: the handler always completes normally. A frame
    that does not parse is logged through [logErr] and the sink is not
    called; an exception thrown by the sink is logged through [logErr]
    the same way. In every case the manager's fields, the sockets and
    the timers are untouched. *)
Theorem onmessage_never_throws w data :
  onmessage data w =
    (Normal tt,
     match JSON_parse data with
     | None => say (logErr_call (errLog (this w)) [LExn JsonSyntaxError]) w
     | Some v =>
         match onMessage (this w) with
         | None => w
         | Some cb =>
             match cb (PData v) with
             | Returns => say (SinkCalled (PData v)) w
             | Throws e =>
                 say (logErr_call (errLog (this w)) [LExn e])
                   (say (SinkCalled (PData v)) w)
             end
         end
     end) /\
  this (snd (onmessage data w)) = this w /\
  sockets (host (snd (onmessage data w))) = sockets (host w) /\
  timers (host (snd (onmessage data w))) = timers (host w).
Proof.
  run_m. destruct (JSON_parse data) as [v|]; run_m.
  - destruct (onMessage (this w)) as [cb|]; run_m.
    + destruct (cb (PData v)) as [|e]; run_m; repeat split.
    + repeat split.
  - repeat split.
Qed.

(** A sink that throws on every payload: the handler logs the exception
    and completes normally. *)
Example onmessage_failing_sink :
  let w := boot Samples.platform (construct (mkOptions (Some (js "token")) None None
                              (Some Samples.failing_sink) None None)) in
  onmessage (js "[1, 2]") w =
    (Normal tt,
     add_trace
       [SinkCalled (PData (JArray [JNumber (js "1"); JNumber (js "2")]));
        ConsoleError [LExn (Thrown (js "sink"))]] w).
Proof. vm_compute. reflexivity. Qed.

(** A frame that is not JSON: the handler logs the syntax error, the sink
    is not called. *)
Example onmessage_malformed_frame :
  onmessage (js "{oops") Samples.connected =
    (Normal tt, add_trace [ConsoleError [LExn JsonSyntaxError]] Samples.connected).
Proof. vm_compute. reflexivity. Qed.

End Handlers.

(** ** Dirty closes: the retry delay and the return to the primary server *)

Module Backoff.

Definition is_timer_set (e : Effect) : bool :=
  match e with TimerSet _ _ _ => true | _ => false end.

Definition is_created (e : Effect) : bool :=
  match e with Created _ _ => true | _ => false end.

(** The pending timers after
    [if (this.reconnectTimerId) clearTimeout(this.reconnectTimerId)]. *)
Definition after_clear (cur : option nat) (ts : list Timer) : list Timer :=
  match cur with
  | Some id => if Nat.eqb id 0 then ts else List.filter (fun t => negb (pending id t)) ts
  | None => ts
  end.

(** The manager gives up a server other than the configured one. *)
Definition gives_up (o : BconsWS) : bool :=
  (5 <? js_incr (reconnectCount o))
  && negb (JsString.eqb (currentWsServer o) (wsServer o)).

(** The delay of the source, from the incremented counter. *)
Definition retry_of (count : Z) : Z :=
  if 20 <? count then 10000
  else if 10 <? count then 7000
  else if 5 <? count then 5000
  else 1000.

(** What the close handler does on a dirty close, field by field: the
    counter is incremented, the server possibly reset, the previous
    reconnection timer cleared, one timer set and remembered; the socket
    handle, the sockets and the clock are left alone. *)
Lemma dirty_close_effect e w :
  wasClean e = false ->
  let o := this w in
  let id := next_timer (host w) in
  let delay := if gives_up o then 1000 else retry_of (js_incr (reconnectCount o)) in
  exists w' entries,
    onclose e w = (Normal tt, w') /\
    reconnectCount (this w') = js_incr (reconnectCount o) /\
    currentWsServer (this w') = (if gives_up o then wsServer o else currentWsServer o) /\
    wsServer (this w') = wsServer o /\
    reconnectTimerId (this w') = Some id /\
    ws (this w') = ws o /\
    sockets (host w') = sockets (host w) /\
    timers (host w') =
      after_clear (reconnectTimerId o) (timers (host w)) ++
      [mkTimer id (now (host w) + delay) TConnect] /\
    next_timer (host w') = S id /\
    now (host w') = now (host w) /\
    trace (host w') = trace (host w) ++ entries /\
    List.filter is_timer_set entries = [TimerSet id delay TConnect] /\
    List.filter is_created entries = [].
Proof.
  intros Hdirty o id delay. subst o id delay. unfold gives_up, retry_of, after_clear.
  run_m. rewrite Hdirty. run_m.
  set (count := js_incr (reconnectCount (this w))).
  destruct ((5 <? count) && negb (JsString.eqb (currentWsServer (this w)) (wsServer (this w))));
    run_m.
  all: destruct (reconnectTimerId (this w)) as [old|]; run_m.
  all: try (destruct (Nat.eqb old 0); run_m).
  all: eexists _, _; split; [reflexivity|]; cbn [this host trace sockets timers next_timer now
         reconnectCount currentWsServer wsServer reconnectTimerId ws];
       repeat (split; [reflexivity|]).
  all: rewrite <- ?app_assoc; split; [reflexivity|].
  all: cbn [app List.filter is_timer_set is_created];
    destruct (msgLog (this w)); cbn; split; reflexivity.
Qed.


(** The close handler, run by the loop on a dirty close of a socket that
    is not closed yet. *)
Lemma dispatch_dirty_close s sock e w :
  sockets (host w) !! s = Some sock -> readyState sock <> CLOSED ->
  dispatch (SocketClose s e) w = Some (onclose e (move_socket s CLOSED w)).
Proof.
  intros Hs Hrs. cbn [dispatch]. unfold state_of. rewrite Hs.
  cbn [fmap option_fmap option_map]. apply Z.eqb_neq in Hrs. by rewrite Hrs.
Qed.

Lemma move_socket_fields s rs w :
  this (move_socket s rs w) = this w /\
  timers (host (move_socket s rs w)) = timers (host w) /\
  next_timer (host (move_socket s rs w)) = next_timer (host w) /\
  now (host (move_socket s rs w)) = now (host w) /\
  trace (host (move_socket s rs w)) = trace (host w).
Proof.
  unfold move_socket, set_readyState. cbn [this host].
  destruct (sockets (host w) !! s); repeat split.
Qed.

(** The delay schedule, in the words of the specification: 1000 ms up to
    the fifth consecutive dirty close, 5000 ms from the sixth to the
    tenth, 7000 ms from the eleventh to the twentieth, 10000 ms after. *)
Definition schedule (k : Z) : Z :=
  if k <=? 5 then 1000
  else if k <=? 10 then 5000
  else if k <=? 20 then 7000
  else 10000.

Lemma retry_of_schedule k :
  retry_of (count_after (S k) 0) = schedule (Z.of_nat (S k)).
Proof.
  rewrite count_after_zero. unfold retry_of, schedule.
  assert (H53 : 2 ^ 53 = 9007199254740992) by reflexivity.
  repeat match goal with
         | |- context [?a <? ?b] => destruct (Z.ltb_spec a b)
         | |- context [?a <=? ?b] => destruct (Z.leb_spec a b)
         end; try reflexivity; lia.
Qed.

(** C2. Take a world in which the counter is 0 (as after construction
    or after an open event), any sequence of turns from it without an
    open event, and let the next event be the [k]-th dirty close of the
    sequence, [currentWsServer] being the configured server at that
    moment. Then the handler sets exactly one timer, for [connect], with
    the delay of the schedule at [k]: 1000 ms for [k <= 5], 5000 ms for
    [5 < k <= 10], 7000 ms for [10 < k <= 20], 10000 ms beyond; the
    timer is pending, due that long after the close, and remembered in
    [reconnectTimerId]. *)
Theorem dirty_close_delay w0 evs w s sock e :
  reconnectCount (this w0) = 0 ->
  run evs w0 = Some w -> no_open evs = true ->
  sockets (host w) !! s = Some sock -> readyState sock <> CLOSED ->
  wasClean e = false ->
  currentWsServer (this w) = wsServer (this w) ->
  let k := Z.of_nat (S (dirty_closes evs)) in
  let id := next_timer (host w) in
  exists w' entries,
    dispatch (SocketClose s e) w = Some (Normal tt, w') /\
    trace (host w') = trace (host w) ++ entries /\
    List.filter is_timer_set entries = [TimerSet id (schedule k) TConnect] /\
    timers (host w') =
      after_clear (reconnectTimerId (this w)) (timers (host w)) ++
      [mkTimer id (now (host w) + schedule k) TConnect] /\
    reconnectTimerId (this w') = Some id.
Proof.
  intros Hzero Hrun Hno Hs Hrs Hdirty Hprimary k id. subst k id.
  rewrite (dispatch_dirty_close s sock e w Hs Hrs).
  destruct (move_socket_fields s CLOSED w) as (Hthis & Htimers & Hnext & Hnow & Htrace).
  destruct (dirty_close_effect e (move_socket s CLOSED w) Hdirty)
    as (w' & entries & -> & _ & _ & _ & Hid & _ & _ & Hts & _ & _ & Htr & Hset & _).
  rewrite Hthis, Htimers, Hnext, Hnow, Htrace in *.
  assert (Hgive : gives_up (this w) = false).
  { unfold gives_up. by rewrite Hprimary, eqb_refl, andb_false_r. }
  rewrite Hgive in *.
  assert (Hdelay : retry_of (js_incr (reconnectCount (this w)))
                   = schedule (Z.of_nat (S (dirty_closes evs)))).
  { rewrite (run_count _ _ _ Hrun Hno), Hzero. apply retry_of_schedule. }
  rewrite Hdelay in *. exists w', entries. done.
Qed.

Lemma dirty_close_delay_witness :
  exists w' entries,
    dispatch (SocketClose 5%nat Samples.abrupt) Samples.struggling = Some (Normal tt, w') /\
    trace (host w') = trace (host Samples.struggling) ++ entries /\
    List.filter is_timer_set entries = [TimerSet 6%nat 5000 TConnect] /\
    timers (host w') = [mkTimer 6%nat 10000 TConnect] /\
    reconnectTimerId (this w') = Some 6%nat.
Proof.
  apply (dirty_close_delay (boot Samples.platform (construct Samples.some_options))
           Samples.five_failures Samples.struggling 5%nat
           (mkSocket (js "wss://bcons.dev/fry") CONNECTING) Samples.abrupt);
    try (vm_compute; reflexivity); discriminate.
Defined.

(** C3. On a dirty close that takes the counter above 5 while
    [currentWsServer] differs from the configured server, the handler
    resets [currentWsServer] to the configured server and sets its one
    timer with a delay of 1000 ms. From then on, as long as no redirect
    arrives, [currentWsServer] is the configured server. *)
Theorem failover_is_given_up w s sock e :
  sockets (host w) !! s = Some sock -> readyState sock <> CLOSED ->
  wasClean e = false ->
  5 <= reconnectCount (this w) ->
  currentWsServer (this w) <> wsServer (this w) ->
  let id := next_timer (host w) in
  exists w' entries,
    dispatch (SocketClose s e) w = Some (Normal tt, w') /\
    5 < reconnectCount (this w') /\
    currentWsServer (this w') = wsServer (this w) /\
    wsServer (this w') = wsServer (this w) /\
    trace (host w') = trace (host w) ++ entries /\
    List.filter is_timer_set entries = [TimerSet id 1000 TConnect] /\
    timers (host w') =
      after_clear (reconnectTimerId (this w)) (timers (host w)) ++
      [mkTimer id (now (host w) + 1000) TConnect] /\
    (forall evs w2,
        run evs w' = Some w2 -> no_redirect evs = true ->
        currentWsServer (this w2) = wsServer (this w) /\
        wsServer (this w2) = wsServer (this w)).
Proof.
  intros Hs Hrs Hdirty Hcount Hother id. subst id.
  rewrite (dispatch_dirty_close s sock e w Hs Hrs).
  destruct (move_socket_fields s CLOSED w) as (Hthis & Htimers & Hnext & Hnow & Htrace).
  destruct (dirty_close_effect e (move_socket s CLOSED w) Hdirty)
    as (w' & entries & -> & Hc & Hcur & Hprim & _ & _ & _ & Hts & _ & _ & Htr & Hset & _).
  rewrite Hthis, Htimers, Hnext, Hnow, Htrace in *.
  assert (Hincr : 5 < js_incr (reconnectCount (this w))).
  { unfold js_incr. change (2 ^ 53) with 9007199254740992.
    destruct (Z.ltb_spec (reconnectCount (this w)) 9007199254740992); lia. }
  assert (Hgive : gives_up (this w) = true).
  { unfold gives_up. apply andb_true_iff. split; [by apply Z.ltb_lt|].
    apply negb_true_iff. unfold JsString.eqb. by apply bool_decide_eq_false. }
  rewrite Hgive in *. exists w', entries.
  split; [reflexivity|]. split; [by rewrite Hc|].
  repeat (split; [assumption|]).
  intros evs w2 Hrun Hno.
  pose proof (run_wsServer _ _ _ Hrun) as Hsame.
  split; [|by rewrite Hsame].
  rewrite <- Hprim, <- Hsame. apply (run_primary _ _ _ Hrun Hno).
  by rewrite Hcur, Hprim.
Qed.

Lemma failover_is_given_up_witness :
  exists w' entries,
    dispatch (SocketClose 6%nat Samples.abrupt) Samples.astray = Some (Normal tt, w') /\
    5 < reconnectCount (this w') /\
    currentWsServer (this w') = js "wss://bcons.dev/fry" /\
    wsServer (this w') = js "wss://bcons.dev/fry" /\
    trace (host w') = trace (host Samples.astray) ++ entries /\
    List.filter is_timer_set entries = [TimerSet 6%nat 1000 TConnect] /\
    timers (host w') = [mkTimer 6%nat 6000 TConnect] /\
    (forall evs w2,
        run evs w' = Some w2 -> no_redirect evs = true ->
        currentWsServer (this w2) = js "wss://bcons.dev/fry" /\
        wsServer (this w2) = js "wss://bcons.dev/fry").
Proof.
  apply (failover_is_given_up Samples.astray 6%nat
           (mkSocket Samples.elsewhere CONNECTING) Samples.abrupt);
    [vm_compute; reflexivity | discriminate | reflexivity
    | vm_compute; discriminate | vm_compute; discriminate].
Defined.

End Backoff.

(** ** Pending timers across turns *)

Module Timers.

(** The timer [id] is pending as [t], and is not the reconnection timer
    the manager remembers. *)
Definition waiting (id : nat) (t : Timer) (w : World) : Prop :=
  List.find (pending id) (timers (host w)) = Some t /\
  reconnectTimerId (this w) <> Some id /\
  (id < next_timer (host w))%nat.

(** The identifier [id] has been handed out and no timer carries it any
    more. *)
Definition spent (id : nat) (w : World) : Prop :=
  List.find (pending id) (timers (host w)) = None /\
  (id < next_timer (host w))%nat.

Lemma find_app_Some {A} (p : A -> bool) l l' x :
  List.find p l = Some x -> List.find p (l ++ l') = Some x.
Proof.
  induction l as [|a l IH]; cbn; [done|]. by destruct (p a).
Qed.

Lemma find_app_None {A} (p : A -> bool) l l' :
  List.find p l = None -> List.find p (l ++ l') = List.find p l'.
Proof.
  induction l as [|a l IH]; cbn; [done|]. by destruct (p a).
Qed.

Lemma find_filter_other id id' ts :
  id <> id' ->
  List.find (pending id) (List.filter (fun t => negb (pending id' t)) ts)
  = List.find (pending id) ts.
Proof.
  intros Hne. induction ts as [|t ts IH]; cbn [List.filter List.find]; [done|].
  destruct (pending id' t) eqn:E'; cbn [negb List.find].
  - destruct (pending id t) eqn:E; [|exact IH].
    unfold pending in E, E'. apply Nat.eqb_eq in E, E'. congruence.
  - by rewrite IH.
Qed.

Lemma find_filter_same id ts :
  List.find (pending id) (List.filter (fun t => negb (pending id t)) ts) = None.
Proof.
  induction ts as [|t ts IH]; cbn; [done|].
  destruct (pending id t) eqn:E; cbn; [exact IH|]. by rewrite E.
Qed.

Lemma find_filter_None {A} (p q : A -> bool) l :
  List.find p l = None -> List.find p (List.filter q l) = None.
Proof.
  induction l as [|a l IH]; cbn; [done|].
  destruct (p a) eqn:E; [done|]. intros H.
  destruct (q a); cbn; [rewrite E|]; auto.
Qed.

Lemma find_fresh id next due act :
  (id < next)%nat -> List.find (pending id) [mkTimer next due act] = None.
Proof.
  intros Hlt. cbn. unfold pending. cbn.
  destruct (Nat.eqb_spec next id); [lia | done].
Qed.

(** A turn that leaves the timers alone. *)
Definition timers_untouched (w w' : World) : Prop :=
  timers (host w') = timers (host w) /\
  next_timer (host w') = next_timer (host w) /\
  reconnectTimerId (this w') = reconnectTimerId (this w).

Lemma untouched_waiting id t w w' :
  timers_untouched w w' -> waiting id t w -> waiting id t w'.
Proof. intros (Ht & Hn & Hr). unfold waiting. by rewrite Ht, Hn, Hr. Qed.

Lemma untouched_spent id w w' :
  timers_untouched w w' -> spent id w -> spent id w'.
Proof. intros (Ht & Hn & Hr). unfold spent. by rewrite Ht, Hn. Qed.

Lemma untouched_trans w1 w2 w3 :
  timers_untouched w1 w2 -> timers_untouched w2 w3 -> timers_untouched w1 w3.
Proof. unfold timers_untouched. intros (? & ? & ?) (? & ? & ?). repeat split; congruence. Qed.

Lemma connect_untouched w : timers_untouched w (snd (connect w)).
Proof.
  destruct (connect_fields w) as ((_ & _ & _ & _ & _ & _ & _ & Hr & _) & Ht & Hn & _).
  by repeat split.
Qed.

Lemma move_untouched s rs w : timers_untouched w (move_socket s rs w).
Proof.
  unfold timers_untouched, move_socket, set_readyState. cbn [this host].
  by destruct (sockets (host w) !! s).
Qed.

Ltac solve_untouched :=
  unfold timers_untouched; run_m; repeat (inner_case; run_m);
  cbn [snd]; run_m; unfold set_readyState;
  repeat inner_case; repeat split; reflexivity.

Lemma onopen_untouched w : timers_untouched w (snd (onopen w)).
Proof. solve_untouched. Qed.

Lemma onerror_untouched what w : timers_untouched w (snd (onerror what w)).
Proof. solve_untouched. Qed.

Lemma onmessage_untouched data w : timers_untouched w (snd (onmessage data w)).
Proof. solve_untouched. Qed.

Lemma send_untouched message w : timers_untouched w (snd (send message w)).
Proof. solve_untouched. Qed.

Lemma disconnect_untouched w : timers_untouched w (snd (disconnect w)).
Proof. solve_untouched. Qed.

Lemma deliver_untouched c r w : timers_untouched w (snd (run_timer (TDeliver c r) w)).
Proof. solve_untouched. Qed.

Ltac connect_untouched_abstract :=
  match goal with
  | |- context [connect ?W] =>
      let HU := fresh "HU" in
      let c := fresh "c" in
      let w' := fresh "w'" in
      pose proof (connect_untouched W) as HU;
      destruct (connect W) as [c w']; cbn [snd] in HU;
      destruct HU as (? & ? & ?)
  end.

Ltac rewrite_untouched :=
  repeat match goal with
         | H : timers (host ?w') = _ |- context [timers (host ?w')] => rewrite H
         | H : next_timer (host ?w') = _ |- context [next_timer (host ?w')] => rewrite H
         | H : reconnectTimerId (this ?w') = _ |- context [reconnectTimerId (this ?w')] =>
             rewrite H
         end.

Ltac solve_timer_goal :=
  first
    [ assumption
    | lia
    | apply find_app_Some; assumption
    | apply find_app_Some; rewrite find_filter_other by congruence; assumption
    | rewrite find_app_None by assumption; apply find_fresh; lia
    | rewrite find_app_None by (by apply find_filter_None); apply find_fresh; lia
    | by apply find_filter_None
    | let H := fresh in intros H; injection H as H; lia ].

Lemma onclose_waiting e id t w : waiting id t w -> waiting id t (snd (onclose e w)).
Proof.
  intros H. run_m.
  repeat (first [inner_case | connect_untouched_abstract]; run_m); cbn [snd]; run_m.
  all: destruct H as (Hf & Hr & Hn); unfold waiting; run_m; rewrite_untouched; run_m.
  all: repeat split; solve_timer_goal.
Qed.

Lemma onclose_spent e id w : spent id w -> spent id (snd (onclose e w)).
Proof.
  intros H. run_m.
  repeat (first [inner_case | connect_untouched_abstract]; run_m); cbn [snd]; run_m.
  all: destruct H as (Hf & Hn); unfold spent; run_m; rewrite_untouched; run_m.
  all: repeat split; solve_timer_goal.
Qed.

Definition fires (id : nat) (ev : Event) : bool :=
  match ev with TimerFires id' => Nat.eqb id' id | _ => false end.

(** A pending timer other than the reconnection timer stays pending
    through every turn but its own. *)
Lemma dispatch_waiting ev id t w c w' :
  dispatch ev w = Some (c, w') -> fires id ev = false ->
  waiting id t w -> waiting id t w'.
Proof.
  intros Hd Hev H.
  assert (Hsnd : forall (r : Completion unit * World), Some r = Some (c, w') -> w' = snd r)
    by (by intros r [= ->]).
  destruct ev; cbn [dispatch fires] in *.
  - apply Hsnd in Hd as ->. eapply untouched_waiting; [apply connect_untouched | done].
  - apply Hsnd in Hd as ->. eapply untouched_waiting; [apply send_untouched | done].
  - apply Hsnd in Hd as ->. eapply untouched_waiting; [apply disconnect_untouched | done].
  - destruct (state_of s w) as [rs|]; [|done].
    destruct (rs =? CONNECTING); [|done].
    apply Hsnd in Hd as ->.
    eapply untouched_waiting; [apply onopen_untouched|].
    eapply untouched_waiting; [apply move_untouched | done].
  - destruct (state_of s w) as [rs|]; [|done].
    destruct (rs =? CLOSED); [done|].
    apply Hsnd in Hd as ->. apply onclose_waiting.
    eapply untouched_waiting; [apply move_untouched | done].
  - destruct (state_of s w); [|done].
    apply Hsnd in Hd as ->. eapply untouched_waiting; [apply onerror_untouched | done].
  - destruct (state_of s w) as [rs|]; [|done].
    destruct (rs =? OPEN); [|done].
    apply Hsnd in Hd as ->. eapply untouched_waiting; [apply onmessage_untouched | done].
  - destruct (List.find (pending id0) (timers (host w))) as [t0|]; [|done].
    destruct (t_due t0 <=? now (host w)); [|done].
    apply Hsnd in Hd as ->. apply Nat.eqb_neq in Hev.
    assert (Hw : waiting id t
                   (mkWorld (this w)
                      (with_timers
                         (List.filter (fun t' => negb (pending id0 t')) (timers (host w)))
                         (next_timer (host w)) (host w)))).
    { destruct H as (Hf & Hr & Hn). unfold waiting. cbn.
      rewrite find_filter_other by congruence. done. }
    destruct (t_act t0).
    + eapply untouched_waiting; [apply connect_untouched | done].
    + eapply untouched_waiting; [apply deliver_untouched | done].
  - destruct (0 <=? ms); [|done].
    apply Hsnd in Hd as ->. exact H.
Qed.

(** A spent identifier is never pending again. *)
Lemma dispatch_spent ev id w c w' :
  dispatch ev w = Some (c, w') -> spent id w -> spent id w'.
Proof.
  intros Hd H.
  assert (Hsnd : forall (r : Completion unit * World), Some r = Some (c, w') -> w' = snd r)
    by (by intros r [= ->]).
  destruct ev; cbn [dispatch] in *.
  - apply Hsnd in Hd as ->. eapply untouched_spent; [apply connect_untouched | done].
  - apply Hsnd in Hd as ->. eapply untouched_spent; [apply send_untouched | done].
  - apply Hsnd in Hd as ->. eapply untouched_spent; [apply disconnect_untouched | done].
  - destruct (state_of s w) as [rs|]; [|done].
    destruct (rs =? CONNECTING); [|done].
    apply Hsnd in Hd as ->.
    eapply untouched_spent; [apply onopen_untouched|].
    eapply untouched_spent; [apply move_untouched | done].
  - destruct (state_of s w) as [rs|]; [|done].
    destruct (rs =? CLOSED); [done|].
    apply Hsnd in Hd as ->. apply onclose_spent.
    eapply untouched_spent; [apply move_untouched | done].
  - destruct (state_of s w); [|done].
    apply Hsnd in Hd as ->. eapply untouched_spent; [apply onerror_untouched | done].
  - destruct (state_of s w) as [rs|]; [|done].
    destruct (rs =? OPEN); [|done].
    apply Hsnd in Hd as ->. eapply untouched_spent; [apply onmessage_untouched | done].
  - destruct (List.find (pending id0) (timers (host w))) as [t0|]; [|done].
    destruct (t_due t0 <=? now (host w)); [|done].
    apply Hsnd in Hd as ->.
    assert (Hw : spent id
                   (mkWorld (this w)
                      (with_timers
                         (List.filter (fun t' => negb (pending id0 t')) (timers (host w)))
                         (next_timer (host w)) (host w)))).
    { destruct H as (Hf & Hn). unfold spent. cbn. split; [|done].
      by apply find_filter_None. }
    destruct (t_act t0).
    + eapply untouched_spent; [apply connect_untouched | done].
    + eapply untouched_spent; [apply deliver_untouched | done].
  - destruct (0 <=? ms); [|done].
    apply Hsnd in Hd as ->. exact H.
Qed.

Definition never_fires (id : nat) (evs : list Event) : bool :=
  forallb (fun ev => negb (fires id ev)) evs.

Lemma run_waiting evs id t : forall w w',
  run evs w = Some w' -> never_fires id evs = true ->
  waiting id t w -> waiting id t w'.
Proof.
  induction evs as [|ev evs IH]; intros w w' Hrun Hno H; cbn in Hrun.
  - by injection Hrun as <-.
  - destruct (dispatch ev w) as [[c w1]|] eqn:Hd; [|done].
    cbn in Hno. apply andb_true_iff in Hno as [Hev Hno].
    apply negb_true_iff in Hev.
    eapply IH; eauto using dispatch_waiting.
Qed.

Lemma run_spent evs id : forall w w',
  run evs w = Some w' -> spent id w -> spent id w'.
Proof.
  induction evs as [|ev evs IH]; intros w w' Hrun H; cbn in Hrun.
  - by injection Hrun as <-.
  - destruct (dispatch ev w) as [[c w1]|] eqn:Hd; [|done].
    eapply IH; eauto using dispatch_spent.
Qed.

(** The message sink is never replaced. *)
Lemma run_onMessage evs : forall w w',
  run evs w = Some w' -> onMessage (this w') = onMessage (this w).
Proof.
  induction evs as [|ev evs IH]; intros w w' Hrun; cbn in Hrun.
  - by injection Hrun as <-.
  - destruct (dispatch ev w) as [[c w1]|] eqn:Hd; [|done].
    rewrite (IH _ _ Hrun).
    by apply dispatch_fields in Hd as (_ & _ & _ & _ & _ & -> & _).
Qed.

End Timers.
Export Timers.

(** ** Clean closes with a rejection code *)

Module Rejection.

(** How a turn that only calls the sink completes. *)
Definition completion_of (o : Outcome) : Completion unit :=
  match o with
  | Returns => Normal tt
  | Throws e => Abrupt e
  end.

Lemma find_beyond next ts :
  Forall (fun t => (t_id t < next)%nat) ts -> List.find (pending next) ts = None.
Proof.
  induction 1 as [|t ts Ht _ IH]; cbn; [done|].
  unfold pending at 1. destruct (Nat.eqb_spec (t_id t) next); [lia | exact IH].
Qed.

(** The close handler on a clean close with a code between 400 and 500,
    when a sink is registered: two lines logged and one timer set. *)
Lemma rejection_close_effect e w cb :
  wasClean e = true -> 400 < code e < 500 -> onMessage (this w) = Some cb ->
  onclose e w =
    (Normal tt,
     mkWorld (this w)
       (mkHost (sockets (host w))
          (timers (host w) ++
             [mkTimer (next_timer (host w)) (now (host w) + 3000)
                (TDeliver (code e) (reason e))])
          (S (next_timer (host w))) (now (host w))
          (trace (host w) ++
             [log_call (msgLog (this w)) [LText "WS connection closed clean"];
              log_call (msgLog (this w)) [LClose e];
              TimerSet (next_timer (host w)) 3000 (TDeliver (code e) (reason e))])
          (accepts (host w)))).
Proof.
  intros Hclean [Hlo Hhi] Hsink. run_m. rewrite Hclean. run_m.
  assert (H302 : (code e =? 302) = false) by (apply Z.eqb_neq; lia).
  assert (H4xx : (400 <? code e) && (code e <? 500) = true)
    by (apply andb_true_iff; split; by apply Z.ltb_lt).
  rewrite H302. run_m. rewrite H4xx. run_m. rewrite Hsink. run_m.
  rewrite <- !app_assoc. reflexivity.
Qed.

(** C1. In a reachable world with a registered sink, a clean close whose
    code [c] lies strictly between 400 and 500 makes the handler set one
    timer of 3000 ms and nothing else but two log lines: no field of the
    manager changes, no socket is created, no reconnection timer is set,
    the sink is not called yet. That timer stays pending through every
    later turn; it cannot fire before 3000 ms have passed; when it
    fires, the sink is called once with [{errorCode: c, reason}]; and it
    never fires again. *)
Theorem rejection_is_reported_once w s sock c target cb :
  reachable w ->
  sockets (host w) !! s = Some sock -> readyState sock <> CLOSED ->
  400 < c < 500 ->
  onMessage (this w) = Some cb ->
  let id := next_timer (host w) in
  exists w' entries,
    dispatch (SocketClose s (mkCloseEvent true c target)) w = Some (Normal tt, w') /\
    this w' = this w /\
    sockets (host w') = <[s := mkSocket (url sock) CLOSED]> (sockets (host w)) /\
    timers (host w') =
      timers (host w) ++ [mkTimer id (now (host w) + 3000) (TDeliver c target)] /\
    now (host w') = now (host w) /\
    trace (host w') = trace (host w) ++ entries /\
    List.filter (fun e => negb (is_log e)) entries = [TimerSet id 3000 (TDeliver c target)] /\
    (forall evs w2,
        run evs w' = Some w2 -> never_fires id evs = true ->
        (now (host w2) < now (host w) + 3000 -> dispatch (TimerFires id) w2 = None) /\
        (now (host w) + 3000 <= now (host w2) ->
         exists w3,
           dispatch (TimerFires id) w2
             = Some (completion_of (cb (PError c target)), w3) /\
           trace (host w3) = trace (host w2) ++ [SinkCalled (PError c target)] /\
           this w3 = this w2 /\
           sockets (host w3) = sockets (host w2) /\
           (forall evs' w4,
               run evs' w3 = Some w4 -> dispatch (TimerFires id) w4 = None))).
Proof.
  intros Hreach Hs Hrs Hc Hsink id. subst id.
  apply reachable_Inv in Hreach as (_ & (Hpos & Hts & Hcur) & _).
  set (e := mkCloseEvent true c target).
  set (t := mkTimer (next_timer (host w)) (now (host w) + 3000) (TDeliver c target)).
  assert (Hd : dispatch (SocketClose s e) w = Some (onclose e (move_socket s CLOSED w))).
  { cbn [dispatch]. unfold state_of. rewrite Hs. cbn [fmap option_fmap option_map].
    apply Z.eqb_neq in Hrs. by rewrite Hrs. }
  rewrite Hd.
  rewrite (rejection_close_effect e (move_socket s CLOSED w) cb eq_refl Hc Hsink).
  eexists _, _. split; [reflexivity|].
  unfold move_socket, set_readyState. rewrite Hs.
  cbn [this host sockets timers trace next_timer now with_sockets].
  repeat (split; [reflexivity|]).
  split; [cbn; by rewrite !is_log_log_call|].
  intros evs w2 Hrun Hnever.
  match type of Hrun with run _ ?W = _ => set (w' := W) in * end.
  assert (Hwait : waiting (next_timer (host w)) t w').
  { unfold waiting, w'. cbn [this host timers next_timer].
    split; [|split; [|lia]].
    - rewrite find_app_None by (by apply find_beyond).
      cbn. unfold pending. cbn. by rewrite Nat.eqb_refl.
    - intros Heq. apply Hcur in Heq. lia. }
  pose proof (run_waiting _ _ _ _ _ Hrun Hnever Hwait) as (Hfind & _ & Hnext).
  pose proof (run_onMessage _ _ _ Hrun) as Hsink2.
  cbn [dispatch]. rewrite Hfind. cbn [t_due t t_act].
  split.
  - intros Hearly. apply Z.leb_gt in Hearly. by rewrite Hearly.
  - intros Hdue. apply Z.leb_le in Hdue. rewrite Hdue.
    run_m. rewrite Hsink2. unfold w'. cbn [this onMessage]. rewrite Hsink. run_m.
    eexists. split; [destruct (cb (PError c target)); reflexivity|].
    destruct (cb (PError c target)); cbn [snd this host trace sockets];
      (repeat (split; [reflexivity|]));
      intros evs' w4 Hrun';
      (assert (Hspent : spent (next_timer (host w)) w4)
        by (eapply run_spent; [exact Hrun'|];
            split; [apply find_filter_same | exact Hnext]));
      destruct Hspent as (Hgone & _); cbn [dispatch]; by rewrite Hgone.
Qed.

Lemma rejection_is_reported_once_witness :
  exists w',
    dispatch (SocketClose 0%nat (mkCloseEvent true 401 (js "denied"))) Samples.connected
      = Some (Normal tt, w') /\
    this w' = this Samples.connected /\
    timers (host w') = [mkTimer 1%nat 3000 (TDeliver 401 (js "denied"))] /\
    dispatch (TimerFires 1%nat) w' = None /\
    exists w3,
      dispatch (TimerFires 1%nat) (Samples.after (Elapse 3000) w') = Some (Normal tt, w3) /\
      trace (host w3) = trace (host w') ++ [SinkCalled (PError 401 (js "denied"))].
Proof.
  assert (Hreach : reachable Samples.connected)
    by (exists Samples.platform, Samples.some_options, [CallConnect; SocketOpen 0%nat];
        vm_compute; reflexivity).
  destruct (rejection_is_reported_once Samples.connected 0%nat
              (mkSocket (js "wss://bcons.dev/fry") OPEN) 401 (js "denied")
              Samples.quiet_sink Hreach)
    as (w' & entries & Hd & Hthis & _ & Htimers & Hnow & _ & _ & Hlater);
    [vm_compute; reflexivity | discriminate | lia | reflexivity |].
  exists w'. split; [exact Hd|]. split; [exact Hthis|]. split; [exact Htimers|].
  split.
  - apply (Hlater [] w' eq_refl eq_refl). rewrite Hnow. lia.
  - destruct (Hlater [Elapse 3000] (Samples.after (Elapse 3000) w') eq_refl eq_refl)
      as [_ Hfire].
    destruct Hfire as (w3 & Hd3 & Htrace3 & _).
    + cbn [Samples.after dispatch Z.leb Z.compare host now with_now]. rewrite Hnow. lia.
    + exists w3. split; [exact Hd3 | exact Htrace3].
Defined.

End Rejection.

(** ** The parser terminates within its budget *)

Module JsonFacts.

Lemma skip_ws_length s : (length (skip_ws s) <= length s)%nat.
Proof.
  induction s as [|c r IH]; cbn; [lia|]. destruct (is_ws c); cbn; lia.
Qed.

Lemma parse_chars_length s : forall str rest,
  parse_chars s = Some (str, rest) -> (length rest < length s)%nat.
Proof.
  remember (length s) as n eqn:Hn. revert s Hn.
  induction n as [n IH] using lt_wf_ind. intros s -> str rest.
  destruct s as [|c r]; cbn [parse_chars]; [done|].
  destruct (c =? quote)%N; [intros [= <- <-]; cbn; lia|].
  destruct (c =? backslash)%N.
  - destruct r as [|e r1]; [done|].
    destruct (e =? 117)%N.
    + destruct r1 as [|h1 [|h2 [|h3 [|h4 r2]]]]; try done.
      destruct (hex4 h1 h2 h3 h4); [|done].
      destruct (parse_chars r2) as [[str' rest']|] eqn:E; [|done].
      intros [= <- <-]. apply (IH (length r2)) in E; cbn; [lia | lia | done].
    + destruct (unescape e); [|done].
      destruct (parse_chars r1) as [[str' rest']|] eqn:E; [|done].
      intros [= <- <-]. apply (IH (length r1)) in E; cbn; [lia | lia | done].
  - destruct (c <? 32)%N; [done|].
    destruct (parse_chars r) as [[str' rest']|] eqn:E; [|done].
    intros [= <- <-]. apply (IH (length r)) in E; cbn; [lia | lia | done].
Qed.

Lemma take_digits_length s : forall d rest,
  take_digits s = (d, rest) -> (length rest + length d = length s)%nat.
Proof.
  induction s as [|c r IH]; cbn; intros d rest.
  - intros [= <- <-]. reflexivity.
  - destruct (is_digit c).
    + destruct (take_digits r) as [d' rest'] eqn:E. intros [= <- <-].
      specialize (IH _ _ eq_refl). cbn. lia.
    + intros [= <- <-]. cbn. lia.
Qed.

Lemma strip_prefix_length k : forall s rest,
  strip_prefix k s = Some rest -> (length rest + length k = length s)%nat.
Proof.
  induction k as [|a k IH]; intros s rest; cbn.
  - intros [= <-]. lia.
  - destruct s as [|b s]; [done|]. destruct (a =? b)%N; [|done].
    intros H. apply IH in H. cbn. lia.
Qed.

Lemma parse_number_length s lexeme rest :
  parse_number s = Some (lexeme, rest) -> (length rest < length s)%nat.
Proof.
  unfold parse_number.
  set (signed := match s with
                 | c :: r => if (c =? 45)%N then ([c], r) else ([], s)
                 | [] => ([], s)
                 end).
  assert (Hsign : (length (snd signed) <= length s)%nat).
  { subst signed. destruct s as [|c r]; [cbn; lia|]. destruct (c =? 45)%N; cbn; lia. }
  destruct signed as [sign s1]. cbn [snd] in Hsign.
  set (int_part := match s1 with
                   | c :: r =>
                       if (c =? 48)%N then Some ([c], r)
                       else if is_digit c
                            then let '(d, rest) := take_digits r in Some (c :: d, rest)
                            else None
                   | [] => None
                   end).
  assert (Hint : forall ip s2, int_part = Some (ip, s2) -> (length s2 < length s1)%nat).
  { subst int_part. intros ip s2. destruct s1 as [|c r]; [done|].
    destruct (c =? 48)%N; [intros [= <- <-]; cbn; lia|].
    destruct (is_digit c); [|done].
    destruct (take_digits r) as [d rest'] eqn:E. intros [= <- <-].
    apply take_digits_length in E. cbn. lia. }
  destruct int_part as [[ip s2]|]; [|done]. specialize (Hint _ _ eq_refl).
  set (frac := match s2 with
               | c :: r =>
                   if (c =? 46)%N then
                     match take_digits r with
                     | ([], _) => None
                     | (d, rest) => Some (c :: d, rest)
                     end
                   else Some ([], s2)
               | [] => Some ([], s2)
               end).
  assert (Hfrac : forall fp s3, frac = Some (fp, s3) -> (length s3 <= length s2)%nat).
  { subst frac. intros fp s3. destruct s2 as [|c r]; [by intros [= <- <-]|].
    destruct (c =? 46)%N; [|by intros [= <- <-]].
    destruct (take_digits r) as [d rest'] eqn:E.
    apply take_digits_length in E. destruct d; [done|].
    intros [= <- <-]. cbn in *. lia. }
  destruct frac as [[fp s3]|]; [|done]. specialize (Hfrac _ _ eq_refl).
  set (expo := match s3 with
               | c :: r =>
                   if (c =? 101)%N || (c =? 69)%N then
                     let '(sg, r1) :=
                       match r with
                       | x :: r' => if (x =? 43)%N || (x =? 45)%N then ([x], r') else ([], r)
                       | [] => ([], r)
                       end in
                     match take_digits r1 with
                     | ([], _) => None
                     | (d, rest) => Some (c :: sg ++ d, rest)
                     end
                   else Some ([], s3)
               | [] => Some ([], s3)
               end).
  assert (Hexp : forall ep s4, expo = Some (ep, s4) -> (length s4 <= length s3)%nat).
  { subst expo. intros ep s4. destruct s3 as [|c r]; [by intros [= <- <-]|].
    destruct ((c =? 101)%N || (c =? 69)%N); [|by intros [= <- <-]].
    set (sgn := match r with
                | x :: r' => if (x =? 43)%N || (x =? 45)%N then ([x], r') else ([], r)
                | [] => ([], r)
                end).
    assert (Hsg : (length (snd sgn) <= length r)%nat).
    { subst sgn. destruct r as [|x r']; [cbn; lia|].
      destruct ((x =? 43)%N || (x =? 45)%N); cbn; lia. }
    destruct sgn as [sg r1]. cbn [snd] in Hsg.
    destruct (take_digits r1) as [d rest'] eqn:E.
    apply take_digits_length in E. destruct d; [done|].
    intros [= <- <-]. cbn in *. lia. }
  destruct expo as [[ep s4]|]; [|done]. specialize (Hexp _ _ eq_refl).
  intros [= <- <-]. lia.
Qed.

(** A result that is not the exhaustion of the budget and, when it is a
    value, has consumed at least one code unit of [s]. *)
Definition progresses (s : jsstring) (r : parsed json) : Prop :=
  r <> OutOfFuel /\ forall v rest, r = Parsed v rest -> (length rest < length s)%nat.

Lemma progresses_error s : progresses s SyntaxError.
Proof. split; done. Qed.

Lemma progresses_value s v rest :
  (length rest < length s)%nat -> progresses s (Parsed v rest).
Proof. intros H. split; [done|]. by intros v' rest' [= <- <-]. Qed.

Lemma progresses_weaken s s' r :
  (length s' <= length s)%nat -> progresses s' r -> progresses s r.
Proof.
  intros Hle [Hne Hlt]. split; [done|].
  intros v rest Hr. specialize (Hlt _ _ Hr). lia.
Qed.

(** With a budget of twice the length of the input (and one or two
    more), the three mutually recursive parsers never run out of it. *)
Lemma parse_fuel fuel :
  (forall s, (2 * length s + 1 <= fuel)%nat -> progresses s (parse_value fuel s)) /\
  (forall s acc, (2 * length s + 1 <= fuel)%nat ->
                 progresses s (parse_members fuel s acc)) /\
  (forall s acc, (2 * length s + 2 <= fuel)%nat ->
                 progresses s (parse_items fuel s acc)).
Proof.
  induction fuel as [|fuel (IHv & IHm & IHi)].
  { repeat split; intros; lia. }
  split; [|split].
  - intros s Hfuel. cbn [parse_value].
    pose proof (skip_ws_length s) as Hws.
    destruct (skip_ws s) as [|c r]; [apply progresses_error|]. cbn [length] in Hws.
    destruct (c =? quote)%N.
    { destruct (parse_chars r) as [[str rest]|] eqn:E; [|apply progresses_error].
      apply parse_chars_length in E. apply progresses_value. lia. }
    destruct (c =? 123)%N.
    { pose proof (skip_ws_length r) as Hws'.
      destruct (skip_ws r) as [|c' r']; [apply progresses_error|]. cbn [length] in Hws'.
      destruct (c' =? 125)%N; [apply progresses_value; lia|].
      eapply progresses_weaken; [|apply IHm]; cbn [length]; lia. }
    destruct (c =? 91)%N.
    { pose proof (skip_ws_length r) as Hws'.
      destruct (skip_ws r) as [|c' r']; [apply progresses_error|]. cbn [length] in Hws'.
      destruct (c' =? 93)%N; [apply progresses_value; lia|].
      eapply progresses_weaken; [|apply IHi]; cbn [length]; lia. }
    destruct (strip_prefix (js "true") (c :: r)) as [rest|] eqn:Et.
    { apply strip_prefix_length in Et. cbn [length js] in Et.
      apply progresses_value. cbn in Et. lia. }
    destruct (strip_prefix (js "false") (c :: r)) as [rest|] eqn:Ef.
    { apply strip_prefix_length in Ef. apply progresses_value. cbn in Ef. lia. }
    destruct (strip_prefix (js "null") (c :: r)) as [rest|] eqn:En.
    { apply strip_prefix_length in En. apply progresses_value. cbn in En. lia. }
    destruct (parse_number (c :: r)) as [[lexeme rest]|] eqn:Enum;
      [|apply progresses_error].
    apply parse_number_length in Enum. cbn [length] in Enum.
    apply progresses_value. lia.
  - intros s acc Hfuel. cbn [parse_members].
    destruct s as [|c r]; [apply progresses_error|]. cbn [length] in Hfuel.
    destruct (c =? quote)%N; [|apply progresses_error].
    destruct (parse_chars r) as [[k r1]|] eqn:E; [|apply progresses_error].
    apply parse_chars_length in E.
    pose proof (skip_ws_length r1) as Hws.
    destruct (skip_ws r1) as [|c1 r2]; [apply progresses_error|]. cbn [length] in Hws.
    destruct (c1 =? 58)%N; [|apply progresses_error].
    destruct (IHv r2 ltac:(lia)) as [Hne Hlt].
    destruct (parse_value fuel r2) as [v r3| |]; [|apply progresses_error|done].
    specialize (Hlt _ _ eq_refl).
    pose proof (skip_ws_length r3) as Hws3.
    destruct (skip_ws r3) as [|c3 r4]; [apply progresses_error|]. cbn [length] in Hws3.
    destruct (c3 =? 44)%N.
    { pose proof (skip_ws_length r4) as Hws4.
      eapply progresses_weaken; [|apply IHm]; cbn [length]; lia. }
    destruct (c3 =? 125)%N; [|apply progresses_error].
    apply progresses_value. cbn [length]. lia.
  - intros s acc Hfuel. cbn [parse_items].
    destruct (IHv s ltac:(lia)) as [Hne Hlt].
    destruct (parse_value fuel s) as [v r1| |]; [|apply progresses_error|done].
    specialize (Hlt _ _ eq_refl).
    pose proof (skip_ws_length r1) as Hws.
    destruct (skip_ws r1) as [|c r2]; [apply progresses_error|]. cbn [length] in Hws.
    destruct (c =? 44)%N.
    { eapply progresses_weaken; [|apply IHi]; lia. }
    destruct (c =? 93)%N; [|apply progresses_error].
    apply progresses_value. lia.
Qed.

(** [JSON_parse] never fails for lack of budget: when it returns
    [None], the text is not one JSON value. *)
Lemma parse_value_fuel text :
  parse_value (2 * length text + 2) text <> OutOfFuel.
Proof.
  destruct (parse_fuel (2 * length text + 2)) as (Hv & _ & _).
  apply (Hv text). lia.
Qed.

End JsonFacts.

(** ** The authentication frame *)

Module AuthFrame.

(** A code unit that stands for itself inside a JSON string literal. *)
Definition plain (c : N) : bool :=
  (32 <=? c)%N && negb (c =? quote)%N && negb (c =? backslash)%N.

Lemma parse_chars_plain t rest :
  forallb plain t = true -> parse_chars (t ++ quote :: rest) = Some (t, rest).
Proof.
  induction t as [|c t IH]; cbn [forallb app]; intros H.
  - cbn [parse_chars]. by rewrite N.eqb_refl.
  - apply andb_true_iff in H as [Hc Ht]. unfold plain in Hc.
    apply andb_true_iff in Hc as [Hc Hb]. apply andb_true_iff in Hc as [Hc Hq].
    apply negb_true_iff in Hq, Hb. apply N.leb_le in Hc.
    cbn [parse_chars]. rewrite Hq, Hb.
    destruct (N.ltb_spec c 32); [lia|]. by rewrite (IH Ht).
Qed.

(** The object the server is meant to read. *)
Definition auth_object (token dev : jsstring) : json :=
  JObject [(js "e", JString (js "auth"));
           (js "userToken", JString token);
           (js "device", JString dev)].

(** When neither the token nor the device contains a quotation mark, a
    reverse solidus or a control character, the frame is the JSON text
    of the three-member object. *)
Lemma auth_frame_plain token dev :
  forallb plain token = true -> forallb plain dev = true ->
  JSON_parse (auth_frame token dev) = Some (auth_object token dev).
Proof.
  intros Htoken Hdev. unfold JSON_parse.
  assert (Hfuel : (5 <= 2 * length (auth_frame token dev) + 2)%nat).
  { unfold auth_frame. cbn. lia. }
  destruct (2 * length (auth_frame token dev) + 2)%nat as [|[|[|[|[|fuel]]]]]; try lia.
  clear Hfuel.
  unfold auth_frame, auth_object.
  repeat match goal with
         | |- context [js ?lit] =>
             let v := eval vm_compute in (js lit) in change (js lit) with v
         end.
  cbn [app]. unfold quote. cbn.
  rewrite (parse_chars_plain token _ Htoken). cbn.
  rewrite (parse_chars_plain dev _ Hdev). cbn.
  reflexivity.
Qed.

(** In a reachable world, an open event makes the manager log one line
    and transmit one frame, on the socket that opened: the template of
    the source filled with the token and the device. *)
Lemma open_transmits_auth_frame w s :
  reachable w -> state_of s w = Some CONNECTING ->
  exists w',
    dispatch (SocketOpen s) w = Some (Normal tt, w') /\
    trace (host w') =
      trace (host w) ++
      [log_call (msgLog (this w)) [LText "[ws] Connection established"];
       Transmit s (auth_frame (userToken (this w)) (device (this w)))].
Proof.
  intros Hreach Hs.
  apply reachable_Inv in Hreach as ((_ & Hlive) & _).
  unfold state_of in Hs.
  destruct (sockets (host w) !! s) as [sock|] eqn:Hsock; [|done].
  injection Hs as Hrs.
  assert (Hws : ws (this w) = Some s).
  { apply (Hlive s sock Hsock). rewrite Hrs. discriminate. }
  cbn [dispatch]. unfold state_of. rewrite Hsock. cbn [fmap option_fmap option_map].
  rewrite Hrs. cbn [Z.eqb CONNECTING].
  run_m. rewrite Hws. run_m. unfold set_readyState. rewrite Hsock.
  cbn [with_sockets sockets].
  rewrite list_lookup_insert_eq by (by eapply lookup_lt_Some). run_m.
  cbn [readyState]. change (OPEN =? CONNECTING) with false.
  change (OPEN =? OPEN) with true. run_m.
  eexists. split; [reflexivity|]. cbn [host trace].
  by rewrite <- app_assoc.
Qed.

(** A token with a quotation mark in it: a, quotation mark, b. *)
Definition quoted_token : jsstring := [97%N; quote; 98%N].

(** A device label with quotation marks in it: my, space, and pc between
    quotation marks. *)
Definition quoted_device : jsstring := js "my " ++ quote :: js "pc" ++ [quote].

(** A token that closes its own string literal and adds a member. *)
Definition forged_token : jsstring :=
  js "x" ++ quote :: js "," ++ quote :: js "userToken" ++ quote :: js ":" ++ quote :: js "y".

Definition options_with_token (token : jsstring) : Options :=
  mkOptions (Some token) None None None None None.

(** C7 (the code departs from the specification). The token and the device are
    pasted into the frame as they are. With the token [quoted_token], or
    with the device [quoted_device], the frame the manager transmits on
    open is not a JSON text at all; with [forged_token], it is the JSON
    text of an object whose [userToken] member is not the configured
    token. *)
Theorem auth_frame_is_not_escaped :
  (exists w earlier,
      run [CallConnect; SocketOpen 0%nat]
        (boot Samples.platform (construct (options_with_token quoted_token)))
        = Some w /\
      trace (host w)
        = earlier ++ [Transmit 0%nat (auth_frame quoted_token (js "custom"))]) /\
  parse_value (2 * length (auth_frame quoted_token (js "custom")) + 2)
    (auth_frame quoted_token (js "custom")) = SyntaxError /\
  JSON_parse (auth_frame quoted_token (js "custom")) = None /\
  JSON_parse (auth_frame (js "token") quoted_device) = None /\
  JSON_parse (auth_frame forged_token (js "custom"))
    = Some (auth_object (js "y") (js "custom")) /\
  forged_token <> js "y".
Proof.
  split; [|split; [|split; [|split; [|split]]]].
  - eexists _, [_; _; _; _]. split; vm_compute; reflexivity.
  - vm_compute. reflexivity.
  - vm_compute. reflexivity.
  - vm_compute. reflexivity.
  - vm_compute. reflexivity.
  - discriminate.
Qed.

End AuthFrame.


(** ** The preconditions and the effect of [connect] *)

Module Dialling.

(** The manager has never opened a socket and has no timer pending. *)
Definition untouched_host (w : World) : Prop :=
  sockets (host w) = [] /\ ws (this w) = None /\ timers (host w) = [].

(** A manager that refuses to connect: its token or its server is empty. *)
Definition unconfigured (w : World) : Prop :=
  userToken (this w) = [] \/ currentWsServer (this w) = [].

Lemma connect_unconfigured w :
  unconfigured w ->
  exists line, connect w = (Normal tt, say (logErr_call (errLog (this w)) [LText line]) w).
Proof.
  intros Hun. unfold connect. run_m.
  destruct (userToken (this w)) as [|c token] eqn:Htoken; cbn [truthy negb].
  - eexists. run_m. reflexivity.
  - destruct Hun as [Hun|Hun]; [congruence|]. rewrite Hun. cbn [truthy negb].
    eexists. run_m. reflexivity.
Qed.

(** Without a socket and without a timer, only the public methods and the
    clock can take a turn, and an unconfigured manager stays as it is. *)
Lemma dispatch_unconfigured ev w c w' :
  dispatch ev w = Some (c, w') ->
  unconfigured w /\ untouched_host w -> unconfigured w' /\ untouched_host w'.
Proof.
  intros Hd (Hun & Hsocks & Hws & Htimers).
  assert (Hsnd : forall (r : Completion unit * World), Some r = Some (c, w') -> w' = snd r)
    by (by intros r [= ->]).
  unfold unconfigured, untouched_host in *.
  destruct ev; cbn [dispatch] in Hd; unfold state_of in Hd;
    try (rewrite Hsocks in Hd; cbn in Hd; discriminate Hd).
  - destruct (connect_unconfigured w Hun) as [line Heq]. rewrite Heq in Hd.
    apply Hsnd in Hd as ->. done.
  - apply Hsnd in Hd as ->. run_m. rewrite Hws. done.
  - apply Hsnd in Hd as ->. run_m. rewrite Hws. done.
  - rewrite Htimers in Hd. discriminate Hd.
  - destruct (0 <=? ms); [|done]. apply Hsnd in Hd as ->. done.
Qed.

Lemma run_unconfigured evs : forall w w',
  run evs w = Some w' ->
  unconfigured w /\ untouched_host w -> unconfigured w' /\ untouched_host w'.
Proof.
  induction evs as [|ev evs IH]; intros w w' Hrun H; cbn in Hrun.
  - by injection Hrun as <-.
  - destruct (dispatch ev w) as [[c w1]|] eqn:Hd; [|done].
    eapply IH; eauto using dispatch_unconfigured.
Qed.

Lemma boot_untouched platform o : ws o = None -> untouched_host (boot platform o).
Proof. intros Hws. by repeat split. Qed.

(** X1. With an empty token, [connect] writes one line through [logErr]
    and does nothing else, in whatever state; and a manager constructed
    without a token never opens a socket nor sets a timer, whatever is
    called on it. *)
Theorem connect_requires_token :
  (forall w,
      userToken (this w) = [] ->
      connect w =
        (Normal tt,
         say (logErr_call (errLog (this w))
                [LText "User token required for BconsWS init"]) w)) /\
  (forall platform options evs w,
      userToken (construct options) = [] ->
      run evs (boot platform (construct options)) = Some w ->
      sockets (host w) = [] /\ ws (this w) = None /\ timers (host w) = []).
Proof.
  split.
  - intros w Htoken. unfold connect. run_m. rewrite Htoken. cbn [truthy negb].
    run_m. reflexivity.
  - intros platform options evs w Htoken Hrun.
    eapply (run_unconfigured evs (boot platform (construct options)) w Hrun).
    split; [by left|]. apply boot_untouched, construct_ws.
Qed.

Lemma connect_requires_token_witness :
  connect (boot Samples.platform defaults) =
    (Normal tt,
     say (ConsoleError [LText "User token required for BconsWS init"])
       (boot Samples.platform defaults)) /\
  (let w := Samples.after CallConnect (boot Samples.platform (construct no_options)) in
   sockets (host w) = [] /\ ws (this w) = None /\ timers (host w) = []).
Proof.
  destruct connect_requires_token as [Hcall Hnever]. split.
  - apply (Hcall (boot Samples.platform defaults)). reflexivity.
  - apply (Hnever Samples.platform no_options [CallConnect]); vm_compute; reflexivity.
Defined.

(** X2. With an empty server address, [connect] writes one line through
    [logErr] and does nothing else; and a manager constructed with an
    empty [wsServer] never opens a socket nor sets a timer. *)
Theorem connect_requires_server :
  (forall w,
      userToken (this w) <> [] -> currentWsServer (this w) = [] ->
      connect w =
        (Normal tt,
         say (logErr_call (errLog (this w))
                [LText "No Fry server provided, aborting."]) w)) /\
  (forall platform options evs w,
      wsServer (construct options) = [] ->
      run evs (boot platform (construct options)) = Some w ->
      sockets (host w) = [] /\ ws (this w) = None /\ timers (host w) = []).
Proof.
  split.
  - intros w Htoken Hserver. unfold connect. run_m.
    destruct (userToken (this w)); [done|]. rewrite Hserver. cbn [truthy negb].
    run_m. reflexivity.
  - intros platform options evs w Hserver Hrun.
    eapply (run_unconfigured evs (boot platform (construct options)) w Hrun).
    split; [right; cbn [boot this]; by rewrite construct_currentWsServer|].
    apply boot_untouched, construct_ws.
Qed.

Definition token_without_server : Options :=
  mkOptions (Some (js "token")) (Some []) None None None None.

Lemma connect_requires_server_witness :
  connect (boot Samples.platform (construct token_without_server)) =
    (Normal tt,
     say (ConsoleError [LText "No Fry server provided, aborting."])
       (boot Samples.platform (construct token_without_server))) /\
  (let w :=
     Samples.after CallConnect (boot Samples.platform (construct token_without_server)) in
   sockets (host w) = [] /\ ws (this w) = None /\ timers (host w) = []).
Proof.
  destruct connect_requires_server as [Hcall Hnever]. split.
  - apply (Hcall (boot Samples.platform (construct token_without_server)));
      [discriminate | reflexivity].
  - apply (Hnever Samples.platform token_without_server [CallConnect]); vm_compute; reflexivity.
Defined.

(** The fields, the timers and the clock of two worlds agree. *)
Definition same_but_sockets_and_trace (w w' : World) : Prop :=
  same_but_ws (this w) (this w') /\
  timers (host w') = timers (host w) /\
  next_timer (host w') = next_timer (host w) /\
  now (host w') = now (host w).

(** X3. With a token and a server, and no socket or a closed one,
    [connect] logs two lines and calls the constructor on
    [currentWsServer]. On an address the platform accepts it opens
    exactly one socket, to that address, in the connecting phase, and
    stores its handle; it sets no timer and writes no other field. On an
    address the platform does not accept, the [SyntaxError] of the
    constructor escapes [connect], which leaves the two lines and nothing
    else: no socket, and [ws] as it was. *)
Theorem connect_dials w :
  userToken (this w) <> [] -> currentWsServer (this w) <> [] ->
  (ws (this w) = None \/
   exists s sock, ws (this w) = Some s /\ sockets (host w) !! s = Some sock /\
                  readyState sock = CLOSED) ->
  if accepts (host w) (currentWsServer (this w)) then
    exists w',
      connect w = (Normal tt, w') /\
      sockets (host w') =
        sockets (host w) ++ [mkSocket (currentWsServer (this w)) CONNECTING] /\
      ws (this w') = Some (length (sockets (host w))) /\
      same_but_sockets_and_trace w w' /\
      trace (host w') =
        trace (host w) ++
        [log_call (msgLog (this w)) [LText "Connecting to Fry"];
         log_call (msgLog (this w)) [LText "WS creation"; LStr (currentWsServer (this w))];
         Created (length (sockets (host w))) (currentWsServer (this w))]
  else
    connect w =
      (Abrupt DOMSyntaxError,
       add_trace
         [log_call (msgLog (this w)) [LText "Connecting to Fry"];
          log_call (msgLog (this w)) [LText "WS creation"; LStr (currentWsServer (this w))]]
         w).
Proof.
  intros Htoken Hserver Hsock.
  assert (Htok : truthy (userToken (this w)) = true)
    by (by destruct (userToken (this w))).
  assert (Hsrv : truthy (currentWsServer (this w)) = true)
    by (by destruct (currentWsServer (this w))).
  destruct (accepts (host w) (currentWsServer (this w))) eqn:Hok.
  - destruct (connect_cases w)
      as [(c & entries & _ & _ & _ & Hwhy) | (_ & _ & _ & Heq)].
    + exfalso. destruct Hwhy as [Hw|[Hw|[(s & Hws & Hlive)|Hw]]]; [congruence..| |congruence].
      destruct Hsock as [Hnone|(s' & sock & Hws' & Hs & Hrs)]; [congruence|].
      rewrite Hws in Hws'. injection Hws' as <-. by apply (Hlive sock Hs).
    + exists (dialled w). split; [exact Heq|]. repeat split.
  - by apply connect_rejected.
Qed.

(** A manager whose server address the sample platform does not accept. *)
Definition options_with_bad_server : Options :=
  mkOptions (Some (js "token")) (Some (js "not a url")) None None None None.

Lemma connect_dials_witness :
  (exists w',
      connect (boot Samples.platform (construct Samples.some_options)) = (Normal tt, w') /\
      sockets (host w') = [mkSocket (js "wss://bcons.dev/fry") CONNECTING] /\
      ws (this w') = Some 0%nat) /\
  connect (boot Samples.platform (construct options_with_bad_server)) =
    (Abrupt DOMSyntaxError,
     add_trace
       [ConsoleLog [LText "Connecting to Fry"];
        ConsoleLog [LText "WS creation"; LStr (js "not a url")]]
       (boot Samples.platform (construct options_with_bad_server))).
Proof.
  split.
  - destruct (connect_dials (boot Samples.platform (construct Samples.some_options))
                ltac:(discriminate) ltac:(discriminate) (or_introl eq_refl))
      as (w' & Heq & Hsocks & Hws & _).
    exists w'. repeat split; assumption.
  - apply (connect_dials (boot Samples.platform (construct options_with_bad_server)));
      [discriminate | discriminate | by left].
Defined.


End Dialling.

(** ** Sending *)

Module Sending.

(** The frame [send] hands to the socket. *)
Definition frame_of (message : Message) : jsstring :=
  match message with
  | MString str => str
  | MValue v => JSON_stringify v
  end.

(** On an open socket, [send] transmits one frame and does nothing else. *)
Lemma send_open message w s sock :
  ws (this w) = Some s -> sockets (host w) !! s = Some sock -> readyState sock = OPEN ->
  send message w = (Normal tt, say (Transmit s (frame_of message)) w).
Proof.
  intros Hws Hs Hrs. run_m. rewrite Hws. run_m. rewrite Hs. run_m.
  rewrite Hrs. change (OPEN =? 1) with true. cbn [negb]. run_m.
  rewrite Hs. run_m. rewrite Hrs.
  change (OPEN =? CONNECTING) with false. change (OPEN =? OPEN) with true.
  by destruct message.
Qed.

(** The manager has created a socket. *)
Definition has_socket (w : World) : Prop := is_Some (ws (this w)).

Lemma connect_has_socket w : has_socket w -> has_socket (snd (connect w)).
Proof.
  intros H. destruct (connect_cases w) as [(c & entries & -> & _)|(_ & _ & _ & ->)].
  - exact H.
  - cbn. by eexists.
Qed.

Ltac connect_has_socket_abstract H :=
  match goal with
  | |- context [connect ?W] =>
      let HI := fresh "HI" in
      let c := fresh "c" in
      let w' := fresh "w'" in
      assert (HI : has_socket (snd (connect W))) by (apply connect_has_socket; exact H);
      clear H; destruct (connect W) as [c w']; cbn [snd] in HI; rename HI into H
  end.

Ltac keep_socket H :=
  run_m; repeat (first [inner_case | connect_has_socket_abstract H]; run_m);
  cbn [snd]; exact H.

Lemma onclose_has_socket e w : has_socket w -> has_socket (snd (onclose e w)).
Proof. intros H. keep_socket H. Qed.

Lemma run_timer_has_socket act w : has_socket w -> has_socket (snd (run_timer act w)).
Proof.
  intros H. destruct act as [|rc rr]; [by apply connect_has_socket|]. keep_socket H.
Qed.

(** No turn of the loop forgets the socket: [ws] is assigned in [connect]
    only, and never [null] again. *)
Lemma dispatch_has_socket ev w c w' :
  dispatch ev w = Some (c, w') -> has_socket w -> has_socket w'.
Proof.
  intros Hd H.
  assert (Hsnd : forall (r : Completion unit * World), Some r = Some (c, w') -> w' = snd r)
    by (by intros r [= ->]).
  destruct ev as [|m| |s|s e|s what|s data|id|ms]; cbn [dispatch] in Hd.
  - apply Hsnd in Hd as ->. by apply connect_has_socket.
  - apply Hsnd in Hd as ->. keep_socket H.
  - apply Hsnd in Hd as ->. keep_socket H.
  - destruct (state_of s w) as [rs|]; [|done].
    destruct (rs =? CONNECTING); [|done].
    apply Hsnd in Hd as ->. keep_socket H.
  - destruct (state_of s w) as [rs|]; [|done].
    destruct (rs =? CLOSED); [done|].
    apply Hsnd in Hd as ->. by apply onclose_has_socket.
  - destruct (state_of s w); [|done].
    apply Hsnd in Hd as ->. keep_socket H.
  - destruct (state_of s w) as [rs|]; [|done].
    destruct (rs =? OPEN); [|done].
    apply Hsnd in Hd as ->. keep_socket H.
  - destruct (List.find (pending id) (timers (host w))) as [t|]; [|done].
    destruct (t_due t <=? now (host w)); [|done].
    apply Hsnd in Hd as ->. by apply run_timer_has_socket.
  - destruct (0 <=? ms); [|done].
    apply Hsnd in Hd as ->. exact H.
Qed.

Lemma run_has_socket evs w w' : run evs w = Some w' -> has_socket w -> has_socket w'.
Proof.
  revert w. induction evs as [|ev evs IH]; intros w Hrun H; cbn [run] in Hrun.
  - by injection Hrun as <-.
  - destruct (dispatch ev w) as [[c w1]|] eqn:Hd; [|done].
    eapply IH; [exact Hrun|]. eapply dispatch_has_socket; eauto.
Qed.

(** X5. Once [connect] has created a socket, [send] never throws, whatever
    happened since: the handle is never reset, and [send] returns normally,
    transmitting exactly one frame (a string as it is, any other value as
    its JSON text) if the current socket is open and doing nothing at all,
    not even logging, if it is not. *)
Theorem send_after_connect message evs w w' :
  reachable w -> has_socket w -> run evs w = Some w' ->
  exists s,
    ws (this w') = Some s /\
    send message w' =
      (Normal tt,
       if bool_decide (state_of s w' = Some OPEN)
       then say (Transmit s (frame_of message)) w'
       else w').
Proof.
  intros Hreach Hhas Hrun.
  pose proof (run_Inv _ _ _ Hrun (reachable_Inv _ Hreach)) as ((Hcur & _) & _).
  destruct (run_has_socket _ _ _ Hrun Hhas) as [s Hs].
  exists s. split; [done|].
  destruct (Hcur s Hs) as [sock Hsock].
  unfold state_of. rewrite Hsock. cbn [fmap option_fmap option_map].
  case_bool_decide as Hopen.
  - injection Hopen as Hopen. by eapply send_open.
  - eapply Guards.send_not_open_drops; [done..|]. congruence.
Qed.

Lemma send_after_connect_witness :
  exists s,
    ws (this Samples.connected) = Some s /\
    send (MValue (JObject [(js "e", JString (js "ping"))])) Samples.connected =
      (Normal tt,
       if bool_decide (state_of s Samples.connected = Some OPEN)
       then say (Transmit s (frame_of (MValue (JObject [(js "e", JString (js "ping"))]))))
              Samples.connected
       else Samples.connected).
Proof.
  apply (send_after_connect (MValue (JObject [(js "e", JString (js "ping"))]))
           [SocketOpen 0%nat] Samples.dialling Samples.connected).
  - exists Samples.platform, Samples.some_options, [CallConnect]. vm_compute. reflexivity.
  - exists 0%nat. vm_compute. reflexivity.
  - vm_compute. reflexivity.
Defined.

End Sending.


(** ** Disconnecting *)

Module Disconnecting.

Definition closing_line (w : World) : Effect :=
  log_call (msgLog (this w)) [LText "Closing WS"].

(** X6. [disconnect] logs one line; then, on a socket that is connecting
    or open, it asks the socket to close, which takes the socket to the
    closing phase; without a socket, or on a socket that is closing or
    closed, it does nothing more. It writes no field of the manager and
    leaves the timers alone. *)
Theorem disconnect_effect :
  (forall w, ws (this w) = None -> disconnect w = (Normal tt, say (closing_line w) w)) /\
  (forall w s sock,
      ws (this w) = Some s -> sockets (host w) !! s = Some sock ->
      readyState sock = CLOSING \/ readyState sock = CLOSED ->
      disconnect w = (Normal tt, say (closing_line w) w)) /\
  (forall w s sock,
      ws (this w) = Some s -> sockets (host w) !! s = Some sock ->
      readyState sock = CONNECTING \/ readyState sock = OPEN ->
      exists w',
        disconnect w = (Normal tt, w') /\
        this w' = this w /\
        sockets (host w') = <[s := mkSocket (url sock) CLOSING]> (sockets (host w)) /\
        timers (host w') = timers (host w) /\
        next_timer (host w') = next_timer (host w) /\
        now (host w') = now (host w) /\
        trace (host w') = trace (host w) ++ [closing_line w; CloseRequested s]).
Proof.
  unfold closing_line. split; [|split].
  - intros w Hws. run_m. rewrite Hws. reflexivity.
  - intros w s sock Hws Hs Hrs. run_m. rewrite Hws. run_m. rewrite Hs. run_m.
    destruct Hrs as [-> | ->]; reflexivity.
  - intros w s sock Hws Hs Hrs. run_m. rewrite Hws. run_m. rewrite Hs. run_m.
    eexists. split.
    + destruct Hrs as [-> | ->]; reflexivity.
    + unfold set_readyState, say. cbn [this host sockets with_trace]. rewrite Hs.
      cbn [this host sockets timers next_timer now trace with_sockets with_trace].
      repeat split. by rewrite <- app_assoc.
Qed.

Lemma disconnect_effect_witness :
  disconnect (boot Samples.platform defaults)
    = (Normal tt, say (ConsoleLog [LText "Closing WS"]) (boot Samples.platform defaults)) /\
  disconnect (Samples.after (SocketClose 0%nat Samples.abrupt) Samples.connected)
    = (Normal tt,
       say (ConsoleLog [LText "Closing WS"])
         (Samples.after (SocketClose 0%nat Samples.abrupt) Samples.connected)) /\
  exists w',
    disconnect Samples.connected = (Normal tt, w') /\
    this w' = this Samples.connected /\
    sockets (host w') = [mkSocket (js "wss://bcons.dev/fry") CLOSING].
Proof.
  destruct disconnect_effect as (Hnone & Hdone & Hlive). split; [|split].
  - apply (Hnone (boot Samples.platform defaults)). reflexivity.
  - apply (Hdone (Samples.after (SocketClose 0%nat Samples.abrupt) Samples.connected)
             0%nat (mkSocket (js "wss://bcons.dev/fry") CLOSED));
      [reflexivity | reflexivity | by right].
  - destruct (Hlive Samples.connected 0%nat (mkSocket (js "wss://bcons.dev/fry") OPEN))
      as (w' & Heq & Hthis & Hsocks & _); [reflexivity | reflexivity | by right |].
    exists w'. repeat split; assumption.
Defined.

(** X7. After [disconnect] on a socket that is connecting or open, and
    until the close event of that socket arrives, [connect] is refused:
    it only logs. *)
Theorem connect_after_disconnect w s sock :
  ws (this w) = Some s -> sockets (host w) !! s = Some sock ->
  readyState sock = CONNECTING \/ readyState sock = OPEN ->
  exists entries,
    connect (snd (disconnect w)) = (Normal tt, add_trace entries (snd (disconnect w))) /\
    forallb is_log entries = true.
Proof.
  intros Hws Hs Hrs.
  assert (Hd : exists w',
             disconnect w = (Normal tt, w') /\ ws (this w') = Some s /\
             sockets (host w') !! s = Some (mkSocket (url sock) CLOSING)).
  { run_m. rewrite Hws. run_m. rewrite Hs. run_m.
    eexists. split; [destruct Hrs as [-> | ->]; reflexivity|].
    unfold set_readyState, say. cbn [this host sockets with_trace]. rewrite Hs.
    cbn [this host sockets with_sockets with_trace]. split; [done|].
    apply list_lookup_insert_eq. by eapply lookup_lt_Some. }
  destruct Hd as (w' & -> & Hws' & Hs'). cbn [snd].
  destruct (connect_cases w')
    as [(c & entries & Heq & Hlog & Hc & _) | (_ & _ & Hsock & _)].
  - exists entries.
    destruct Hc as [->|[(s' & Hws'' & Hnone)|(_ & _ & Hfree)]]; [done|congruence|].
    exfalso. destruct Hfree as [Hnone|(s' & sock' & Hws'' & Hs'' & Hrs')]; [congruence|].
    rewrite Hws' in Hws''. injection Hws'' as <-. rewrite Hs' in Hs''.
    injection Hs'' as <-. discriminate Hrs'.
  - exfalso.
    destruct Hsock as [[Hnone|(s' & sock' & Hws'' & Hs'' & Hrs')] _]; [congruence|].
    rewrite Hws' in Hws''. injection Hws'' as <-. rewrite Hs' in Hs''.
    injection Hs'' as <-. discriminate Hrs'.
Qed.

Lemma connect_after_disconnect_witness :
  exists entries,
    connect (snd (disconnect Samples.connected))
      = (Normal tt, add_trace entries (snd (disconnect Samples.connected))) /\
    forallb is_log entries = true.
Proof.
  apply (connect_after_disconnect Samples.connected 0%nat
           (mkSocket (js "wss://bcons.dev/fry") OPEN));
    [reflexivity | reflexivity | by right].
Defined.

End Disconnecting.


(** ** Closes that need no decision *)

Module Closing.

(** The two lines the close handler logs on every clean close. *)
Definition clean_lines (e : CloseEvent) (w : World) : list Effect :=
  [log_call (msgLog (this w)) [LText "WS connection closed clean"];
   log_call (msgLog (this w)) [LClose e]].

Lemma dispatch_close s sock e w :
  sockets (host w) !! s = Some sock -> readyState sock <> CLOSED ->
  dispatch (SocketClose s e) w = Some (onclose e (move_socket s CLOSED w)).
Proof.
  intros Hs Hrs. cbn [dispatch]. unfold state_of. rewrite Hs.
  cbn [fmap option_fmap option_map]. apply Z.eqb_neq in Hrs. by rewrite Hrs.
Qed.

Lemma move_socket_this s rs w : this (move_socket s rs w) = this w.
Proof. reflexivity. Qed.

(** X8. A clean close whose code is neither 302 nor strictly between 400
    and 500 (the bounds 400 and 500 included) ends the connection for
    good: the handler logs its two lines and does nothing else. No socket
    is created, no timer is set, the sink is not called, no field
    changes. *)
Theorem clean_close_is_final s sock e w :
  sockets (host w) !! s = Some sock -> readyState sock <> CLOSED ->
  wasClean e = true -> code e <> 302 -> code e <= 400 \/ 500 <= code e ->
  dispatch (SocketClose s e) w
  = Some (Normal tt, add_trace (clean_lines e w) (move_socket s CLOSED w)).
Proof.
  intros Hs Hrs Hclean H302 Hrange. rewrite (dispatch_close s sock e w Hs Hrs).
  f_equal. run_m. rewrite Hclean. run_m.
  apply Z.eqb_neq in H302. rewrite H302. run_m.
  assert (H4xx : (400 <? code e) && (code e <? 500) = false).
  { apply andb_false_iff. destruct Hrange; [left; apply Z.ltb_ge | right; apply Z.ltb_ge]; lia. }
  rewrite H4xx. run_m. norm_trace. reflexivity.
Qed.

Lemma clean_close_is_final_witness :
  dispatch (SocketClose 0%nat (mkCloseEvent true 400 (js "bye"))) Samples.connected
  = Some (Normal tt,
          add_trace (clean_lines (mkCloseEvent true 400 (js "bye")) Samples.connected)
            (move_socket 0%nat CLOSED Samples.connected)).
Proof.
  apply (clean_close_is_final 0%nat (mkSocket (js "wss://bcons.dev/fry") OPEN)
           (mkCloseEvent true 400 (js "bye")) Samples.connected);
    [reflexivity | discriminate | reflexivity | discriminate | left; cbn; lia].
Defined.

(** X9. Without a registered sink, a clean close with a code strictly
    between 400 and 500 is not reported to anyone: the handler logs its
    two lines and sets no timer. *)
Theorem rejection_without_sink s sock e w :
  sockets (host w) !! s = Some sock -> readyState sock <> CLOSED ->
  wasClean e = true -> 400 < code e < 500 -> onMessage (this w) = None ->
  dispatch (SocketClose s e) w
  = Some (Normal tt, add_trace (clean_lines e w) (move_socket s CLOSED w)).
Proof.
  intros Hs Hrs Hclean [Hlo Hhi] Hsink. rewrite (dispatch_close s sock e w Hs Hrs).
  f_equal. run_m. rewrite Hclean. run_m.
  assert (H302 : (code e =? 302) = false) by (apply Z.eqb_neq; lia).
  assert (H4xx : (400 <? code e) && (code e <? 500) = true)
    by (apply andb_true_iff; split; by apply Z.ltb_lt).
  rewrite H302. run_m. rewrite H4xx. run_m. rewrite Hsink. run_m.
  norm_trace. reflexivity.
Qed.

Definition options_without_sink : Options :=
  mkOptions (Some (js "token")) None None None None None.

Definition connected_without_sink : World :=
  default (boot Samples.platform defaults)
    (run [CallConnect; SocketOpen 0%nat] (boot Samples.platform (construct options_without_sink))).

Lemma rejection_without_sink_witness :
  dispatch (SocketClose 0%nat (mkCloseEvent true 401 (js "denied"))) connected_without_sink
  = Some (Normal tt,
          add_trace (clean_lines (mkCloseEvent true 401 (js "denied")) connected_without_sink)
            (move_socket 0%nat CLOSED connected_without_sink)).
Proof.
  apply (rejection_without_sink 0%nat (mkSocket (js "wss://bcons.dev/fry") OPEN)
           (mkCloseEvent true 401 (js "denied")) connected_without_sink);
    [reflexivity | discriminate | reflexivity | cbn; lia | reflexivity].
Defined.

(** X10. The manager never gives up on a dirty close, and never retries
    faster than once a second: whatever the counter, the server and the
    timers are, the handler increments the counter, sets one timer for
    [connect] due 1000, 5000, 7000 or 10000 ms later, remembers it, and
    creates no socket itself. *)
Theorem dirty_close_always_retries s sock e w :
  sockets (host w) !! s = Some sock -> readyState sock <> CLOSED ->
  wasClean e = false ->
  exists w' delay,
    dispatch (SocketClose s e) w = Some (Normal tt, w') /\
    In delay [1000; 5000; 7000; 10000] /\
    In (mkTimer (next_timer (host w)) (now (host w) + delay) TConnect) (timers (host w')) /\
    reconnectTimerId (this w') = Some (next_timer (host w)) /\
    reconnectCount (this w') = js_incr (reconnectCount (this w)) /\
    ws (this w') = ws (this w) /\
    sockets (host w') = <[s := mkSocket (url sock) CLOSED]> (sockets (host w)).
Proof.
  intros Hs Hrs Hdirty. rewrite (dispatch_close s sock e w Hs Hrs).
  destruct (Backoff.move_socket_fields s CLOSED w)
    as (Hthis & Htimers & Hnext & Hnow & Htrace).
  destruct (Backoff.dirty_close_effect e (move_socket s CLOSED w) Hdirty)
    as (w' & entries & -> & Hc & _ & _ & Hid & Hws & Hsocks & Hts & _).
  rewrite Hthis, Htimers, Hnext, Hnow in *.
  exists w', (if Backoff.gives_up (this w) then 1000
              else Backoff.retry_of (js_incr (reconnectCount (this w)))).
  split; [reflexivity|]. split; [|split; [|repeat split]].
  - unfold Backoff.retry_of.
    destruct (Backoff.gives_up (this w)); [cbn; tauto|].
    repeat case_match; cbn; tauto.
  - rewrite Hts. apply in_or_app. right. by left.
  - exact Hid.
  - exact Hc.
  - exact Hws.
  - rewrite Hsocks. unfold move_socket, set_readyState. cbn [host]. by rewrite Hs.
Qed.

Lemma dirty_close_always_retries_witness :
  exists w' delay,
    dispatch (SocketClose 5%nat Samples.abrupt) Samples.struggling = Some (Normal tt, w') /\
    In delay [1000; 5000; 7000; 10000] /\
    In (mkTimer 6%nat (5000 + delay) TConnect) (timers (host w')) /\
    reconnectTimerId (this w') = Some 6%nat /\
    reconnectCount (this w') = 6.
Proof.
  destruct (dirty_close_always_retries 5%nat
              (mkSocket (js "wss://bcons.dev/fry") CONNECTING) Samples.abrupt
              Samples.struggling)
    as (w' & delay & Hd & Hin & Ht & Hid & Hc & _);
    [vm_compute; reflexivity | discriminate | reflexivity |].
  exists w', delay. repeat split; assumption.
Defined.

End Closing.


(** ** The addresses the manager dials *)

Module Addresses.

(** No method and no handler changes what the platform accepts. *)
Lemma connect_platform w : accepts (host (snd (connect w))) = accepts (host w).
Proof. connect_case; reflexivity. Qed.

Ltac connect_platform_abstract :=
  match goal with
  | |- context [connect ?W] =>
      let HP := fresh "HP" in
      let c := fresh "c" in
      let w' := fresh "w'" in
      pose proof (connect_platform W) as HP;
      destruct (connect W) as [c w']; cbn [snd] in HP; run_m
  end.

Ltac solve_platform :=
  run_m; repeat (first [inner_case | connect_platform_abstract]; run_m);
  cbn [snd]; run_m; unfold set_readyState; repeat inner_case;
  first [reflexivity | assumption].

Lemma move_platform s rs w : accepts (host (move_socket s rs w)) = accepts (host w).
Proof. unfold move_socket, set_readyState. cbn [host]. by destruct (sockets (host w) !! s). Qed.

Lemma dispatch_platform ev w c w' :
  dispatch ev w = Some (c, w') -> accepts (host w') = accepts (host w).
Proof.
  intros Hd.
  assert (Hsnd : forall (r : Completion unit * World), Some r = Some (c, w') -> w' = snd r)
    by (by intros r [= ->]).
  destruct ev as [|m| |s|s e|s what|s data|id|ms]; cbn [dispatch] in Hd.
  - apply Hsnd in Hd as ->. apply connect_platform.
  - apply Hsnd in Hd as ->. solve_platform.
  - apply Hsnd in Hd as ->. solve_platform.
  - destruct (state_of s w) as [rs|]; [|done].
    destruct (rs =? CONNECTING); [|done].
    apply Hsnd in Hd as ->. rewrite <- (move_platform s OPEN w).
    generalize (move_socket s OPEN w). intros w1. solve_platform.
  - destruct (state_of s w) as [rs|]; [|done].
    destruct (rs =? CLOSED); [done|].
    apply Hsnd in Hd as ->. rewrite <- (move_platform s CLOSED w).
    generalize (move_socket s CLOSED w). intros w1. solve_platform.
  - destruct (state_of s w); [|done].
    apply Hsnd in Hd as ->. solve_platform.
  - destruct (state_of s w) as [rs|]; [|done].
    destruct (rs =? OPEN); [|done].
    apply Hsnd in Hd as ->. solve_platform.
  - destruct (List.find (pending id) (timers (host w))) as [t|]; [|done].
    destruct (t_due t <=? now (host w)); [|done].
    apply Hsnd in Hd as ->. destruct (t_act t) as [|rc rr]; cbn [run_timer].
    + by rewrite connect_platform.
    + solve_platform.
  - destruct (0 <=? ms); [|done].
    apply Hsnd in Hd as ->. reflexivity.
Qed.

(** The address the manager dials next is one the platform accepts
    whenever a socket is not closed; the configured server is one as
    soon as there is a socket; and before the first socket the manager's
    server is the configured one. [cur] and [primary] are
    [currentWsServer] and [wsServer]. *)
Definition Addr (cur primary : jsstring) (socks : list Socket) (ok : jsstring -> bool)
  : Prop :=
  (socks = [] -> cur = primary) /\
  (socks <> [] -> ok primary = true) /\
  (forall s sock, socks !! s = Some sock -> readyState sock <> CLOSED -> ok cur = true).

Definition AddrInv (w : World) : Prop :=
  Addr (currentWsServer (this w)) (wsServer (this w)) (sockets (host w)) (accepts (host w)).

Lemma Addr_dial cur primary socks ok :
  ok cur = true -> Addr cur primary socks ok ->
  Addr cur primary (socks ++ [mkSocket cur CONNECTING]) ok.
Proof.
  intros Hok (Hfirst & Hprimary & _). split; [|split].
  - by destruct socks.
  - intros _. destruct socks as [|sock socks]; [|by apply Hprimary].
    by rewrite <- Hfirst.
  - done.
Qed.

Lemma Addr_move cur primary socks ok s sock rs :
  socks !! s = Some sock -> rs = CLOSED \/ readyState sock <> CLOSED ->
  Addr cur primary socks ok ->
  Addr cur primary (<[s := mkSocket (url sock) rs]> socks) ok.
Proof.
  intros Hs Hrs (Hfirst & Hprimary & Hlive). split; [|split].
  - intros Hnil. apply (f_equal length) in Hnil. rewrite length_insert in Hnil.
    apply lookup_lt_Some in Hs. cbn in Hnil. lia.
  - intros _. apply Hprimary. intros ->. done.
  - intros s' sock' Hs' Hlive'. destruct (decide (s = s')) as [<-|Hne].
    + rewrite list_lookup_insert_eq in Hs' by (by eapply lookup_lt_Some).
      injection Hs' as <-. cbn in Hlive'.
      destruct Hrs as [->|Hrs]; [done|]. by eapply Hlive.
    + rewrite list_lookup_insert_ne in Hs' by done. by eapply Hlive.
Qed.

(** With sockets that are all closed, the manager may turn to any
    address. *)
Lemma Addr_quiet cur cur' primary socks ok :
  socks <> [] ->
  (forall s sock, socks !! s = Some sock -> readyState sock = CLOSED) ->
  Addr cur primary socks ok -> Addr cur' primary socks ok.
Proof.
  intros Hsome Hquiet (_ & Hprimary & _). split; [done|]. split; [done|].
  intros s sock Hs Hlive. by rewrite (Hquiet s sock Hs) in Hlive.
Qed.

Lemma connect_AddrInv w : AddrInv w -> AddrInv (snd (connect w)).
Proof.
  intros H. connect_case; cbn [snd]; [exact H|].
  unfold AddrInv. cbn [dialled this host sockets accepts currentWsServer wsServer with_ws].
  by apply Addr_dial.
Qed.

Lemma move_AddrInv s rs w :
  (rs = CLOSED \/
   exists sock, sockets (host w) !! s = Some sock /\ readyState sock <> CLOSED) ->
  AddrInv w -> AddrInv (move_socket s rs w).
Proof.
  intros Hrs H. unfold AddrInv, move_socket, set_readyState. cbn [this host].
  destruct (sockets (host w) !! s) as [sock|] eqn:Hs; [|exact H].
  cbn [sockets accepts with_sockets]. apply Addr_move; [done| |exact H].
  destruct Hrs as [->|(sock' & [= <-] & Hlive)]; [by left | by right].
Qed.

(** The close handler, once its socket is closed and every other socket
    with it. *)
Lemma onclose_AddrInv e w :
  sockets (host w) <> [] ->
  (forall s sock, sockets (host w) !! s = Some sock -> readyState sock = CLOSED) ->
  AddrInv w -> AddrInv (snd (onclose e w)).
Proof.
  intros Hsome Hquiet H.
  assert (Hany : forall cur,
             Addr cur (wsServer (this w)) (sockets (host w)) (accepts (host w)))
    by (intros cur; by eapply Addr_quiet).
  run_m.
  repeat (first
            [ inner_case
            | match goal with
              | |- context [connect ?W] =>
                  let HI := fresh "HI" in
                  let c := fresh "c" in
                  let w' := fresh "w'" in
                  assert (HI : AddrInv (snd (connect W)))
                    by (apply connect_AddrInv; apply Hany);
                  destruct (connect W) as [c w']; cbn [snd] in HI
              end ];
          run_m);
    cbn [snd]; first [assumption | apply Hany].
Qed.

(** One turn of the loop keeps the addresses in order. *)
Lemma dispatch_AddrInv ev w c w' :
  dispatch ev w = Some (c, w') -> Inv w -> AddrInv w -> AddrInv w'.
Proof.
  intros Hd HI H.
  assert (Hsnd : forall (r : Completion unit * World), Some r = Some (c, w') -> w' = snd r)
    by (by intros r [= ->]).
  destruct ev as [|m| |s|s e|s what|s data|id|ms]; cbn [dispatch] in Hd.
  - apply Hsnd in Hd as ->. by apply connect_AddrInv.
  - apply Hsnd in Hd as ->. run_m. repeat (inner_case; run_m); cbn [snd]; exact H.
  - apply Hsnd in Hd as ->. run_m. repeat (inner_case; run_m); cbn [snd]; try exact H.
    match goal with
    | Hs : sockets (host w) !! ?s = Some ?sock, Hb : _ || _ = false |- _ =>
        apply orb_false_iff in Hb as [_ Hb]; apply Z.eqb_neq in Hb;
        pose proof (move_AddrInv s CLOSING w
                      (or_intror (ex_intro _ sock (conj Hs Hb))) H) as H';
        unfold AddrInv, move_socket, set_readyState in *;
        cbn [this host sockets accepts with_trace] in *; rewrite Hs in *
    end.
    exact H'.
  - unfold state_of in Hd.
    destruct (sockets (host w) !! s) as [sock|] eqn:Hs; cbn in Hd; [|done].
    destruct (readyState sock =? CONNECTING) eqn:Hrs; [|done].
    apply Hsnd in Hd as ->.
    assert (H1 : AddrInv (move_socket s OPEN w)).
    { apply move_AddrInv; [|done]. right. exists sock. split; [done|].
      apply Z.eqb_eq in Hrs. rewrite Hrs. done. }
    revert H1. generalize (move_socket s OPEN w). intros w1 H1.
    run_m. repeat (inner_case; run_m); cbn [snd]; exact H1.
  - unfold state_of in Hd.
    destruct (sockets (host w) !! s) as [sock|] eqn:Hs; cbn in Hd; [|done].
    destruct (readyState sock =? CLOSED) eqn:Hrs; [done|].
    apply Hsnd in Hd as ->. apply Z.eqb_neq in Hrs.
    destruct HI as ((_ & Hlive) & _).
    pose proof (Hlive s sock Hs Hrs) as Hws.
    apply onclose_AddrInv.
    + unfold move_socket, set_readyState. cbn [host]. rewrite Hs. cbn [sockets with_sockets].
      intros Hnil. apply (f_equal length) in Hnil. rewrite length_insert in Hnil.
      apply lookup_lt_Some in Hs. cbn in Hnil. lia.
    + unfold move_socket, set_readyState. cbn [host]. rewrite Hs. cbn [sockets with_sockets].
      intros s' sock' Hs'. destruct (decide (s = s')) as [<-|Hne].
      * rewrite list_lookup_insert_eq in Hs' by (by eapply lookup_lt_Some).
        by injection Hs' as <-.
      * rewrite list_lookup_insert_ne in Hs' by done.
        destruct (decide (readyState sock' = CLOSED)) as [|Hopen]; [done|].
        pose proof (Hlive s' sock' Hs' Hopen) as Hws'. congruence.
    + apply move_AddrInv; [by left | done].
  - destruct (state_of s w); [|done].
    apply Hsnd in Hd as ->. run_m. exact H.
  - destruct (state_of s w) as [rs|]; [|done].
    destruct (rs =? OPEN); [|done].
    apply Hsnd in Hd as ->. run_m. repeat (inner_case; run_m); cbn [snd]; exact H.
  - destruct (List.find (pending id) (timers (host w))) as [t|]; [|done].
    destruct (t_due t <=? now (host w)); [|done].
    apply Hsnd in Hd as ->. destruct (t_act t) as [|rc rr]; cbn [run_timer].
    + by apply connect_AddrInv.
    + run_m. repeat (inner_case; run_m); cbn [snd]; exact H.
  - destruct (0 <=? ms); [|done].
    apply Hsnd in Hd as ->. exact H.
Qed.

Lemma run_AddrInv evs : forall w w',
  run evs w = Some w' -> Inv w -> AddrInv w -> AddrInv w'.
Proof.
  induction evs as [|ev evs IH]; intros w w' Hrun HI H; cbn [run] in Hrun.
  - by injection Hrun as <-.
  - destruct (dispatch ev w) as [[c w1]|] eqn:Hd; [|done].
    eapply IH; [exact Hrun | eapply dispatch_Inv; eauto | eapply dispatch_AddrInv; eauto].
Qed.

Lemma reachable_AddrInv w : reachable w -> AddrInv w.
Proof.
  intros (platform & options & evs & Hrun).
  eapply run_AddrInv; [exact Hrun | apply boot_Inv |].
  split; [|split]; cbn [boot empty_host this host sockets]; [|done|by intros s sock].
  intros _. apply construct_currentWsServer.
Qed.

End Addresses.

(** ** The reconnection cycle *)

Module Reconnection.

(** What the cycle needs from the world a dirty close leaves. *)
Record armed (s : nat) (id : nat) (w1 : World) : Prop := mkArmed {
  armed_ws : ws (this w1) = Some s;
  armed_closed : exists sock, sockets (host w1) !! s = Some sock /\ readyState sock = CLOSED;
  armed_timer : exists t,
    List.find (pending id) (timers (host w1)) = Some t /\ t_act t = TConnect /\
    t_due t <= now (host w1) + 10000;
  armed_token : userToken (this w1) <> [];
  armed_server : currentWsServer (this w1) <> [];
  armed_accepted : accepts (host w1) (currentWsServer (this w1)) = true
}.

Lemma find_after_clear cur ts next :
  Forall (fun t => (t_id t < next)%nat) ts ->
  List.find (pending next) (Backoff.after_clear cur ts) = None.
Proof.
  intros Hts. unfold Backoff.after_clear.
  destruct cur as [id|]; [destruct (Nat.eqb id 0)|];
    try (by apply Rejection.find_beyond).
  apply find_filter_None. by apply Rejection.find_beyond.
Qed.

(** A dirty close of the manager's socket, in a reachable world with a
    token and servers, arms the reconnection. *)
Lemma dirty_close_arms w s sock e :
  reachable w ->
  sockets (host w) !! s = Some sock -> readyState sock <> CLOSED ->
  wasClean e = false ->
  userToken (this w) <> [] -> wsServer (this w) <> [] -> currentWsServer (this w) <> [] ->
  exists w1,
    dispatch (SocketClose s e) w = Some (Normal tt, w1) /\
    armed s (next_timer (host w)) w1 /\
    sockets (host w1) = <[s := mkSocket (url sock) CLOSED]> (sockets (host w)) /\
    reconnectCount (this w1) = js_incr (reconnectCount (this w)) /\
    now (host w1) = now (host w).
Proof.
  intros Hreach Hs Hrs Hdirty Htoken Hprimary Hserver.
  pose proof (Addresses.reachable_AddrInv w Hreach) as (_ & Hok_primary & Hok_current).
  apply reachable_Inv in Hreach as ((_ & Hlive) & (_ & Hts & _) & _).
  pose proof (Hlive s sock Hs Hrs) as Hws.
  specialize (Hok_current s sock Hs Hrs).
  assert (Hok : accepts (host w) (wsServer (this w)) = true)
    by (apply Hok_primary; intros Hnil; by rewrite Hnil in Hs).
  clear Hok_primary.
  destruct (Backoff.move_socket_fields s CLOSED w)
    as (Hthis & Htimers & Hnext & Hnow & Htrace).
  destruct (Backoff.dirty_close_effect e (move_socket s CLOSED w) Hdirty)
    as (w1 & entries & Heq & Hc & Hcur & _ & Hid & Hws1 & Hsocks & Htimers1 & _ & Hnow1 & _).
  assert (Hd : dispatch (SocketClose s e) w = Some (Normal tt, w1))
    by (rewrite (Backoff.dispatch_dirty_close s sock e w Hs Hrs); by rewrite Heq).
  pose proof (dispatch_fields _ _ _ _ Hd) as (Htok1 & _).
  pose proof (Addresses.dispatch_platform _ _ _ _ Hd) as Hplatform.
  rewrite Hthis, Htimers, Hnext, Hnow in *.
  assert (Hsocks1 : sockets (host w1) = <[s := mkSocket (url sock) CLOSED]> (sockets (host w))).
  { rewrite Hsocks. unfold move_socket, set_readyState. cbn [host]. by rewrite Hs. }
  exists w1. split; [exact Hd|]. split; [|by repeat split].
  split.
  - by rewrite Hws1.
  - exists (mkSocket (url sock) CLOSED). split; [|reflexivity].
    rewrite Hsocks1. apply list_lookup_insert_eq. by eapply lookup_lt_Some.
  - eexists. split; [|split].
    + rewrite Htimers1, find_app_None by (by apply find_after_clear).
      cbn [List.find]. unfold pending. cbn [t_id]. by rewrite Nat.eqb_refl.
    + reflexivity.
    + cbn [t_due]. rewrite Hnow1. unfold Backoff.retry_of.
      repeat case_match; lia.
  - by rewrite Htok1.
  - rewrite Hcur. by destruct (Backoff.gives_up (this w)).
  - rewrite Hplatform, Hcur. by destruct (Backoff.gives_up (this w)).
Qed.

Lemma run_step ev evs w c w1 :
  dispatch ev w = Some (c, w1) -> run (ev :: evs) w = run evs w1.
Proof. intros Hd. cbn [run]. by rewrite Hd. Qed.

Lemma dispatch_elapse ms w :
  0 <= ms ->
  dispatch (Elapse ms) w
  = Some (Normal tt, mkWorld (this w) (with_now (now (host w) + ms) (host w))).
Proof. intros Hms. cbn [dispatch]. apply Z.leb_le in Hms. by rewrite Hms. Qed.

(** Once the armed timer is due, its firing opens a socket to
    [currentWsServer]. *)
Lemma armed_fires s id w2 :
  armed s id w2 ->
  (forall t, List.find (pending id) (timers (host w2)) = Some t -> t_due t <= now (host w2)) ->
  exists w3,
    dispatch (TimerFires id) w2 = Some (Normal tt, w3) /\
    sockets (host w3) =
      sockets (host w2) ++ [mkSocket (currentWsServer (this w2)) CONNECTING] /\
    ws (this w3) = Some (length (sockets (host w2))) /\
    reconnectCount (this w3) = reconnectCount (this w2) /\
    currentWsServer (this w3) = currentWsServer (this w2) /\
    List.find (pending id) (timers (host w3)) = None.
Proof.
  intros [Hws (sock & Hs & Hrs) (t & Hfind & Hact & _) Htoken Hserver Hok] Hdue.
  specialize (Hdue t Hfind). apply Z.leb_le in Hdue.
  cbn [dispatch]. rewrite Hfind, Hdue, Hact. cbn [run_timer].
  match goal with |- context [connect ?W] => set (w2' := W) end.
  destruct (connect_cases w2')
    as [(c & entries & _ & _ & _ & Hwhy) | (_ & _ & _ & Heq)].
  - exfalso. subst w2'. cbn [this host sockets accepts with_timers] in Hwhy.
    destruct Hwhy as [Hw|[Hw|[(s' & Hws' & Hlive)|Hw]]].
    + by destruct (userToken (this w2)).
    + by destruct (currentWsServer (this w2)).
    + rewrite Hws in Hws'. injection Hws' as <-. by apply (Hlive sock Hs).
    + congruence.
  - rewrite Heq. eexists. split; [reflexivity|].
    subst w2'. cbn [dialled this host sockets timers with_timers with_ws ws
                    reconnectCount currentWsServer].
    repeat split. apply find_filter_same.
Qed.

(** X11. After a dirty close of the manager's socket, in a reachable
    world with a token and server addresses, the reconnection happens by
    itself: once the delay has passed (ten seconds always suffice), the
    timer fires and opens one socket to [currentWsServer], in the
    connecting phase, which becomes the manager's socket. *)
Theorem reconnection_happens w s sock e ms :
  reachable w ->
  sockets (host w) !! s = Some sock -> readyState sock <> CLOSED ->
  wasClean e = false ->
  userToken (this w) <> [] -> wsServer (this w) <> [] -> currentWsServer (this w) <> [] ->
  10000 <= ms ->
  exists w3,
    run [SocketClose s e; Elapse ms; TimerFires (next_timer (host w))] w = Some w3 /\
    sockets (host w3) =
      <[s := mkSocket (url sock) CLOSED]> (sockets (host w))
      ++ [mkSocket (currentWsServer (this w3)) CONNECTING] /\
    ws (this w3) = Some (length (sockets (host w))) /\
    reconnectCount (this w3) = js_incr (reconnectCount (this w)).
Proof.
  intros Hreach Hs Hrs Hdirty Htoken Hprimary Hserver Hms.
  destruct (dirty_close_arms w s sock e Hreach Hs Hrs Hdirty Htoken Hprimary Hserver)
    as (w1 & Hd & Harmed & Hsocks & Hcount & Hnow).
  rewrite (run_step _ _ _ _ _ Hd).
  rewrite (run_step _ _ _ _ _ (dispatch_elapse ms w1 ltac:(lia))).
  set (w2 := mkWorld (this w1) (with_now (now (host w1) + ms) (host w1))).
  assert (Harmed2 : armed s (next_timer (host w)) w2).
  { destruct Harmed as [? ? (t & ? & ? & ?) ? ? ?]. split; try done.
    exists t. repeat split; try done. cbn. lia. }
  destruct (armed_fires s (next_timer (host w)) w2 Harmed2)
    as (w3 & Hd3 & Hsocks3 & Hws3 & Hcount3 & Hcur3 & _).
  { intros t Hfind. destruct Harmed as [_ _ (t' & Hfind' & _ & Hdue) _ _ _].
    cbn in Hfind. rewrite Hfind' in Hfind. injection Hfind as <-. cbn. lia. }
  rewrite (run_step _ _ _ _ _ Hd3). exists w3. split; [reflexivity|].
  rewrite Hsocks3, Hws3, Hcount3, Hcur3. cbn [w2 this host sockets with_now].
  rewrite Hsocks, length_insert. done.
Qed.

Lemma reconnection_happens_witness :
  exists w3,
    run [SocketClose 0%nat Samples.abrupt; Elapse 10000; TimerFires 1%nat] Samples.connected
      = Some w3 /\
    sockets (host w3) =
      [mkSocket (js "wss://bcons.dev/fry") CLOSED;
       mkSocket (currentWsServer (this w3)) CONNECTING] /\
    ws (this w3) = Some 1%nat /\
    reconnectCount (this w3) = 1.
Proof.
  assert (Hreach : reachable Samples.connected)
    by (exists Samples.platform, Samples.some_options, [CallConnect; SocketOpen 0%nat];
        vm_compute; reflexivity).
  apply (reconnection_happens Samples.connected 0%nat
           (mkSocket (js "wss://bcons.dev/fry") OPEN) Samples.abrupt 10000 Hreach);
    try reflexivity; try discriminate; lia.
Defined.

(** X12. [disconnect] does not cancel a pending reconnection: called
    after a dirty close, while the timer is pending, it only logs, and
    the timer still fires and opens a new socket. *)
Theorem disconnect_keeps_reconnecting w s sock e ms :
  reachable w ->
  sockets (host w) !! s = Some sock -> readyState sock <> CLOSED ->
  wasClean e = false ->
  userToken (this w) <> [] -> wsServer (this w) <> [] -> currentWsServer (this w) <> [] ->
  10000 <= ms ->
  exists w3,
    run [SocketClose s e; CallDisconnect; Elapse ms; TimerFires (next_timer (host w))] w
      = Some w3 /\
    sockets (host w3) =
      <[s := mkSocket (url sock) CLOSED]> (sockets (host w))
      ++ [mkSocket (currentWsServer (this w3)) CONNECTING] /\
    ws (this w3) = Some (length (sockets (host w))).
Proof.
  intros Hreach Hs Hrs Hdirty Htoken Hprimary Hserver Hms.
  destruct (dirty_close_arms w s sock e Hreach Hs Hrs Hdirty Htoken Hprimary Hserver)
    as (w1 & Hd & Harmed & Hsocks & Hcount & Hnow).
  rewrite (run_step _ _ _ _ _ Hd).
  assert (Hdisc : disconnect w1
                  = (Normal tt, say (log_call (msgLog (this w1)) [LText "Closing WS"]) w1)).
  { destruct Harmed as [Hws (sock1 & Hs1 & Hrs1) _ _ _ _].
    run_m. rewrite Hws. run_m. rewrite Hs1. run_m. rewrite Hrs1. reflexivity. }
  rewrite (run_step CallDisconnect _ w1 _ _ (f_equal Some Hdisc)).
  rewrite (run_step _ _ _ _ _ (dispatch_elapse ms _ ltac:(lia))).
  match goal with |- context [run _ ?W] => set (w2 := W) end.
  assert (Harmed2 : armed s (next_timer (host w)) w2).
  { destruct Harmed as [? ? (t & ? & ? & ?) ? ? ?]. split; try done.
    exists t. repeat split; try done. cbn. lia. }
  destruct (armed_fires s (next_timer (host w)) w2 Harmed2)
    as (w3 & Hd3 & Hsocks3 & Hws3 & _ & Hcur3 & _).
  { intros t Hfind. destruct Harmed as [_ _ (t' & Hfind' & _ & Hdue) _ _ _].
    cbn in Hfind. rewrite Hfind' in Hfind. injection Hfind as <-. cbn. lia. }
  rewrite (run_step _ _ _ _ _ Hd3). exists w3. split; [reflexivity|].
  rewrite Hsocks3, Hws3, Hcur3. cbn [w2 this host sockets with_now say with_trace].
  rewrite Hsocks, length_insert. done.
Qed.

Lemma disconnect_keeps_reconnecting_witness :
  exists w3,
    run [SocketClose 0%nat Samples.abrupt; CallDisconnect; Elapse 10000; TimerFires 1%nat]
      Samples.connected = Some w3 /\
    sockets (host w3) =
      [mkSocket (js "wss://bcons.dev/fry") CLOSED;
       mkSocket (currentWsServer (this w3)) CONNECTING] /\
    ws (this w3) = Some 1%nat.
Proof.
  assert (Hreach : reachable Samples.connected)
    by (exists Samples.platform, Samples.some_options, [CallConnect; SocketOpen 0%nat];
        vm_compute; reflexivity).
  apply (disconnect_keeps_reconnecting Samples.connected 0%nat
           (mkSocket (js "wss://bcons.dev/fry") OPEN) Samples.abrupt 10000 Hreach);
    try reflexivity; try discriminate; lia.
Defined.

End Reconnection.


(** ** The configuration and the counter over a whole run *)

Module Configuration.

(** X13. The constructor takes every option that is given and keeps the
    field initialiser of every option that is missing; the new manager has
    no socket, a zero counter and no timer, and its [currentWsServer] is
    its [wsServer], also when the option overrides the default server. *)
Theorem construct_fields options :
  userToken (construct options) = default [] (opt_userToken options) /\
  wsServer (construct options) = default (js "wss://bcons.dev/fry") (opt_wsServer options) /\
  device (construct options) = default (js "custom") (opt_device options) /\
  onMessage (construct options) = opt_onMessage options /\
  msgLog (construct options) = opt_msgLog options /\
  errLog (construct options) = opt_errLog options /\
  ws (construct options) = None /\
  reconnectCount (construct options) = 0 /\
  reconnectTimerId (construct options) = None /\
  currentWsServer (construct options) = default (js "wss://bcons.dev/fry") (opt_wsServer options).
Proof.
  destruct options as [[] [] [] [] [] []]; repeat split.
Qed.

(** X14. No turn of the loop writes the configuration: the token, the
    configured server, the device and the three callbacks are, after any
    sequence of turns, what they were. *)
Theorem configuration_is_constant evs w w' :
  run evs w = Some w' ->
  userToken (this w') = userToken (this w) /\
  wsServer (this w') = wsServer (this w) /\
  device (this w') = device (this w) /\
  errLog (this w') = errLog (this w) /\
  msgLog (this w') = msgLog (this w) /\
  onMessage (this w') = onMessage (this w).
Proof.
  revert w. induction evs as [|ev evs IH]; intros w Hrun; cbn [run] in Hrun.
  - by injection Hrun as <-.
  - destruct (dispatch ev w) as [[c w1]|] eqn:Hd; [|done].
    destruct (IH _ Hrun) as (-> & -> & -> & -> & -> & ->).
    apply dispatch_fields in Hd as (? & ? & ? & ? & ? & ? & _). done.
Qed.

Lemma configuration_is_constant_witness :
  userToken (this Samples.astray) = js "token" /\
  wsServer (this Samples.astray) = js "wss://bcons.dev/fry" /\
  device (this Samples.astray) = js "custom" /\
  errLog (this Samples.astray) = None /\
  msgLog (this Samples.astray) = None /\
  onMessage (this Samples.astray) = Some Samples.quiet_sink.
Proof.
  apply (configuration_is_constant Samples.redirected_then_failing
           (boot Samples.platform (construct Samples.some_options)) Samples.astray).
  vm_compute. reflexivity.
Defined.

Lemma run_app evs1 : forall evs2 w,
  run (evs1 ++ evs2) w = match run evs1 w with Some w1 => run evs2 w1 | None => None end.
Proof.
  induction evs1 as [|ev evs1 IH]; intros evs2 w; cbn [app run]; [done|].
  destruct (dispatch ev w) as [[c w1]|]; [apply IH | done].
Qed.

(** X15. The counter counts the dirty closes since the last open event:
    after a run that contains an open event followed by turns without
    one, it is the number of dirty closes among these turns (2^53 at
    most, where a double stops counting). *)
Theorem counter_counts_dirty_closes earlier s later w w' :
  run (earlier ++ SocketOpen s :: later) w = Some w' ->
  no_open later = true ->
  reconnectCount (this w') = Z.min (Z.of_nat (dirty_closes later)) (2 ^ 53).
Proof.
  intros Hrun Hno. rewrite run_app in Hrun.
  destruct (run earlier w) as [w1|]; [|done]. cbn [run] in Hrun.
  destruct (dispatch (SocketOpen s) w1) as [[c w2]|] eqn:Hd; [|done].
  rewrite (run_count _ _ _ Hrun Hno).
  apply dispatch_fields in Hd as (_ & _ & _ & _ & _ & _ & -> & _).
  cbn [next_count]. apply count_after_zero.
Qed.

Definition two_failures_after_open : list Event :=
  [SocketClose 0%nat Samples.abrupt; Elapse 1000; TimerFires 1%nat;
   SocketClose 1%nat Samples.abrupt].

Lemma counter_counts_dirty_closes_witness :
  reconnectCount
    (this (default (boot Samples.platform defaults)
             (run ([CallConnect] ++ SocketOpen 0%nat :: two_failures_after_open)
                (boot Samples.platform (construct Samples.some_options))))) = 2.
Proof.
  apply (counter_counts_dirty_closes [CallConnect] 0%nat two_failures_after_open
           (boot Samples.platform (construct Samples.some_options))); vm_compute; reflexivity.
Defined.

End Configuration.


(** ** One reconnection timer at a time *)

Module SingleTimer.

(** The pending timers carry distinct identifiers, and a pending timer
    for [connect] is the one the manager remembers. *)
Definition ReconnInv (w : World) : Prop :=
  List.NoDup (List.map t_id (timers (host w))) /\
  forall t, In t (timers (host w)) -> t_act t = TConnect ->
            reconnectTimerId (this w) = Some (t_id t).

Lemma ReconnInv_untouched w w' :
  timers_untouched w w' -> ReconnInv w -> ReconnInv w'.
Proof. intros (Ht & _ & Hr). unfold ReconnInv. by rewrite Ht, Hr. Qed.

Lemma NoDup_filter_ids (keep : Timer -> bool) ts :
  List.NoDup (List.map t_id ts) -> List.NoDup (List.map t_id (List.filter keep ts)).
Proof.
  induction ts as [|t ts IH]; cbn [List.map List.filter]; [done|].
  intros Hnd. apply List.NoDup_cons_iff in Hnd as [Hnotin Hnd].
  destruct (keep t); cbn [List.map]; [|by apply IH].
  apply List.NoDup_cons_iff. split; [|by apply IH].
  intros Hin. apply Hnotin.
  apply List.in_map_iff in Hin as (t' & Heq & Hin). apply List.in_map_iff.
  exists t'. split; [done|]. by apply List.filter_In in Hin as [Hin _].
Qed.

Lemma NoDup_fresh_id ts next due act :
  Forall (fun t => (t_id t < next)%nat) ts ->
  List.NoDup (List.map t_id ts) ->
  List.NoDup (List.map t_id (ts ++ [mkTimer next due act])).
Proof.
  intros Hts Hnd. rewrite List.map_app. cbn [List.map t_id].
  apply List.NoDup_app; [done | |].
  - apply List.NoDup_cons_iff. split; [by intros [] | constructor].
  - intros id Hin [<-|[]]. apply List.in_map_iff in Hin as (t & Heq & Hin).
    eapply List.Forall_forall in Hts; [|exact Hin]. lia.
Qed.

Lemma Forall_filter_ids (keep : Timer -> bool) ts next :
  Forall (fun t => (t_id t < next)%nat) ts ->
  Forall (fun t => (t_id t < next)%nat) (List.filter keep ts).
Proof.
  intros Hts. apply List.Forall_forall. intros t Ht.
  apply List.filter_In in Ht as [Ht _]. eapply List.Forall_forall in Hts; eauto.
Qed.

(** What a clean close does to the timers: nothing, or one timer for the
    delivery of the rejection; the handle of the reconnection timer is
    kept. *)
Lemma clean_close_timers e w :
  wasClean e = true ->
  reconnectTimerId (this (snd (onclose e w))) = reconnectTimerId (this w) /\
  (timers (host (snd (onclose e w))) = timers (host w) \/
   timers (host (snd (onclose e w))) =
     timers (host w) ++
     [mkTimer (next_timer (host w)) (now (host w) + 3000) (TDeliver (code e) (reason e))]).
Proof.
  intros Hclean. run_m. rewrite Hclean. run_m.
  repeat (first [inner_case | connect_untouched_abstract | Evolution.connect_fields_abstract];
          run_m);
    cbn [snd]; run_m; rewrite_untouched; run_m.
  all: try (split; [reflexivity | by left]).
  all: try (split; [reflexivity | right; reflexivity]).
  all: try (split; [congruence | by left]).
  all: try (split; [congruence | left; congruence]).
  all: try (split; [congruence | right; congruence]).
  exfalso.
  match goal with
  | H302 : (code e =? 302) = true, H4xx : (400 <? code e) && _ = true |- _ =>
      apply Z.eqb_eq in H302; apply andb_true_iff in H4xx as [Hlo _];
      apply Z.ltb_lt in Hlo; lia
  end.
Qed.

Lemma ReconnInv_filter (keep : Timer -> bool) w ts :
  ts = List.filter keep (timers (host w)) ->
  ReconnInv w ->
  ReconnInv (mkWorld (this w) (with_timers ts (next_timer (host w)) (host w))).
Proof.
  intros -> [Hnd Hre]. split; cbn [this host timers with_timers].
  - by apply NoDup_filter_ids.
  - intros t Hin. apply List.filter_In in Hin as [Hin _]. by apply Hre.
Qed.

Lemma onclose_ReconnInv e w : Inv w -> ReconnInv w -> ReconnInv (snd (onclose e w)).
Proof.
  intros (_ & (Hpos & Hts & Hcur) & _) [Hnd Hre].
  destruct (wasClean e) eqn:Hclean.
  - destruct (clean_close_timers e w Hclean) as (Hid & [Ht|Ht]);
      split; rewrite Ht, ?Hid.
    + done.
    + done.
    + by apply NoDup_fresh_id.
    + intros t Hin Hact. apply in_app_or in Hin as [Hin|[<-|[]]]; [by apply Hre | done].
  - destruct (Backoff.dirty_close_effect e w Hclean)
      as (w' & entries & -> & _ & _ & _ & Hid & _ & _ & Ht & _).
    cbn [snd]. split; rewrite Ht, ?Hid.
    + apply NoDup_fresh_id.
      * unfold Backoff.after_clear.
        destruct (reconnectTimerId (this w)) as [old|]; [destruct (Nat.eqb old 0)|];
          try done. by apply Forall_filter_ids.
      * unfold Backoff.after_clear.
        destruct (reconnectTimerId (this w)) as [old|]; [destruct (Nat.eqb old 0)|];
          try done. by apply NoDup_filter_ids.
    + intros t Hin Hact. apply in_app_or in Hin as [Hin|[<-|[]]]; [|done].
      exfalso. unfold Backoff.after_clear in Hin.
      destruct (reconnectTimerId (this w)) as [old|] eqn:Hold.
      * destruct (Nat.eqb_spec old 0) as [->|Hne].
        { specialize (Hcur 0%nat eq_refl). lia. }
        apply List.filter_In in Hin as [Hin Hkeep].
        specialize (Hre t Hin Hact). injection Hre as ->.
        unfold pending in Hkeep. by rewrite Nat.eqb_refl in Hkeep.
      * by specialize (Hre t Hin Hact).
Qed.

(** One turn of the loop keeps the timers in order. *)
Lemma dispatch_ReconnInv ev w c w' :
  dispatch ev w = Some (c, w') -> Inv w -> ReconnInv w -> ReconnInv w'.
Proof.
  intros Hd HI H.
  assert (Hsnd : forall (r : Completion unit * World), Some r = Some (c, w') -> w' = snd r)
    by (by intros r [= ->]).
  destruct ev; cbn [dispatch] in Hd.
  - apply Hsnd in Hd as ->. eapply ReconnInv_untouched; [apply connect_untouched | done].
  - apply Hsnd in Hd as ->. eapply ReconnInv_untouched; [apply send_untouched | done].
  - apply Hsnd in Hd as ->. eapply ReconnInv_untouched; [apply disconnect_untouched | done].
  - destruct (state_of s w) as [rs|]; [|done].
    destruct (rs =? CONNECTING); [|done].
    apply Hsnd in Hd as ->.
    eapply ReconnInv_untouched; [apply onopen_untouched|].
    eapply ReconnInv_untouched; [apply move_untouched | done].
  - unfold state_of in Hd.
    destruct (sockets (host w) !! s) as [sock|] eqn:Hs; cbn in Hd; [|done].
    destruct (readyState sock =? CLOSED) eqn:Hrs; [done|].
    apply Hsnd in Hd as ->. apply onclose_ReconnInv.
    + apply Inv_move; [by left | done].
    + eapply ReconnInv_untouched; [apply move_untouched | done].
  - destruct (state_of s w); [|done].
    apply Hsnd in Hd as ->. eapply ReconnInv_untouched; [apply onerror_untouched | done].
  - destruct (state_of s w) as [rs|]; [|done].
    destruct (rs =? OPEN); [|done].
    apply Hsnd in Hd as ->. eapply ReconnInv_untouched; [apply onmessage_untouched | done].
  - destruct (List.find (pending id) (timers (host w))) as [t0|]; [|done].
    destruct (t_due t0 <=? now (host w)); [|done].
    apply Hsnd in Hd as ->.
    pose proof (ReconnInv_filter (fun t' => negb (pending id t')) w _ eq_refl H) as Hw.
    destruct (t_act t0).
    + eapply ReconnInv_untouched; [apply connect_untouched | done].
    + eapply ReconnInv_untouched; [apply deliver_untouched | done].
  - destruct (0 <=? ms); [|done].
    apply Hsnd in Hd as ->. exact H.
Qed.

Lemma run_ReconnInv evs : forall w w',
  run evs w = Some w' -> Inv w -> ReconnInv w -> ReconnInv w'.
Proof.
  induction evs as [|ev evs IH]; intros w w' Hrun HI H; cbn in Hrun.
  - by injection Hrun as <-.
  - destruct (dispatch ev w) as [[c w1]|] eqn:Hd; [|done].
    eapply IH; eauto using dispatch_Inv, dispatch_ReconnInv.
Qed.

Lemma same_id_same_timer ts : forall t1 t2,
  List.NoDup (List.map t_id ts) -> In t1 ts -> In t2 ts -> t_id t1 = t_id t2 -> t1 = t2.
Proof.
  induction ts as [|t ts IH]; intros t1 t2 Hnd H1 H2 Hid; [done|].
  cbn [List.map] in Hnd. apply List.NoDup_cons_iff in Hnd as [Hnotin Hnd].
  destruct H1 as [->|H1], H2 as [->|H2]; try done.
  - exfalso. apply Hnotin. rewrite Hid. by apply List.in_map.
  - exfalso. apply Hnotin. rewrite <- Hid. by apply List.in_map.
  - by apply IH.
Qed.

(** X16. At most one reconnection is pending at any time: in every world
    a constructed manager can reach, the pending timers carry distinct
    identifiers, a pending timer for [connect] is the one
    [reconnectTimerId] names, and two pending timers for [connect] are the
    same timer. *)
Theorem one_reconnection_timer w :
  reachable w ->
  List.NoDup (List.map t_id (timers (host w))) /\
  (forall t, In t (timers (host w)) -> t_act t = TConnect ->
             reconnectTimerId (this w) = Some (t_id t)) /\
  (forall t1 t2,
      In t1 (timers (host w)) -> In t2 (timers (host w)) ->
      t_act t1 = TConnect -> t_act t2 = TConnect -> t1 = t2).
Proof.
  intros (platform & options & evs & Hrun).
  assert (H : ReconnInv w).
  { eapply run_ReconnInv; [exact Hrun | apply boot_Inv |].
    split; cbn [boot empty_host host timers List.map]; [constructor | by intros t []]. }
  destruct H as [Hnd Hre]. split; [done|]. split; [done|].
  intros t1 t2 H1 H2 Ha1 Ha2.
  apply (same_id_same_timer _ _ _ Hnd H1 H2).
  pose proof (Hre _ H1 Ha1) as E1. pose proof (Hre _ H2 Ha2) as E2. congruence.
Qed.

(** A manager with two dirty closes in a row, the second one while the
    timer of the first is still pending (the caller reconnected by
    hand). *)
Definition impatient : list Event :=
  [CallConnect; SocketClose 0%nat Samples.abrupt; CallConnect;
   SocketClose 1%nat Samples.abrupt].

Definition twice_failed : World :=
  default (boot Samples.platform defaults)
    (run impatient (boot Samples.platform (construct Samples.some_options))).

Lemma one_reconnection_timer_witness :
  List.NoDup (List.map t_id (timers (host twice_failed))) /\
  (forall t, In t (timers (host twice_failed)) -> t_act t = TConnect ->
             reconnectTimerId (this twice_failed) = Some (t_id t)) /\
  (forall t1 t2,
      In t1 (timers (host twice_failed)) -> In t2 (timers (host twice_failed)) ->
      t_act t1 = TConnect -> t_act t2 = TConnect -> t1 = t2).
Proof.
  apply (one_reconnection_timer twice_failed).
  exists Samples.platform, Samples.some_options, impatient. vm_compute. reflexivity.
Defined.

End SingleTimer.


(** ** What each turn may do to the environment *)

Module Tracing.

(** The logging calls go where the options say: to the injected function
    when there is one, to the console otherwise. [m] and [r] are the
    [msgLog] and [errLog] options. *)
Definition routed (m r : option LogFn) (e : Effect) : bool :=
  match e with
  | ConsoleLog _ => match m with Some _ => false | None => true end
  | MsgLog f _ => match m with Some g => Nat.eqb f g | None => false end
  | ConsoleError _ => match r with Some _ => false | None => true end
  | ErrLog f _ => match r with Some g => Nat.eqb f g | None => false end
  | _ => true
  end.

(** The calls other than logging a turn may make, by the event of the
    turn: sockets are created by [connect] only (called by the caller, by
    a timer, or on a redirect); frames go out on open and on [send]; a
    close is requested by [disconnect]; timers are set on close events,
    for [connect] on a dirty one and for the delivery of a rejection on a
    clean one; a timer is cleared on a dirty close; the sink receives data
    on a message and a rejection when a timer fires. *)
Definition may (ev : Event) (e : Effect) : bool :=
  match e with
  | ConsoleLog _ | ConsoleError _ | MsgLog _ _ | ErrLog _ _ => true
  | Created _ _ =>
      match ev with
      | CallConnect | TimerFires _ => true
      | SocketClose _ ce => wasClean ce && (code ce =? 302)
      | _ => false
      end
  | Transmit _ _ =>
      match ev with SocketOpen _ | CallSend _ => true | _ => false end
  | CloseRequested _ =>
      match ev with CallDisconnect => true | _ => false end
  | TimerSet _ _ act =>
      match ev, act with
      | SocketClose _ ce, TConnect => negb (wasClean ce)
      | SocketClose _ ce, TDeliver _ _ => wasClean ce
      | _, _ => false
      end
  | TimerCleared _ =>
      match ev with SocketClose _ ce => negb (wasClean ce) | _ => false end
  | SinkCalled (PData _) =>
      match ev with SocketMessage _ _ => true | _ => false end
  | SinkCalled (PError _ _) =>
      match ev with TimerFires _ => true | _ => false end
  end.

Definition allowed (ev : Event) (m r : option LogFn) (e : Effect) : bool :=
  routed m r e && may ev e.

(** The world [w'] is [w] after some calls that all satisfy [ok]. *)
Definition extends (ok : Effect -> bool) (w w' : World) : Prop :=
  exists entries,
    trace (host w') = trace (host w) ++ entries /\ forallb ok entries = true.

Lemma extends_refl ok w w' : trace (host w') = trace (host w) -> extends ok w w'.
Proof. intros H. exists []. by rewrite app_nil_r. Qed.

Lemma extends_trans ok w1 w2 w3 :
  extends ok w1 w2 -> extends ok w2 w3 -> extends ok w1 w3.
Proof.
  intros (l1 & H1 & Hok1) (l2 & H2 & Hok2). exists (l1 ++ l2).
  rewrite H2, H1, app_assoc. split; [done|].
  rewrite forallb_app, Hok1, Hok2. done.
Qed.

Lemma allowed_log_call ev m r p : allowed ev m r (log_call m p) = true.
Proof.
  unfold allowed, log_call. destruct m; cbn [routed may]; rewrite ?Nat.eqb_refl; done.
Qed.

Lemma allowed_logErr_call ev m r p : allowed ev m r (logErr_call r p) = true.
Proof.
  unfold allowed, logErr_call. destruct r; cbn [routed may]; rewrite ?Nat.eqb_refl; done.
Qed.

Lemma allowed_other ev m r e :
  is_log e = false -> may ev e = true -> allowed ev m r e = true.
Proof. intros Hl Hm. unfold allowed. rewrite Hm. by destruct e. Qed.

(** Gives the calls added to an explicit world and checks them; what is
    left are the calls that are not logging calls. *)
Ltac close_extends :=
  unfold extends;
  first
    [ exists []; split; [run_m; by rewrite app_nil_r | reflexivity]
    | eexists; split;
      [ run_m; rewrite <- ?app_assoc; reflexivity
      | cbn [forallb app]; rewrite ?allowed_log_call, ?allowed_logErr_call;
        try reflexivity ] ].

(** [connect] logs, and creates at most one socket. *)
Lemma connect_extends ev w :
  (forall s target, may ev (Created s target) = true) ->
  extends (allowed ev (msgLog (this w)) (errLog (this w))) w (snd (connect w)).
Proof.
  intros Hmay. unfold connect. run_m.
  repeat (inner_case; run_m); cbn [snd].
  all: close_extends.
  all: try (rewrite allowed_other by (done || apply Hmay); reflexivity).
Qed.

Ltac solve_extends :=
  run_m; repeat (inner_case; run_m); cbn [snd]; close_extends;
  try (rewrite ?allowed_other by done; reflexivity).

Lemma onopen_extends s w :
  extends (allowed (SocketOpen s) (msgLog (this w)) (errLog (this w))) w (snd (onopen w)).
Proof. solve_extends. Qed.

Lemma onerror_extends s what w :
  extends (allowed (SocketError s what) (msgLog (this w)) (errLog (this w)))
    w (snd (onerror what w)).
Proof. solve_extends. Qed.

Lemma onmessage_extends s data w :
  extends (allowed (SocketMessage s data) (msgLog (this w)) (errLog (this w)))
    w (snd (onmessage data w)).
Proof. solve_extends. Qed.

Lemma send_extends message w :
  extends (allowed (CallSend message) (msgLog (this w)) (errLog (this w)))
    w (snd (send message w)).
Proof. solve_extends. Qed.

Lemma disconnect_extends w :
  extends (allowed CallDisconnect (msgLog (this w)) (errLog (this w)))
    w (snd (disconnect w)).
Proof.
  run_m. repeat (inner_case; run_m); cbn [snd]; unfold set_readyState;
    repeat (inner_case; run_m); close_extends;
    try (rewrite ?allowed_other by done; reflexivity).
Qed.

Lemma deliver_extends id c r w :
  extends (allowed (TimerFires id) (msgLog (this w)) (errLog (this w)))
    w (snd (run_timer (TDeliver c r) w)).
Proof. solve_extends. Qed.

Lemma onclose_extends s e w :
  extends (allowed (SocketClose s e) (msgLog (this w)) (errLog (this w)))
    w (snd (onclose e w)).
Proof.
  destruct (wasClean e) eqn:Hclean.
  - destruct (code e =? 302) eqn:H302.
    + assert (H4xx : (400 <? code e) && (code e <? 500) = false).
      { apply Z.eqb_eq in H302. rewrite H302. reflexivity. }
      run_m. rewrite Hclean. run_m. rewrite H302. run_m. rewrite H4xx. run_m.
      match goal with
      | |- context [connect ?W] =>
          pose proof (connect_extends (SocketClose s e) W) as (l & Hl & Hok);
          [intros; cbn [may]; by rewrite Hclean, H302 |];
          destruct (connect W) as [c w1]
      end.
      run_m. destruct c; cbn [snd].
      all: unfold extends; eexists; split;
        [ rewrite Hl, <- ?app_assoc; reflexivity
        | cbn [forallb app]; rewrite ?allowed_log_call, Hok; reflexivity ].
    + run_m. rewrite Hclean. run_m. rewrite H302. run_m.
      repeat (inner_case; run_m); cbn [snd]; close_extends.
      rewrite allowed_other by (done || (cbn [may]; by rewrite Hclean)). reflexivity.
  - run_m. rewrite Hclean. run_m.
    repeat (inner_case; run_m); cbn [snd]; close_extends.
    all: rewrite ?allowed_other by (done || (cbn [may]; by rewrite Hclean)); reflexivity.
Qed.

Lemma move_socket_trace s rs w : trace (host (move_socket s rs w)) = trace (host w).
Proof. unfold move_socket, set_readyState. cbn. by destruct (sockets (host w) !! s). Qed.

(** The calls of one turn: they go where the options say and they are
    among those the event of the turn may cause. *)
Lemma dispatch_extends ev w c w' :
  dispatch ev w = Some (c, w') ->
  extends (allowed ev (msgLog (this w)) (errLog (this w))) w w'.
Proof.
  intros Hd.
  assert (Hsnd : forall (r : Completion unit * World), Some r = Some (c, w') -> w' = snd r)
    by (by intros r [= ->]).
  destruct ev; cbn [dispatch] in Hd.
  - apply Hsnd in Hd as ->. by apply connect_extends.
  - apply Hsnd in Hd as ->. apply send_extends.
  - apply Hsnd in Hd as ->. apply disconnect_extends.
  - destruct (state_of s w) as [rs|]; [|done].
    destruct (rs =? CONNECTING); [|done].
    apply Hsnd in Hd as ->.
    eapply extends_trans; [apply extends_refl, (move_socket_trace s OPEN w)|].
    apply (onopen_extends s (move_socket s OPEN w)).
  - destruct (state_of s w) as [rs|]; [|done].
    destruct (rs =? CLOSED); [done|].
    apply Hsnd in Hd as ->.
    eapply extends_trans; [apply extends_refl, (move_socket_trace s CLOSED w)|].
    apply (onclose_extends s e (move_socket s CLOSED w)).
  - destruct (state_of s w); [|done].
    apply Hsnd in Hd as ->. apply onerror_extends.
  - destruct (state_of s w) as [rs|]; [|done].
    destruct (rs =? OPEN); [|done].
    apply Hsnd in Hd as ->. apply onmessage_extends.
  - destruct (List.find (pending id) (timers (host w))) as [t0|]; [|done].
    destruct (t_due t0 <=? now (host w)); [|done].
    apply Hsnd in Hd as ->.
    match goal with |- extends _ _ (snd (run_timer _ ?W)) => set (w0 := W) end.
    eapply (extends_trans _ w w0); [by apply extends_refl|].
    destruct (t_act t0) as [|rc rr].
    + by apply (connect_extends (TimerFires id) w0).
    + apply (deliver_extends id rc rr w0).
  - destruct (0 <=? ms); [|done].
    apply Hsnd in Hd as ->. by apply extends_refl.
Qed.

Lemma forallb_weaken {A} (p q : A -> bool) l :
  (forall x, p x = true -> q x = true) -> forallb p l = true -> forallb q l = true.
Proof.
  intros Hpq. induction l as [|x l IH]; cbn; [done|].
  intros H. apply andb_true_iff in H as [Hx Hl]. by rewrite (Hpq x Hx), IH.
Qed.

(** X17. Every line the manager logs goes where the options say: over
    any sequence of turns, [log] reaches [msgLog] if it was given and the
    console otherwise, never both, and [logErr] does the same with
    [errLog]. *)
Theorem logs_follow_the_options evs w w' :
  run evs w = Some w' ->
  exists entries,
    trace (host w') = trace (host w) ++ entries /\
    forallb (routed (msgLog (this w)) (errLog (this w))) entries = true.
Proof.
  revert w. induction evs as [|ev evs IH]; intros w Hrun; cbn [run] in Hrun.
  - injection Hrun as <-. exists []. by rewrite app_nil_r.
  - destruct (dispatch ev w) as [[c w1]|] eqn:Hd; [|done].
    destruct (IH _ Hrun) as (l2 & H2 & Hok2).
    destruct (dispatch_extends _ _ _ _ Hd) as (l1 & H1 & Hok1).
    apply dispatch_fields in Hd as (_ & _ & _ & Herr & Hmsg & _).
    rewrite Herr, Hmsg in Hok2.
    exists (l1 ++ l2). rewrite H2, H1, app_assoc. split; [done|].
    rewrite forallb_app, Hok2, andb_true_r.
    eapply forallb_weaken; [|exact Hok1].
    intros e He. unfold allowed in He. by apply andb_true_iff in He as [He _].
Qed.

Definition options_with_loggers : Options :=
  mkOptions (Some (js "token")) None None None (Some 1%nat) (Some 2%nat).

Lemma logs_follow_the_options_witness :
  exists entries,
    trace (host (default (boot Samples.platform defaults)
                   (run [CallConnect; SocketOpen 0%nat; SocketMessage 0%nat (js "{")]
                      (boot Samples.platform (construct options_with_loggers)))))
      = [] ++ entries /\
    forallb (routed (Some 1%nat) (Some 2%nat)) entries = true.
Proof.
  apply (logs_follow_the_options
           [CallConnect; SocketOpen 0%nat; SocketMessage 0%nat (js "{")]
           (boot Samples.platform (construct options_with_loggers))).
  vm_compute. reflexivity.
Defined.

(** X18. Each kind of call on the environment belongs to its turns: a
    socket is created only in a turn that calls [connect] (a call of the
    method, a timer, a redirect); a frame is transmitted only on an open
    event or in [send]; a close is requested only in [disconnect]; a timer
    is set only on a close event; the sink receives data only on a message
    event and a rejection only when a timer fires. *)
Theorem calls_belong_to_their_turns ev w c w' :
  dispatch ev w = Some (c, w') ->
  exists entries,
    trace (host w') = trace (host w) ++ entries /\
    forallb (may ev) entries = true.
Proof.
  intros Hd. destruct (dispatch_extends _ _ _ _ Hd) as (l & Hl & Hok).
  exists l. split; [done|]. eapply forallb_weaken; [|exact Hok].
  intros e He. unfold allowed in He. by apply andb_true_iff in He as [_ He].
Qed.

Lemma calls_belong_to_their_turns_witness :
  exists entries,
    trace (host (Samples.after (SocketClose 0%nat Samples.abrupt) Samples.connected))
      = trace (host Samples.connected) ++ entries /\
    forallb (may (SocketClose 0%nat Samples.abrupt)) entries = true.
Proof.
  apply (calls_belong_to_their_turns (SocketClose 0%nat Samples.abrupt)
           Samples.connected (Normal tt)).
  vm_compute. reflexivity.
Defined.

(** The values the sink received as data, in order. *)
Fixpoint data_of (entries : list Effect) : list json :=
  match entries with
  | [] => []
  | SinkCalled (PData v) :: rest => v :: data_of rest
  | _ :: rest => data_of rest
  end.

(** The values of the inbound frames that parse, in order of arrival. *)
Fixpoint frames_of (evs : list Event) : list json :=
  match evs with
  | [] => []
  | SocketMessage _ data :: rest =>
      match JSON_parse data with
      | Some v => v :: frames_of rest
      | None => frames_of rest
      end
  | _ :: rest => frames_of rest
  end.

Lemma data_of_app l1 l2 : data_of (l1 ++ l2) = data_of l1 ++ data_of l2.
Proof.
  induction l1 as [|e l1 IH]; [done|]. cbn [app data_of].
  destruct e as [| | | | | | | | |[]]; cbn; by rewrite ?IH.
Qed.

Lemma data_of_other ev entries :
  (forall s data, ev <> SocketMessage s data) ->
  forallb (may ev) entries = true -> data_of entries = [].
Proof.
  intros Hev. induction entries as [|e l IH]; [done|]. cbn [forallb data_of].
  intros H. apply andb_true_iff in H as [He Hl].
  destruct e as [| | | | | | | | |[]]; try (by apply IH).
  exfalso. destruct ev; cbn in He; try done. by eapply Hev.
Qed.

(** The message handler with a registered sink calls it exactly when the
    frame parses, with the parsed value. *)
Lemma onmessage_data data w cb :
  onMessage (this w) = Some cb ->
  exists entries,
    trace (host (snd (onmessage data w))) = trace (host w) ++ entries /\
    data_of entries = match JSON_parse data with Some v => [v] | None => [] end.
Proof.
  intros Hsink. run_m. destruct (JSON_parse data) as [v|]; run_m.
  - rewrite Hsink. run_m. destruct (cb (PData v)); run_m; cbn [snd]; run_m.
    + by exists [SinkCalled (PData v)].
    + eexists. rewrite <- app_assoc. split; [reflexivity|].
      cbn [app data_of]. by destruct (errLog (this w)).
  - cbn [snd]. run_m. eexists. split; [reflexivity|]. by destruct (errLog (this w)).
Qed.

Lemma dispatch_data ev w c w' cb :
  dispatch ev w = Some (c, w') -> onMessage (this w) = Some cb ->
  exists entries,
    trace (host w') = trace (host w) ++ entries /\
    data_of entries = frames_of [ev].
Proof.
  intros Hd Hsink.
  destruct (dispatch_extends _ _ _ _ Hd) as (l & Hl & Hok).
  apply (forallb_weaken _ (may ev)) in Hok;
    [|intros e He; unfold allowed in He; by apply andb_true_iff in He as [_ He]].
  destruct ev as [|m| |s|s e|s what|s data|id|ms];
    try (exists l; split; [done|]; eapply data_of_other; [|exact Hok]; done).
  cbn [dispatch] in Hd. destruct (state_of s w) as [rs|]; [|done].
  destruct (rs =? OPEN); [|done]. injection Hd as Hd.
  destruct (onmessage_data data w cb Hsink) as (l' & Hl' & Hdata).
  rewrite Hd in Hl'. cbn [snd] in Hl'.
  exists l'. split; [done|]. cbn [frames_of]. rewrite Hdata.
  by destruct (JSON_parse data).
Qed.

Lemma frames_of_cons ev evs : frames_of (ev :: evs) = frames_of [ev] ++ frames_of evs.
Proof.
  destruct ev; try reflexivity. cbn [frames_of]. by destruct (JSON_parse data).
Qed.

(** X19. With a registered sink, the values the sink receives as data
    over any sequence of turns are the values of the inbound frames that
    parse, each one once, in order of arrival; no other turn hands data to
    the sink and no frame is kept back. *)
Theorem frames_reach_the_sink_in_order evs w w' cb :
  run evs w = Some w' -> onMessage (this w) = Some cb ->
  exists entries,
    trace (host w') = trace (host w) ++ entries /\
    data_of entries = frames_of evs.
Proof.
  revert w. induction evs as [|ev evs IH]; intros w Hrun Hsink; cbn [run] in Hrun.
  - injection Hrun as <-. exists []. by rewrite app_nil_r.
  - destruct (dispatch ev w) as [[c w1]|] eqn:Hd; [|done].
    destruct (dispatch_data _ _ _ _ cb Hd Hsink) as (l1 & H1 & Hd1).
    apply dispatch_fields in Hd as (_ & _ & _ & _ & _ & Hsame & _).
    destruct (IH _ Hrun ltac:(by rewrite Hsame)) as (l2 & H2 & Hd2).
    exists (l1 ++ l2). rewrite H2, H1, app_assoc. split; [done|].
    by rewrite data_of_app, Hd1, Hd2, (frames_of_cons ev evs).
Qed.

Lemma frames_reach_the_sink_in_order_witness :
  exists entries,
    trace (host (default (boot Samples.platform defaults)
                   (run [SocketMessage 0%nat (js "[1]"); SocketMessage 0%nat (js "{");
                         SocketError 0%nat []; SocketMessage 0%nat (js "true")]
                      Samples.connected)))
      = trace (host Samples.connected) ++ entries /\
    data_of entries = [JArray [JNumber (js "1")]; JBool true].
Proof.
  apply (frames_reach_the_sink_in_order
           [SocketMessage 0%nat (js "[1]"); SocketMessage 0%nat (js "{");
            SocketError 0%nat []; SocketMessage 0%nat (js "true")]
           Samples.connected _ Samples.quiet_sink);
    vm_compute; reflexivity.
Defined.

End Tracing.

(** ** Authentication on open *)

Module Authentication.

Import AuthFrame.

(** X20. When a connecting socket opens and neither the token nor the
    device label contains a quotation mark, a reverse solidus or a control
    character, the manager logs one line and transmits one frame on that
    socket, and the frame is the JSON text of the object with the members
    [e] (the string auth), [userToken] and [device], in this order. *)
Theorem open_authenticates w s :
  reachable w -> state_of s w = Some CONNECTING ->
  forallb plain (userToken (this w)) = true ->
  forallb plain (device (this w)) = true ->
  exists w' frame,
    dispatch (SocketOpen s) w = Some (Normal tt, w') /\
    trace (host w') =
      trace (host w) ++
      [log_call (msgLog (this w)) [LText "[ws] Connection established"];
       Transmit s frame] /\
    JSON_parse frame = Some (auth_object (userToken (this w)) (device (this w))).
Proof.
  intros Hreach Hs Htoken Hdev.
  destruct (open_transmits_auth_frame w s Hreach Hs) as (w' & Hd & Htrace).
  exists w', (auth_frame (userToken (this w)) (device (this w))).
  split; [exact Hd|]. split; [exact Htrace|]. by apply auth_frame_plain.
Qed.

Lemma open_authenticates_witness :
  exists w' frame,
    dispatch (SocketOpen 0%nat) Samples.dialling = Some (Normal tt, w') /\
    trace (host w') =
      trace (host Samples.dialling) ++
      [log_call (msgLog (this Samples.dialling)) [LText "[ws] Connection established"];
       Transmit 0%nat frame] /\
    JSON_parse frame =
      Some (auth_object (userToken (this Samples.dialling)) (device (this Samples.dialling))).
Proof.
  apply (open_authenticates Samples.dialling 0%nat).
  - exists Samples.platform, Samples.some_options, [CallConnect]. vm_compute. reflexivity.
  - vm_compute. reflexivity.
  - vm_compute. reflexivity.
  - vm_compute. reflexivity.
Defined.

End Authentication.
